(** * RooAbsGoodnessOfFit: the goodness-of-fit evaluation engine

    A shallow embedding of [roofitcore/src/RooAbsGoodnessOfFit.cxx]: the
    operation-mode state machine (Slave / SimMaster / MPMaster), the lazy
    one-time initialisation, the decomposition of a simultaneous model into
    per-category child engines, the fan-out to worker front-ends, and the
    forwarding of structural changes.

    Conventions of the embedding
    - [Int_t] is a 32-bit signed integer: a [Z] normalised by [Int.wrap]. A
      product that does not fit wraps around, as it does in the compiled
      code; so does, here, the quotient of [Int.min] by [-1], which the
      processor refuses like a division by zero. The statements that say
      that an evaluation returns a value keep the divisor positive, and
      those that exclude undefined behaviour keep the products within
      [Int_t].
    - Arrays of pointers ([_gofArray], [_mpfeArray]) are lists of slots
      [option T]; an empty slot is a pointer that designates no object, and
      the empty list stands for the null array pointer as well as for an
      array of length zero (neither has a slot that can be read).
    - Methods run in a writer monad [M] that records what the code prints and
      which objects it builds, and whose outcome says whether the call
      returned, was interrupted by [RooErrorHandler::softAbort], or ran into
      undefined behaviour.
    - A call on another object (a child engine, the prototype, the engine
      wrapped by a front-end) goes through a method table [Methods]; the
      table is closed by recursion on the nesting depth of the objects
      ([dispatch]), and [rank] bounds that depth for every engine. *)

From Stdlib Require Import ZArith Lia.
From stdpp Require Import base list strings pretty.

Local Open Scope Z_scope.
Set Warnings "-register-all".

(** ** Int_t *)

Module Int.

Definition min : Z := -2147483648.
Definition max : Z := 2147483647.

(** Two's-complement reduction of a mathematical integer to 32 bits. *)
Definition wrap (z : Z) : Z := (z + 2147483648) mod 4294967296 - 2147483648.

Definition add (a b : Z) : Z := wrap (a + b).
Definition mul (a b : Z) : Z := wrap (a * b).

(** [a / b] of C++: the quotient truncated towards zero ([b] is not 0, and
    the quotient is not that of [min] by [-1]). *)
Definition div (a b : Z) : Z := wrap (Z.quot a b).

Definition inRange (z : Z) : Prop := min <= z <= max.

End Int.

(** ** The slice of a Slave-mode evaluation

    [nFirst] and [nLast] are the two local variables of the last branch of
    [RooAbsGoodnessOfFit::evaluate]. *)

Definition nFirst (_nEvents _setNum _numSets : Z) : Z :=
  Int.div (Int.mul _nEvents _setNum) _numSets.

Definition nLast (_nEvents _setNum _numSets : Z) : Z :=
  Int.div (Int.mul _nEvents (Int.add _setNum 1)) _numSets.

(** Entry [k] is visited by the evaluation of slice [setNum]. *)
Definition inSlice (_nEvents _numSets setNum k : Z) : Prop :=
  nFirst _nEvents setNum _numSets <= k < nLast _nEvents setNum _numSets.

(** ** Collaborators of the engine

    The probability model, the dataset and the index category are external
    to the engine; the embedding keeps of them what the engine reads. *)

Definition RooArgSet : Type := list string.

(** The index category of a simultaneous model: its name and the names of
    its declared states, in [typeIterator()] order. *)
Record RooAbsCategoryLValue : Type := mkCategory {
  catName : string;
  catTypes : list string
}.

(** A model is a [RooSimultaneous] (an index category and one component per
    state name) or any other [RooAbsPdf]. *)
Inductive RooAbsPdf : Type :=
| RooPdf (pdfName : string)
| RooSimultaneous (pdfName : string) (indexCat : RooAbsCategoryLValue)
    (pdfProxyList : list (string * RooAbsPdf)).

(** A dataset: its name, [numEntries()], and what [split(cat)] returns: the
    list of named subsets for each category the dataset can be split by; for
    any other category the split fails and returns no list. *)
Inductive RooAbsData : Type :=
| RooData (dataName : string) (numEntries : Z)
    (splits : list (string * list RooAbsData)).

Definition GetNameD (d : RooAbsData) : string :=
  match d with RooData n _ _ => n end.

Definition numEntries (d : RooAbsData) : Z :=
  match d with RooData _ n _ => n end.

Definition split (d : RooAbsData) (simCat : RooAbsCategoryLValue)
  : option (list RooAbsData) :=
  match d with
  | RooData _ _ s =>
      snd <$> List.find (fun p => String.eqb (fst p) (catName simCat)) s
  end.

(** [dynamic_cast<RooSimultaneous*>(&pdf)] is not null. *)
Definition isSimultaneous (pdf : RooAbsPdf) : bool :=
  match pdf with RooSimultaneous _ _ _ => true | RooPdf _ => false end.

(** [RooSimultaneous::getPdf(catName)]: the component bound to a state name,
    if there is one. *)
Definition getPdf (pdfProxyList : list (string * RooAbsPdf)) (catLabel : string)
  : option RooAbsPdf :=
  snd <$> List.find (fun p => String.eqb (fst p) catLabel) pdfProxyList.

(** [TList::FindObject(name)]: the first object of that name. *)
Definition FindObject (dsetList : list RooAbsData) (name : string)
  : option RooAbsData :=
  List.find (fun d => String.eqb (GetNameD d) name) dsetList.

(** Nesting depth of simultaneous models. *)
Fixpoint pdfDepth (pdf : RooAbsPdf) : nat :=
  match pdf with
  | RooPdf _ => O
  | RooSimultaneous _ _ l =>
      S (foldr Nat.max O (List.map (fun p => pdfDepth (snd p)) l))
  end.

(** ** Effects *)

(** What a call leaves behind besides the state of the objects: the lines
    written to [cout], the engines built by the [create] factory and the
    front-ends built by [new RooRealMPFE]. *)
Inductive Event : Type :=
| Cout (line : string)
| Create (name : string)
| NewMPFE (name : string) (doInline : bool).

(** Undefined behaviour the code can run into: a call through a slot that
    designates no object, the access to a slot that an array does not have
    (beyond its length, or of the null array), an integer division by zero,
    and the use of an object through a cast to a class it is not of. *)
Inductive Fault : Type :=
| NullPointer
| OutOfBounds
| DivideByZero
| BadCast.

(** How a call ends: it returns, it is interrupted by the error handler, it
    runs into undefined behaviour, or it asks for a method of an object
    nested deeper than the method table reaches ([dispatch] below; a call
    made at the depth of its receiver never ends this way, see
    [Evaluate_served] and its siblings). *)
Inductive Outcome (A : Type) : Type :=
| Returned (a : A)
| SoftAbort
| Undefined (f : Fault)
| OutOfFuel.

Arguments Returned {A} a.
Arguments SoftAbort {A}.
Arguments Undefined {A} f.
Arguments OutOfFuel {A}.

Definition M (A : Type) : Type := (list Event * Outcome A)%type.

#[global] Instance M_ret : MRet M := fun A a => ([], Returned a).

#[global] Instance M_bind : MBind M := fun A B f m =>
  match m with
  | (tr, Returned a) => let (tr', o) := f a in (tr ++ tr', o)
  | (tr, SoftAbort) => (tr, SoftAbort)
  | (tr, Undefined u) => (tr, Undefined u)
  | (tr, OutOfFuel) => (tr, OutOfFuel)
  end.

Arguments M_ret : simpl never.
Arguments M_bind : simpl never.

Definition cout (line : string) : M unit := ([Cout line], Returned tt).
Definition emit (ev : Event) : M unit := ([ev], Returned tt).
Definition undefined {A : Type} (f : Fault) : M A := ([], Undefined f).
Definition outOfFuel {A : Type} : M A := ([], OutOfFuel).

(** Modelled from the spec: [RooErrorHandler::softAbort] (its definition is
    not part of the sources). It surfaces an unrecoverable-error signal to
    the caller: the call in progress does not continue. *)
Definition softAbort {A : Type} : M A := ([], SoftAbort).

(** [for (i=start ; i<start+count ; i++) body] over a loop state. *)
Fixpoint forRange {S : Type} (count start : nat) (body : nat -> S -> M S) (s : S)
  : M S :=
  match count with
  | O => mret s
  | Datatypes.S count' => s' ← body start s; forRange count' (Datatypes.S start) body s'
  end.

(** [for (i=0 ; i<n ; i++) body]. *)
Definition For {S : Type} (n : Z) (body : nat -> S -> M S) (s : S) : M S :=
  forRange (Z.to_nat n) O body s.

(** [while (type = catIter->Next()) body], over the declared states. *)
Fixpoint whileNext {S : Type} (types : list string) (body : string -> S -> M S)
  (s : S) : M S :=
  match types with
  | [] => mret s
  | type :: rest => s' ← body type s; whileNext rest body s'
  end.

(** [new T*[n]]: [n] slots, none of which designates an object yet. *)
Definition newArray {T : Type} (n : Z) : list (option T) :=
  replicate (Z.to_nat n) None.

(** [a[i] = x]. *)
Definition storeSlot {T : Type} (i : nat) (x : T) (a : list (option T))
  : M (list (option T)) :=
  if decide (i < length a)%nat then mret (<[i := Some x]> a)
  else undefined OutOfBounds.

(** [a[i]->method()], the object being updated in place; with [guarded] the
    call stands under [if (a[i])]. *)
Definition atSlot {T : Type} (guarded : bool) (method : T -> M T) (i : nat)
  (a : list (option T)) : M (list (option T)) :=
  match a !! i with
  | None => undefined OutOfBounds
  | Some None => if guarded then mret a else undefined NullPointer
  | Some (Some o) => o' ← method o; mret (<[i := Some o']> a)
  end.

(** [a[i]->Clone()], read from one array. *)
Definition readSlot {T : Type} (i : nat) (a : list (option T)) : M T :=
  match a !! i with
  | None => undefined OutOfBounds
  | Some None => undefined NullPointer
  | Some (Some o) => mret o
  end.

(** [Form("%s<infix>%d", s, i)]. *)
Definition Form (s infix : string) (i : Z) : string :=
  s +:+ infix +:+ pretty i.

(** ** The engine *)

Inductive GOFOpMode : Type := SimMaster | MPMaster | Slave.

#[global] Instance GOFOpMode_eq_dec : EqDecision GOFOpMode.
Proof. solve_decision. Defined.

(** What the missing header and the concrete subclass provide: the value
    type of a goodness-of-fit, the opcode type of [constOptimize], the
    parameters of a model, the partition evaluator (pure virtual
    [evaluatePartition], a function of what the instance is bound to and of
    the slice), and the addition of two values. *)
Class Subclass : Type := mkSubclass {
  Double_t : Type;
  ConstOpCode : Type;
  getParameters : RooAbsPdf -> RooAbsData -> RooArgSet;
  evaluatePartition :
    RooAbsPdf -> RooAbsData -> RooArgSet -> Z -> Z -> Z -> Double_t;
  Dzero : Double_t;
  Dadd : Double_t -> Double_t -> Double_t
}.

Section Engine.

Context {subclass : Subclass}.

(** A structural change, as a receiver sees it. *)
Inductive Notification : Type :=
| ServerRedirect (newServerList : RooArgSet)
    (mustReplaceAll nameChange isRecursive : bool)
| ConstOptimize (opcode : ConstOpCode).

(** The data members of [RooAbsGoodnessOfFit] other than its two arrays.
    [_notified] is not a member of the class: it is the observation log of
    the instance, to which [redirectServersHook] and [constOptimize] append
    the notification they were called with, so that the fan-out of a
    structural change can be stated. *)
Record Members : Type := mkMembers {
  m_name : string;
  m_title : string;
  m_paramSet : RooArgSet;
  m_pdf : RooAbsPdf;
  m_data : RooAbsData;
  m_projDeps : RooArgSet;
  m_simCount : Z;
  m_nGof : Z;
  m_nCPU : Z;
  m_gofOpMode : GOFOpMode;
  m_setNum : Z;
  m_numSets : Z;
  m_init : bool;
  m_nEvents : Z;
  m_notified : list Notification
}.

(** Modelled from the spec: the worker front-end [RooRealMPFE] (its sources
    are not part of the repository snapshot). A front-end owns a private
    copy of the engine it was built around, knows whether it runs inline in
    the calling process, and forwards what it receives to its engine. *)
Record RooRealMPFE_ (G : Type) : Type := mkMPFE {
  mpfeName : string;
  mpfeTitle : string;
  mpfeArg : G;
  mpfeInline : bool;
  mpfeInit : bool;
  mpfeNotified : list Notification
}.

Arguments mkMPFE {G}.
Arguments mpfeName {G}.
Arguments mpfeTitle {G}.
Arguments mpfeArg {G}.
Arguments mpfeInline {G}.
Arguments mpfeInit {G}.
Arguments mpfeNotified {G}.

(** An instance: its members, [_gofArray] and [_mpfeArray]. *)
Inductive RooAbsGoodnessOfFit : Type :=
| GOF (members : Members)
    (_gofArray : list (option RooAbsGoodnessOfFit))
    (_mpfeArray : list (option (RooRealMPFE_ RooAbsGoodnessOfFit))).

Definition RooRealMPFE : Type := RooRealMPFE_ RooAbsGoodnessOfFit.

Definition members (this : RooAbsGoodnessOfFit) : Members :=
  match this with GOF m _ _ => m end.

(** The data members, read off an instance. *)
Definition _name (this : RooAbsGoodnessOfFit) : string := m_name (members this).
Definition _title (this : RooAbsGoodnessOfFit) : string := m_title (members this).
Definition _paramSet (this : RooAbsGoodnessOfFit) : RooArgSet := m_paramSet (members this).
Definition _pdf (this : RooAbsGoodnessOfFit) : RooAbsPdf := m_pdf (members this).
Definition _data (this : RooAbsGoodnessOfFit) : RooAbsData := m_data (members this).
Definition _projDeps (this : RooAbsGoodnessOfFit) : RooArgSet := m_projDeps (members this).
Definition _simCount (this : RooAbsGoodnessOfFit) : Z := m_simCount (members this).
Definition _nGof (this : RooAbsGoodnessOfFit) : Z := m_nGof (members this).
Definition _nCPU (this : RooAbsGoodnessOfFit) : Z := m_nCPU (members this).
Definition _gofOpMode (this : RooAbsGoodnessOfFit) : GOFOpMode := m_gofOpMode (members this).
Definition _setNum (this : RooAbsGoodnessOfFit) : Z := m_setNum (members this).
Definition _numSets (this : RooAbsGoodnessOfFit) : Z := m_numSets (members this).
Definition _init (this : RooAbsGoodnessOfFit) : bool := m_init (members this).
Definition _nEvents (this : RooAbsGoodnessOfFit) : Z := m_nEvents (members this).
Definition _notified (this : RooAbsGoodnessOfFit) : list Notification := m_notified (members this).

Definition _gofArray (this : RooAbsGoodnessOfFit)
  : list (option RooAbsGoodnessOfFit) :=
  match this with GOF _ ga _ => ga end.

Definition _mpfeArray (this : RooAbsGoodnessOfFit) : list (option RooRealMPFE) :=
  match this with GOF _ _ ma => ma end.

(** Assignments to single members. *)
Definition updMembers (f : Members -> Members) (this : RooAbsGoodnessOfFit)
  : RooAbsGoodnessOfFit :=
  match this with GOF m ga ma => GOF (f m) ga ma end.

Definition set_gofArray (ga : list (option RooAbsGoodnessOfFit))
  (this : RooAbsGoodnessOfFit) : RooAbsGoodnessOfFit :=
  match this with GOF m _ ma => GOF m ga ma end.

Definition set_mpfeArray (ma : list (option RooRealMPFE))
  (this : RooAbsGoodnessOfFit) : RooAbsGoodnessOfFit :=
  match this with GOF m ga _ => GOF m ga ma end.

Definition set_name (v : string) : RooAbsGoodnessOfFit -> RooAbsGoodnessOfFit :=
  updMembers (fun m =>
    mkMembers v (m_title m) (m_paramSet m) (m_pdf m) (m_data m) (m_projDeps m)
      (m_simCount m) (m_nGof m) (m_nCPU m) (m_gofOpMode m) (m_setNum m) (m_numSets m)
      (m_init m) (m_nEvents m) (m_notified m)).

Definition set_title (v : string) : RooAbsGoodnessOfFit -> RooAbsGoodnessOfFit :=
  updMembers (fun m =>
    mkMembers (m_name m) v (m_paramSet m) (m_pdf m) (m_data m) (m_projDeps m)
      (m_simCount m) (m_nGof m) (m_nCPU m) (m_gofOpMode m) (m_setNum m) (m_numSets m)
      (m_init m) (m_nEvents m) (m_notified m)).

Definition set_simCount (v : Z) : RooAbsGoodnessOfFit -> RooAbsGoodnessOfFit :=
  updMembers (fun m =>
    mkMembers (m_name m) (m_title m) (m_paramSet m) (m_pdf m) (m_data m) (m_projDeps m)
      v (m_nGof m) (m_nCPU m) (m_gofOpMode m) (m_setNum m) (m_numSets m)
      (m_init m) (m_nEvents m) (m_notified m)).

Definition set_nGof (v : Z) : RooAbsGoodnessOfFit -> RooAbsGoodnessOfFit :=
  updMembers (fun m =>
    mkMembers (m_name m) (m_title m) (m_paramSet m) (m_pdf m) (m_data m) (m_projDeps m)
      (m_simCount m) v (m_nCPU m) (m_gofOpMode m) (m_setNum m) (m_numSets m)
      (m_init m) (m_nEvents m) (m_notified m)).

Definition set_nCPU (v : Z) : RooAbsGoodnessOfFit -> RooAbsGoodnessOfFit :=
  updMembers (fun m =>
    mkMembers (m_name m) (m_title m) (m_paramSet m) (m_pdf m) (m_data m) (m_projDeps m)
      (m_simCount m) (m_nGof m) v (m_gofOpMode m) (m_setNum m) (m_numSets m)
      (m_init m) (m_nEvents m) (m_notified m)).

Definition set_partition (setNum numSets : Z)
  : RooAbsGoodnessOfFit -> RooAbsGoodnessOfFit :=
  updMembers (fun m =>
    mkMembers (m_name m) (m_title m) (m_paramSet m) (m_pdf m) (m_data m) (m_projDeps m)
      (m_simCount m) (m_nGof m) (m_nCPU m) (m_gofOpMode m) setNum numSets
      (m_init m) (m_nEvents m) (m_notified m)).

Definition set_init (v : bool) : RooAbsGoodnessOfFit -> RooAbsGoodnessOfFit :=
  updMembers (fun m =>
    mkMembers (m_name m) (m_title m) (m_paramSet m) (m_pdf m) (m_data m) (m_projDeps m)
      (m_simCount m) (m_nGof m) (m_nCPU m) (m_gofOpMode m) (m_setNum m) (m_numSets m)
      v (m_nEvents m) (m_notified m)).

(** The instance observes that it was called with a structural change. *)
Definition notify (n : Notification) : RooAbsGoodnessOfFit -> RooAbsGoodnessOfFit :=
  updMembers (fun m =>
    mkMembers (m_name m) (m_title m) (m_paramSet m) (m_pdf m) (m_data m) (m_projDeps m)
      (m_simCount m) (m_nGof m) (m_nCPU m) (m_gofOpMode m) (m_setNum m) (m_numSets m)
      (m_init m) (m_nEvents m) (m_notified m ++ [n])).

Definition mpfe_setArg (g : RooAbsGoodnessOfFit) (fe : RooRealMPFE) : RooRealMPFE :=
  mkMPFE (mpfeName fe) (mpfeTitle fe) g (mpfeInline fe) (mpfeInit fe)
    (mpfeNotified fe).

(** [GOFOpMode operMode() const { return _gofOpMode ; }] of the header. *)
Definition operMode (this : RooAbsGoodnessOfFit) : GOFOpMode := _gofOpMode this.

Definition GetName (this : RooAbsGoodnessOfFit) : string := _name this.
Definition GetTitle (this : RooAbsGoodnessOfFit) : string := _title this.

(** [void setSimCount(Int_t simCount) { _simCount = simCount ; }] of the
    header. *)
Definition setSimCount (simCount : Z) (this : RooAbsGoodnessOfFit)
  : M RooAbsGoodnessOfFit :=
  mret (set_simCount simCount this).

(** *** Construction *)

(** The constructor from a model, a dataset, the projected dependents and
    the requested number of processes. *)
Definition RooAbsGoodnessOfFit_new (name title : string) (pdf : RooAbsPdf)
  (data : RooAbsData) (projDeps : RooArgSet) (nCPU : Z) : RooAbsGoodnessOfFit :=
  let gofOpMode :=
    if 1 <? nCPU then MPMaster
    else
      let simMode := isSimultaneous pdf in
      if simMode then SimMaster else Slave in
  GOF {| m_name := name; m_title := title;
         m_paramSet := getParameters pdf data;
         m_pdf := pdf; m_data := data; m_projDeps := projDeps;
         m_simCount := 1; m_nGof := 0; m_nCPU := nCPU;
         m_gofOpMode := gofOpMode;
         m_setNum := 0; m_numSets := 1; m_init := false;
         m_nEvents := numEntries data; m_notified := [] |}
      [] [].

(** Modelled from the spec: the virtual factory [create] of the concrete
    subclass (pure virtual here). It builds an engine of the same kind bound
    to the given model, data and projected dependents, with the worker count
    1, so that its mode resolves to Slave or SimMaster. *)
Definition create (name title : string) (pdf : RooAbsPdf) (data : RooAbsData)
  (projDeps : RooArgSet) : M RooAbsGoodnessOfFit :=
  _ ← emit (Create name);
  mret (RooAbsGoodnessOfFit_new name title pdf data projDeps 1).

(** *** Calls on other objects

    The methods of the engines that an instance owns or builds. *)
Record Methods : Type := mkMethods {
  call_getVal : RooAbsGoodnessOfFit -> M (RooAbsGoodnessOfFit * Double_t);
  call_setMPSet : Z -> Z -> RooAbsGoodnessOfFit -> M RooAbsGoodnessOfFit;
  call_constOptimize : ConstOpCode -> RooAbsGoodnessOfFit -> M RooAbsGoodnessOfFit;
  call_recursiveRedirectServers :
    RooArgSet -> bool -> bool -> RooAbsGoodnessOfFit -> M RooAbsGoodnessOfFit;
  call_Clone : RooAbsGoodnessOfFit -> M RooAbsGoodnessOfFit
}.

(** *** The worker front-end (modelled from the spec) *)

Definition RooRealMPFE_new (name title : string) (arg : RooAbsGoodnessOfFit)
  (calcInline : bool) : M RooRealMPFE :=
  _ ← emit (NewMPFE name calcInline);
  mret (mkMPFE name title arg calcInline false []).

(** [RooRealMPFE::initialize]: the worker is started. *)
Definition mpfe_initialize (fe : RooRealMPFE) : M RooRealMPFE :=
  mret (mkMPFE (mpfeName fe) (mpfeTitle fe) (mpfeArg fe) (mpfeInline fe) true
          (mpfeNotified fe)).

(** [RooRealMPFE::calculate]: the begin-calculation signal; it does not wait,
    and nothing of it is observable before the result is read. *)
Definition mpfe_calculate (fe : RooRealMPFE) : M RooRealMPFE := mret fe.

(** Reading the result of a front-end: the value of its engine. *)
Definition mpfe_getVal (callee : Methods) (fe : RooRealMPFE)
  : M (RooRealMPFE * Double_t) :=
  '(g, v) ← call_getVal callee (mpfeArg fe);
  mret (mpfe_setArg g fe, v).

(** [RooRealMPFE::constOptimize]: forwarded to the engine. *)
Definition mpfe_constOptimize (callee : Methods) (opcode : ConstOpCode)
  (fe : RooRealMPFE) : M RooRealMPFE :=
  g ← call_constOptimize callee opcode (mpfeArg fe);
  mret (mkMPFE (mpfeName fe) (mpfeTitle fe) g (mpfeInline fe) (mpfeInit fe)
          (mpfeNotified fe ++ [ConstOptimize opcode])).

Definition mpfe_Clone (callee : Methods) (fe : RooRealMPFE) : M RooRealMPFE :=
  g ← call_Clone callee (mpfeArg fe);
  mret (mpfe_setArg g fe).

(** *** Combination

    Modelled from the spec: [combinedValue], which the concrete subclass
    supplies. It reads the value of each of the first [n] elements in index
    order and sums them up. Reading the value of an engine is its
    [evaluate()]; an engine that evaluates for the first time initialises
    itself, so the elements come back with the array. *)
Definition combinedValue {T : Type} (getVal : T -> M (T * Double_t))
  (array : list (option T)) (n : Z) : M (list (option T) * Double_t) :=
  For n (fun i '(array, sum) =>
    o ← readSlot i array;
    '(o', v) ← getVal o;
    mret (<[i := Some o']> array, Dadd sum v)) (array, Dzero).

(** *** initSimMode *)

Definition countsAsUsed (pdfProxyList : list (string * RooAbsPdf))
  (dsetList : list RooAbsData) (type : string) : bool :=
  match getPdf pdfProxyList type, FindObject dsetList type with
  | Some _, Some _ => true
  | _, _ => false
  end.

(** The first pass over the states: [_nGof = 0], then [_nGof++] for every
    state that has both a component and a subset. *)
Definition countUsedStates (pdfProxyList : list (string * RooAbsPdf))
  (dsetList : list RooAbsData) (types : list string) (this : RooAbsGoodnessOfFit)
  : RooAbsGoodnessOfFit :=
  foldl (fun this type =>
           if countsAsUsed pdfProxyList dsetList type
           then set_nGof (Int.add (_nGof this) 1) this else this)
        (set_nGof 0 this) types.

Definition initSimMode (callee : Methods) (simpdf : RooAbsPdf) (data : RooAbsData)
  (projDeps : RooArgSet) (this : RooAbsGoodnessOfFit) : M RooAbsGoodnessOfFit :=
  match simpdf with
  | RooPdf _ => undefined BadCast
  | RooSimultaneous _ simCat pdfProxyList =>
    dsetList ← match split data simCat with
               | None =>
                   _ ← cout ("RooAbsGoodnessOfFit::initSimMode(" +:+ GetName this
                             +:+ ") unable to split dataset, abort");
                   softAbort
               | Some dsetList => mret dsetList
               end;
    (* Count number of used states *)
    let n := 0 in
    let this := countUsedStates pdfProxyList dsetList (catTypes simCat) this in
    (* Allocate arrays *)
    let this := set_gofArray (newArray (_nGof this)) this in
    (* Create array of regular fit contexts *)
    '(n, this) ← whileNext (catTypes simCat) (fun type '(n, this) =>
        match getPdf pdfProxyList type, FindObject dsetList type with
        | Some pdf, Some dset =>
            _ ← cout ("RooAbsGoodnessOfFit::initSimMode: creating slave GOF calculator #"
                      +:+ pretty n +:+ " for state " +:+ type
                      +:+ " (" +:+ pretty (numEntries dset) +:+ " dataset entries)");
            gof ← create type type pdf dset projDeps;
            ga ← storeSlot (Z.to_nat n) gof (_gofArray this);
            ga ← atSlot false (setSimCount (_nGof this)) (Z.to_nat n) ga;
            (* Servers may have been redirected between instantiation and
               (deferred) initialization *)
            ga ← atSlot false
                   (call_recursiveRedirectServers callee (_paramSet this) false false)
                   (Z.to_nat n) ga;
            mret (Int.add n 1, set_gofArray ga this)
        | Some pdf, None =>
            _ ← cout ("RooAbsGoodnessOfFit::initSimMode: state " +:+ type
                      +:+ " has no data entries, no slave GOF calculator created");
            mret (n, this)
        | None, _ => mret (n, this)
        end) (n, this);
    (* dsetList->Delete() ; delete dsetList : a child keeps, here, the subset
       it was built on; a Slave does not read it again in this class *)
    mret this
  end.

(** *** initMPMode *)

Definition initMPMode (callee : Methods) (pdf : RooAbsPdf) (data : RooAbsData)
  (projDeps : RooArgSet) (this : RooAbsGoodnessOfFit) : M RooAbsGoodnessOfFit :=
  let this := set_mpfeArray (newArray (_nCPU this)) this in
  (* Create proto-goodness-of-fit *)
  gof ← create (GetName this) (GetTitle this) pdf data projDeps;
  '(gof, this) ← For (_nCPU this) (fun i '(gof, this) =>
      gof ← call_setMPSet callee (Z.of_nat i) (_nCPU this) gof;
      let gof := set_name (Form (GetName this) "_GOF" (Z.of_nat i)) gof in
      let gof := set_title (Form (GetTitle this) "_GOF" (Z.of_nat i)) gof in
      let doInline := Z.of_nat i =? _nCPU this - 1 in
      _ ← (if doInline then mret tt
           else cout ("RooAbsGoodnessOfFit::initMPMode: starting remote GOF server process #"
                      +:+ pretty (Z.of_nat i)));
      mpfe ← RooRealMPFE_new (Form (GetName this) "_MPFE" (Z.of_nat i))
               (Form (GetTitle this) "_MPFE" (Z.of_nat i)) gof doInline;
      ma ← storeSlot i mpfe (_mpfeArray this);
      ma ← atSlot false mpfe_initialize i ma;
      mret (gof, set_mpfeArray ma this)) (gof, this);
  mret this.

(** *** initialize *)

Definition initialize (callee : Methods) (this : RooAbsGoodnessOfFit)
  : M (RooAbsGoodnessOfFit * bool) :=
  if _init this then mret (this, false)
  else
    this ← match _gofOpMode this with
           | MPMaster => initMPMode callee (_pdf this) (_data this) (_projDeps this) this
           | SimMaster => initSimMode callee (_pdf this) (_data this) (_projDeps this) this
           | Slave => mret this
           end;
    let this := set_init true this in
    mret (this, false).

(** *** evaluate *)

Definition evaluate (callee : Methods) (this : RooAbsGoodnessOfFit)
  : M (RooAbsGoodnessOfFit * Double_t) :=
  (* One-time Initialization *)
  this ← (if negb (_init this)
          then '(this, _) ← initialize callee this; mret this
          else mret this);
  match _gofOpMode this with
  | SimMaster =>
      (* Evaluate array of owned GOF objects *)
      '(ga, ret) ← combinedValue (call_getVal callee) (_gofArray this) (_nGof this);
      mret (set_gofArray ga this, ret)
  | MPMaster =>
      (* Start calculations in parallel *)
      ma ← For (_nCPU this) (atSlot false mpfe_calculate) (_mpfeArray this);
      '(ma, ret) ← combinedValue (mpfe_getVal callee) ma (_nCPU this);
      mret (set_mpfeArray ma this, ret)
  | Slave =>
      (* Evaluate as straight PDF *)
      if _numSets this =? 0 then undefined DivideByZero
      else
        let nFirst := nFirst (_nEvents this) (_setNum this) (_numSets this) in
        let nLast := nLast (_nEvents this) (_setNum this) (_numSets this) in
        let ret := evaluatePartition (_pdf this) (_data this) (_projDeps this)
                     (_simCount this) nFirst nLast in
        mret (this, ret)
  end.

(** *** redirectServersHook *)

Definition redirectServersHook (callee : Methods) (newServerList : RooArgSet)
  (mustReplaceAll nameChange isRecursive : bool) (this : RooAbsGoodnessOfFit)
  : M (RooAbsGoodnessOfFit * bool) :=
  let this :=
    notify (ServerRedirect newServerList mustReplaceAll nameChange isRecursive) this in
  match _gofOpMode this with
  | SimMaster =>
      (* Forward to slaves *)
      ga ← For (_nGof this)
             (atSlot true
                (call_recursiveRedirectServers callee newServerList mustReplaceAll
                   nameChange))
             (_gofArray this);
      mret (set_gofArray ga this, false)
  | MPMaster =>
      (* WVE implement this *)
      mret (this, false)
  | Slave => mret (this, false)
  end.

(** Modelled from the spec: [RooAbsArg::recursiveRedirectServers], as far as
    this class is concerned: the receiver is told of the redirection through
    its own [redirectServersHook], with [isRecursive] set. *)
Definition recursiveRedirectServers (callee : Methods) (newServerList : RooArgSet)
  (mustReplaceAll nameChange : bool) (this : RooAbsGoodnessOfFit)
  : M RooAbsGoodnessOfFit :=
  '(this, _) ← redirectServersHook callee newServerList mustReplaceAll nameChange
                 true this;
  mret this.

(** *** constOptimize *)

Definition constOptimize (callee : Methods) (opcode : ConstOpCode)
  (this : RooAbsGoodnessOfFit) : M RooAbsGoodnessOfFit :=
  let this := notify (ConstOptimize opcode) this in
  '(this, _) ← initialize callee this;
  match _gofOpMode this with
  | SimMaster =>
      (* Forward to slaves *)
      ga ← For (_nGof this) (atSlot true (call_constOptimize callee opcode))
             (_gofArray this);
      mret (set_gofArray ga this)
  | MPMaster =>
      ma ← For (_nCPU this) (atSlot false (mpfe_constOptimize callee opcode))
             (_mpfeArray this);
      mret (set_mpfeArray ma this)
  | Slave => mret this
  end.

(** *** setMPSet *)

Definition setMPSet (callee : Methods) (setNum numSets : Z)
  (this : RooAbsGoodnessOfFit) : M RooAbsGoodnessOfFit :=
  let this := set_partition setNum numSets this in
  match _gofOpMode this with
  | SimMaster =>
      (* Forward to slaves *)
      '(this, _) ← initialize callee this;
      ga ← For (_nGof this) (atSlot true (call_setMPSet callee setNum numSets))
             (_gofArray this);
      mret (set_gofArray ga this)
  | _ => mret this
  end.

(** *** The copy constructor

    In a mode other than SimMaster the C++ leaves [_nGof] and [_gofArray]
    without a value, and in a mode other than MPMaster [_mpfeArray]; no
    method reads them in those modes, and the embedding gives them 0 and the
    null array. *)
Definition RooAbsGoodnessOfFit_copy (callee : Methods) (other : RooAbsGoodnessOfFit)
  (name : option string) : M RooAbsGoodnessOfFit :=
  let this :=
    GOF {| m_name := default (_name other) name; m_title := _title other;
           m_paramSet := _paramSet other;
           m_pdf := _pdf other; m_data := _data other;
           m_projDeps := _projDeps other;
           m_simCount := _simCount other; m_nGof := 0; m_nCPU := _nCPU other;
           m_gofOpMode := _gofOpMode other;
           m_setNum := _setNum other; m_numSets := _numSets other;
           m_init := _init other; m_nEvents := _nEvents other;
           m_notified := _notified other |}
        [] [] in
  this ← (if decide (operMode this = SimMaster) then
            let this := set_nGof (_nGof other) this in
            let this := set_gofArray (newArray (_nGof this)) this in
            ga ← For (_nGof this) (fun i ga =>
                    o ← readSlot i (_gofArray other);
                    c ← call_Clone callee o;
                    storeSlot i c ga) (_gofArray this);
            mret (set_gofArray ga this)
          else mret this);
  this ← (if decide (operMode this = MPMaster) then
            let this := set_nCPU (_nCPU other) this in
            let this := set_mpfeArray (newArray (_nCPU this)) this in
            ma ← For (_nCPU this) (fun i ma =>
                    o ← readSlot i (_mpfeArray other);
                    c ← mpfe_Clone callee o;
                    storeSlot i c ma) (_mpfeArray this);
            mret (set_mpfeArray ma this)
          else mret this);
  mret this.

(** [Clone()]: a copy under the same name. *)
Definition Clone (callee : Methods) (this : RooAbsGoodnessOfFit)
  : M RooAbsGoodnessOfFit :=
  RooAbsGoodnessOfFit_copy callee this None.

(** *** The destructor

    What the destructor of this class frees, in order, added to a log of the
    objects freed so far. [delete p] runs the destructor of the object that
    [p] designates and then frees the object; on the null pointer it does
    nothing. What the destructor of a front-end does beyond that is not part
    of this class. *)
Inductive Freed : Type :=
| FreedFrontEnd (name : string)
| FreedEngine (name : string)
| FreedMpfeArray (owner : string)
| FreedGofArray (owner : string)
| FreedProjDeps (owner : string).

(** [delete a[i]], each object in [a] being given by its [delete]. *)
Definition deleteSlot (i : nat) (a : list (option (list Freed -> M (list Freed))))
  (log : list Freed) : M (list Freed) :=
  match a !! i with
  | None => undefined OutOfBounds
  | Some None => mret log
  | Some (Some deleteIt) => deleteIt log
  end.

Fixpoint RooAbsGoodnessOfFit_delete (this : RooAbsGoodnessOfFit)
  (log : list Freed) {struct this} : M (list Freed) :=
  match this with
  | GOF m ga ma =>
      log ← (if decide (m_gofOpMode m = MPMaster /\ m_init m = true) then
               log ← For (m_nCPU m) (fun i log =>
                        deleteSlot i
                          (fmap (M := option)
                             (fun (fe : RooRealMPFE_ RooAbsGoodnessOfFit) log =>
                                mret (log ++ [FreedFrontEnd (mpfeName fe)]))
                             <$> ma) log) log;
               mret (log ++ [FreedMpfeArray (m_name m)])
             else mret log);
      log ← (if decide (m_gofOpMode m = SimMaster /\ m_init m = true) then
               log ← For (m_nGof m) (fun i log =>
                        deleteSlot i
                          (fmap (M := option)
                             (fun (c : RooAbsGoodnessOfFit) log =>
                                log ← RooAbsGoodnessOfFit_delete c log;
                                mret (log ++ [FreedEngine (m_name (members c))]))
                             <$> ga) log) log;
               mret (log ++ [FreedGofArray (m_name m)])
             else mret log);
      mret (log ++ [FreedProjDeps (m_name m)])
  end.

(** *** Closing the recursion

    [dispatch depth] serves calls on objects nested at most [depth] deep. *)
Definition noMethods : Methods :=
  {| call_getVal := fun _ => outOfFuel;
     call_setMPSet := fun _ _ _ => outOfFuel;
     call_constOptimize := fun _ _ => outOfFuel;
     call_recursiveRedirectServers := fun _ _ _ _ => outOfFuel;
     call_Clone := fun _ => outOfFuel |}.

Fixpoint dispatch (depth : nat) : Methods :=
  match depth with
  | O => noMethods
  | S depth' =>
      let callee := dispatch depth' in
      {| call_getVal := evaluate callee;
         call_setMPSet := setMPSet callee;
         call_constOptimize := constOptimize callee;
         call_recursiveRedirectServers := recursiveRedirectServers callee;
         call_Clone := Clone callee |}
  end.

(** How deep the objects reachable from an instance nest: through the
    engines it owns, and through those it will build from its model (one
    level per nested simultaneous model, one more for the prototype of an
    MPMaster). *)
Definition modeDepth (pdf : RooAbsPdf) (mode : GOFOpMode) : nat :=
  (2 * pdfDepth pdf + (if decide (mode = MPMaster) then 1 else 0))%nat.

Fixpoint rank (this : RooAbsGoodnessOfFit) : nat :=
  match this with
  | GOF m ga ma =>
      Nat.max (modeDepth (m_pdf m) (m_gofOpMode m))
        (Nat.max
           (foldr Nat.max O
              (List.map (fun o => match o with
                                  | Some c => S (rank c)
                                  | None => O
                                  end) ga))
           (foldr Nat.max O
              (List.map (fun o => match o with
                                  | Some fe => S (rank (mpfeArg fe))
                                  | None => O
                                  end) ma)))
  end.

(** The methods as a caller of the top-level instance sees them. *)
Definition Evaluate (this : RooAbsGoodnessOfFit)
  : M (RooAbsGoodnessOfFit * Double_t) :=
  evaluate (dispatch (rank this)) this.

Definition Initialize (this : RooAbsGoodnessOfFit)
  : M (RooAbsGoodnessOfFit * bool) :=
  initialize (dispatch (rank this)) this.

Definition RedirectServersHook (newServerList : RooArgSet)
  (mustReplaceAll nameChange isRecursive : bool) (this : RooAbsGoodnessOfFit)
  : M (RooAbsGoodnessOfFit * bool) :=
  redirectServersHook (dispatch (rank this)) newServerList mustReplaceAll
    nameChange isRecursive this.

Definition ConstOptimizeCall (opcode : ConstOpCode) (this : RooAbsGoodnessOfFit)
  : M RooAbsGoodnessOfFit :=
  constOptimize (dispatch (rank this)) opcode this.

Definition SetMPSet (setNum numSets : Z) (this : RooAbsGoodnessOfFit)
  : M RooAbsGoodnessOfFit :=
  setMPSet (dispatch (rank this)) setNum numSets this.

Definition Copy (other : RooAbsGoodnessOfFit) (name : option string)
  : M RooAbsGoodnessOfFit :=
  RooAbsGoodnessOfFit_copy (dispatch (rank other)) other name.

End Engine.

Arguments mkMPFE {subclass G}.
Arguments mpfeName {subclass G}.
Arguments mpfeTitle {subclass G}.
Arguments mpfeArg {subclass G}.
Arguments mpfeInline {subclass G}.
Arguments mpfeInit {subclass G}.
Arguments mpfeNotified {subclass G}.

(** * Vocabulary of the statements *)

(** ** Postconditions

    [wp oof m Q]: if [m] returns, its result satisfies [Q]; and should the
    nesting bound of the method table be exhausted, [oof] holds. With
    [oof := False] this is: the call is served within the bound. *)
Definition wp {A : Type} (oof : Prop) (m : M A) (Q : A -> Prop) : Prop :=
  match m.2 with
  | Returned a => Q a
  | OutOfFuel => oof
  | SoftAbort | Undefined _ => True
  end.

(** A property of the objects in the slots of an array. *)
Definition slots {T : Type} (P : T -> Prop) (a : list (option T)) : Prop :=
  Forall (fun o => match o with Some x => P x | None => True end) a.

(** [mle m1 m2]: the call [m1], made through a method table that may be too
    shallow, either exhausted the table or went exactly as [m2]. *)
Definition mle {A : Type} (m1 m2 : M A) : Prop := m1.2 = OutOfFuel \/ m1 = m2.

(** Whether a division by zero counts: the slices of a Slave are quotients
    by [_numSets], which [setMPSet] assigns unchecked. With [strict] the
    properties below exclude it, for callers that never pass zero; without,
    they leave it aside. *)
Class Strictness : Type := strict : Prop.

(** [safe m Q]: the call returns with a result satisfying [Q], or it is
    interrupted by the error handler; it does not call through a slot that
    designates no object, access a slot that an array does not have, or use
    the model through a wrong cast, nor does it exhaust the method table;
    and, when division by zero counts, it does not divide by zero. *)
Definition safe {guard : Strictness} {A : Type} (m : M A) (Q : A -> Prop) : Prop :=
  match m.2 with
  | Returned a => Q a
  | SoftAbort => True
  | Undefined DivideByZero => ~ strict
  | Undefined _ | OutOfFuel => False
  end.

(** Every slot of an array designates an object, and the object satisfies
    [P]. *)
Definition filled {T : Type} (P : T -> Prop) (a : list (option T)) : Prop :=
  Forall (fun o => match o with Some x => P x | None => False end) a.

(** Every index category of a model, at any depth, has a number of states
    that an [Int_t] can count. *)
Fixpoint statesFit (pdf : RooAbsPdf) : Prop :=
  match pdf with
  | RooPdf _ => True
  | RooSimultaneous _ simCat l =>
      Z.of_nat (length (catTypes simCat)) <= Int.max /\
      foldr and True (List.map (fun p => statesFit (snd p)) l)
  end.

(** [quiet m Q]: the call prints nothing and builds nothing, and if it
    returns, its result satisfies [Q]. *)
Definition quiet {A : Type} (m : M A) (Q : A -> Prop) : Prop :=
  m.1 = [] /\ match m.2 with Returned a => Q a | _ => True end.

Section Statements.

Context {subclass : Subclass}.

(** ** Nesting depth *)

(** An engine, or the engine behind a front-end, nests less than [k]
    deep. *)
Definition below (k : nat) (o : RooAbsGoodnessOfFit) : Prop := (rank o < k)%nat.

Definition argBelow (k : nat) (fe : RooRealMPFE) : Prop :=
  (rank (mpfeArg fe) < k)%nat.

(** A method table is good up to [n] when each of its methods, called on an
    engine nested less than [k <= n] deep, is served and hands back an engine
    that is still nested less than [k] deep. *)
Record Good (n : nat) (callee : Methods) : Prop := mkGood {
  good_getVal : forall k o, (k <= n)%nat -> below k o ->
    wp False (call_getVal callee o) (fun r => below k r.1);
  good_setMPSet : forall k a b o, (k <= n)%nat -> below k o ->
    wp False (call_setMPSet callee a b o) (below k);
  good_constOptimize : forall k opcode o, (k <= n)%nat -> below k o ->
    wp False (call_constOptimize callee opcode o) (below k);
  good_recursiveRedirectServers : forall k l b1 b2 o, (k <= n)%nat -> below k o ->
    wp False (call_recursiveRedirectServers callee l b1 b2 o) (below k);
  good_Clone : forall k o, (k <= n)%nat -> below k o ->
    wp False (call_Clone callee o) (below k)
}.

(** Pointwise, a method table either runs out or answers as another. *)
Record Mle (c1 c2 : Methods) : Prop := mkMle {
  mle_getVal : forall o, mle (call_getVal c1 o) (call_getVal c2 o);
  mle_setMPSet : forall a b o, mle (call_setMPSet c1 a b o) (call_setMPSet c2 a b o);
  mle_constOptimize : forall opcode o,
    mle (call_constOptimize c1 opcode o) (call_constOptimize c2 opcode o);
  mle_recursiveRedirectServers : forall l b1 b2 o,
    mle (call_recursiveRedirectServers c1 l b1 b2 o)
        (call_recursiveRedirectServers c2 l b1 b2 o);
  mle_Clone : forall o, mle (call_Clone c1 o) (call_Clone c2 o)
}.

(** ** Evaluation *)

(** An evaluation settles its object: evaluated once more, the object it
    handed back yields the same value, stays as it is, and nothing is
    printed or built. *)
Definition settles {T : Type} (getVal : T -> M (T * Double_t)) : Prop :=
  forall o tr o' v,
    getVal o = (tr, Returned (o', v)) -> getVal o' = ([], Returned (o', v)).

(** The body of the loop of [combinedValue]. *)
Definition cvBody {T : Type} (getVal : T -> M (T * Double_t)) (i : nat)
  (s : list (option T) * Double_t) : M (list (option T) * Double_t) :=
  let '(array, sum) := s in
  o ← readSlot i array;
  '(o', v) ← getVal o;
  mret (<[i := Some o']> array, Dadd sum v).

(** ** initSimMode *)

(** The lines it prints. *)
Definition splitAbortMessage (this : RooAbsGoodnessOfFit) : string :=
  "RooAbsGoodnessOfFit::initSimMode(" +:+ GetName this
  +:+ ") unable to split dataset, abort".

Definition creatingMessage (n : Z) (type : string) (dset : RooAbsData) : string :=
  "RooAbsGoodnessOfFit::initSimMode: creating slave GOF calculator #"
  +:+ pretty n +:+ " for state " +:+ type
  +:+ " (" +:+ pretty (numEntries dset) +:+ " dataset entries)".

Definition noDataMessage (type : string) : string :=
  "RooAbsGoodnessOfFit::initSimMode: state " +:+ type
  +:+ " has no data entries, no slave GOF calculator created".

(** The child that [initSimMode] leaves in the array for a state: built by
    the factory, told the number of its siblings, and told of the current
    parameters of its parent. *)
Definition slaveOf (paramSet projDeps : RooArgSet) (nGof : Z) (type : string)
  (pdf : RooAbsPdf) (dset : RooAbsData) : RooAbsGoodnessOfFit :=
  notify (ServerRedirect paramSet false false true)
    (set_simCount nGof (RooAbsGoodnessOfFit_new type type pdf dset projDeps 1)).

(** The child for a state, if the state has a component and a subset. *)
Definition slaveFor (paramSet projDeps : RooArgSet) (nGof : Z)
  (l : list (string * RooAbsPdf)) (dsl : list RooAbsData) (type : string)
  : option RooAbsGoodnessOfFit :=
  match getPdf l type, FindObject dsl type with
  | Some pdf, Some dset => Some (slaveOf paramSet projDeps nGof type pdf dset)
  | _, _ => None
  end.

(** What the second pass over the states prints and builds, the next free
    slot being [n]. *)
Fixpoint simTrace (l : list (string * RooAbsPdf)) (dsl : list RooAbsData)
  (types : list string) (n : Z) : list Event :=
  match types with
  | [] => []
  | type :: rest =>
      match getPdf l type, FindObject dsl type with
      | Some pdf, Some dset =>
          Cout (creatingMessage n type dset) :: Create type
            :: simTrace l dsl rest (n + 1)
      | Some pdf, None => Cout (noDataMessage type) :: simTrace l dsl rest n
      | None, _ => simTrace l dsl rest n
      end
  end.

(** The body of the second loop of [initSimMode]. *)
Definition simBody (callee : Methods) (l : list (string * RooAbsPdf))
  (dsetList : list RooAbsData) (projDeps : RooArgSet) (type : string)
  (s : Z * RooAbsGoodnessOfFit) : M (Z * RooAbsGoodnessOfFit) :=
  let '(n, this) := s in
  match getPdf l type, FindObject dsetList type with
  | Some pdf, Some dset =>
      _ ← cout (creatingMessage n type dset);
      gof ← create type type pdf dset projDeps;
      ga ← storeSlot (Z.to_nat n) gof (_gofArray this);
      ga ← atSlot false (setSimCount (_nGof this)) (Z.to_nat n) ga;
      ga ← atSlot false
             (call_recursiveRedirectServers callee (_paramSet this) false false)
             (Z.to_nat n) ga;
      mret (Int.add n 1, set_gofArray ga this)
  | Some pdf, None =>
      _ ← cout (noDataMessage type);
      mret (n, this)
  | None, _ => mret (n, this)
  end.

(** A fresh engine has no children yet: a redirection only reaches it. *)
Definition redirectsFresh (callee : Methods) : Prop :=
  forall ps b1 b2 c, _nGof c = 0 -> _gofArray c = [] ->
    call_recursiveRedirectServers callee ps b1 b2 c
    = ([], Returned (notify (ServerRedirect ps b1 b2 true) c)).

(** A state is populated when the model has a component for it and the
    split has a subset of that name that holds entries. *)
Definition populated (l : list (string * RooAbsPdf)) (dsl : list RooAbsData)
  (type : string) : bool :=
  match getPdf l type with
  | Some _ =>
      existsb (fun d => String.eqb (GetNameD d) type && (0 <? numEntries d)) dsl
  | None => false
  end.

(** ** Sequences of operations *)

(** The operations a caller can invoke on a live instance. *)
Inductive Call : Type :=
| CallEvaluate
| CallInitialize
| CallRedirectServersHook (newServerList : RooArgSet)
    (mustReplaceAll nameChange isRecursive : bool)
| CallConstOptimize (opcode : ConstOpCode)
| CallSetMPSet (setNum numSets : Z)
| CallSetSimCount (simCount : Z).

Definition perform (c : Call) (this : RooAbsGoodnessOfFit) : M RooAbsGoodnessOfFit :=
  match c with
  | CallEvaluate => '(this, _) ← Evaluate this; mret this
  | CallInitialize => '(this, _) ← Initialize this; mret this
  | CallRedirectServersHook l b1 b2 b3 =>
      '(this, _) ← RedirectServersHook l b1 b2 b3 this; mret this
  | CallConstOptimize opcode => ConstOptimizeCall opcode this
  | CallSetMPSet setNum numSets => SetMPSet setNum numSets this
  | CallSetSimCount simCount => setSimCount simCount this
  end.

Fixpoint performAll (cs : list Call) (this : RooAbsGoodnessOfFit)
  : M RooAbsGoodnessOfFit :=
  match cs with
  | [] => mret this
  | c :: cs' => this ← perform c this; performAll cs' this
  end.

(** ** Calls within the bounds of [Int_t] *)

(** A dataset size that [numSets] partitions can slice within [Int_t]: the
    products [n*setNum] and [n*(setNum+1)] of [evaluate] stay below
    [n*numSets]. *)
Definition sliceable (numSets n : Z) : Prop :=
  0 <= n /\ n * numSets <= Int.max.

(** A model whose components, if it is simultaneous, are not simultaneous
    themselves: the children of its engine are Slaves, which never read the
    subset they were built on again. *)
Definition flat (pdf : RooAbsPdf) : Prop :=
  match pdf with
  | RooPdf _ => True
  | RooSimultaneous _ _ l => Forall (fun p => isSimultaneous p.2 = false) l
  end.

(** The sizes of a dataset and of the subsets that its splits list: the
    values [_nEvents] can take in an engine built on the dataset and in the
    children of that engine. *)
Definition sizes (data : RooAbsData) : list Z :=
  match data with
  | RooData _ n s => n :: flat_map (fun p => numEntries <$> p.2) s
  end.


(** ** initMPMode *)

(** The line it prints for a worker that is not inline. *)
Definition startingMessage (i : Z) : string :=
  "RooAbsGoodnessOfFit::initMPMode: starting remote GOF server process #" +:+ pretty i.

(** The body of the loop of [initMPMode]. *)
Definition mpBody (callee : Methods) (i : nat)
  (s : RooAbsGoodnessOfFit * RooAbsGoodnessOfFit)
  : M (RooAbsGoodnessOfFit * RooAbsGoodnessOfFit) :=
  let '(gof, this) := s in
  gof ← call_setMPSet callee (Z.of_nat i) (_nCPU this) gof;
  let gof := set_name (Form (GetName this) "_GOF" (Z.of_nat i)) gof in
  let gof := set_title (Form (GetTitle this) "_GOF" (Z.of_nat i)) gof in
  let doInline := Z.of_nat i =? _nCPU this - 1 in
  _ ← (if doInline then mret tt else cout (startingMessage (Z.of_nat i)));
  mpfe ← RooRealMPFE_new (Form (GetName this) "_MPFE" (Z.of_nat i))
           (Form (GetTitle this) "_MPFE" (Z.of_nat i)) gof doInline;
  ma ← storeSlot i mpfe (_mpfeArray this);
  ma ← atSlot false mpfe_initialize i ma;
  mret (gof, set_mpfeArray ma this).

(** The prototype [p] of an MPMaster, told that it evaluates partition [i]
    and renamed. *)
Definition tailoredFor (this : RooAbsGoodnessOfFit) (i : nat)
  (p : RooAbsGoodnessOfFit) : RooAbsGoodnessOfFit :=
  set_title (Form (GetTitle this) "_GOF" (Z.of_nat i))
    (set_name (Form (GetName this) "_GOF" (Z.of_nat i))
       (set_partition (Z.of_nat i) (_nCPU this) p)).

(** The started front-end of partition [i], around the engine [g]. *)
Definition frontEnd (this : RooAbsGoodnessOfFit) (i : nat)
  (g : RooAbsGoodnessOfFit) : RooRealMPFE :=
  mkMPFE (Form (GetName this) "_MPFE" (Z.of_nat i))
    (Form (GetTitle this) "_MPFE" (Z.of_nat i)) g
    (Z.of_nat i =? _nCPU this - 1) true [].

(** The engine of partition [i] of an MPMaster: the prototype built by the
    factory, tailored. *)
Definition workerEngine (this : RooAbsGoodnessOfFit) (i : nat) : RooAbsGoodnessOfFit :=
  tailoredFor this i
    (RooAbsGoodnessOfFit_new (GetName this) (GetTitle this) (_pdf this)
       (_data this) (_projDeps this) 1).

(** The front-end of partition [i] of an initialised MPMaster. *)
Definition workerOf (this : RooAbsGoodnessOfFit) (i : nat) : RooRealMPFE :=
  frontEnd this i (workerEngine this i).

(** A tailored prototype differs from the prototype in its partition, name
    and title only. *)
Definition relabelled (p g : RooAbsGoodnessOfFit) : Prop :=
  exists t n a b, g = set_title t (set_name n (set_partition a b p)).

(** What the set-up of partition [i] prints and builds. *)
Definition workerTrace (this : RooAbsGoodnessOfFit) (i : nat) : list Event :=
  (if Z.of_nat i =? _nCPU this - 1 then []
   else [Cout (startingMessage (Z.of_nat i))])
  ++ [NewMPFE (Form (GetName this) "_MPFE" (Z.of_nat i))
        (Z.of_nat i =? _nCPU this - 1)].

(** ** The states of a simultaneous model *)

(** A state that has a component in the model and no subset in the
    split. *)
Definition lacksData (pdfProxyList : list (string * RooAbsPdf))
  (dsetList : list RooAbsData) (type : string) : bool :=
  match getPdf pdfProxyList type, FindObject dsetList type with
  | Some _, None => true
  | _, _ => false
  end.

(** What the states contribute to the value of a SimMaster of [nGof]
    children whose partition is slice [setNum] of [numSets]: for every state
    that has a component and a subset, the value of that slice of the
    subset. *)
Definition stateValues (projDeps : RooArgSet) (nGof setNum numSets : Z)
  (pdfProxyList : list (string * RooAbsPdf)) (dsetList : list RooAbsData)
  (types : list string) : list Double_t :=
  omap (fun type =>
          match getPdf pdfProxyList type, FindObject dsetList type with
          | Some pdf, Some dset =>
              Some (evaluatePartition pdf dset projDeps nGof
                      (nFirst (numEntries dset) setNum numSets)
                      (nLast (numEntries dset) setNum numSets))
          | _, _ => None
          end) types.

(** The same contributions with the slice of each subset written as the
    quotients [n*setNum/numSets] and [n*(setNum+1)/numSets] of the
    integers. *)
Definition sliceValues (projDeps : RooArgSet) (nGof setNum numSets : Z)
  (pdfProxyList : list (string * RooAbsPdf)) (dsetList : list RooAbsData)
  (types : list string) : list Double_t :=
  omap (fun type =>
          match getPdf pdfProxyList type, FindObject dsetList type with
          | Some pdf, Some dset =>
              Some (evaluatePartition pdf dset projDeps nGof
                      (numEntries dset * setNum / numSets)
                      (numEntries dset * (setNum + 1) / numSets))
          | _, _ => None
          end) types.

(** ** Copies *)



(** What the states contribute when every child evaluates its whole subset,
    the entries [0, numEntries()). *)
Definition wholeValues (projDeps : RooArgSet) (nGof : Z)
  (pdfProxyList : list (string * RooAbsPdf)) (dsetList : list RooAbsData)
  (types : list string) : list Double_t :=
  omap (fun type =>
          match getPdf pdfProxyList type, FindObject dsetList type with
          | Some pdf, Some dset =>
              Some (evaluatePartition pdf dset projDeps nGof 0 (numEntries dset))
          | _, _ => None
          end) types.

(** ** Exact sums *)

(** The addition of values is exact: it has [Dzero] as its neutral element,
    and the order and the grouping of the terms do not matter. On [double]
    this holds up to rounding. *)
Definition exactSum : Prop :=
  (forall x, Dadd Dzero x = x) /\
  (forall x y, Dadd x y = Dadd y x) /\
  (forall x y z, Dadd x (Dadd y z) = Dadd (Dadd x y) z).

(** The partition evaluator is additive: the value of a slice is the sum of
    the values of the two slices it is cut into. *)
Definition additive : Prop :=
  forall pdf data projDeps simCount a b c, 0 <= a <= b -> b <= c ->
    Dadd (evaluatePartition pdf data projDeps simCount a b)
         (evaluatePartition pdf data projDeps simCount b c)
    = evaluatePartition pdf data projDeps simCount a c.

(** An initialised SimMaster whose children are the engines [cs], each told
    to evaluate slice [a] of [b], as the instance itself. *)
Definition partitioned (cs : list RooAbsGoodnessOfFit) (a b : Z)
  (g : RooAbsGoodnessOfFit) : Prop :=
  _gofOpMode g = SimMaster /\ _init g = true /\
  _nGof g = Z.of_nat (length cs) /\
  _gofArray g = Some <$> (set_partition a b <$> cs) /\
  _setNum g = a /\ _numSets g = b.

(** ** Set-up throughout *)

(** An instance is set up throughout when it is initialised and so are,
    at any depth, the children it holds and the engines behind its
    front-ends. *)
Fixpoint setUp (this : RooAbsGoodnessOfFit) : Prop :=
  match this with
  | GOF m ga ma =>
      m_init m = true /\
      foldr and True
        (List.map (fun o => match o with Some c => setUp c | None => True end) ga) /\
      foldr and True
        (List.map (fun o => match o with
                            | Some fe => setUp (mpfeArg fe)
                            | None => True
                            end) ma)
  end.

(** A method table is quiet when each of its methods, called on an engine
    that is set up throughout, is quiet and hands back such an engine. *)
Record Quiet (callee : Methods) : Prop := mkQuiet {
  quiet_getVal : forall o, setUp o -> quiet (call_getVal callee o) (fun r => setUp r.1);
  quiet_setMPSet : forall a b o, setUp o -> quiet (call_setMPSet callee a b o) setUp;
  quiet_constOptimize : forall opcode o, setUp o ->
    quiet (call_constOptimize callee opcode o) setUp;
  quiet_recursiveRedirectServers : forall l b1 b2 o, setUp o ->
    quiet (call_recursiveRedirectServers callee l b1 b2 o) setUp
}.

(** ** What a destruction frees *)

(** The engines that an instance holds, at any depth, by name: those that a
    child holds come before the child. *)
Fixpoint descendants (this : RooAbsGoodnessOfFit) : list string :=
  match this with
  | GOF _ ga _ =>
      concat (List.map (fun o => match o with
                                 | Some c => descendants c ++ [m_name (members c)]
                                 | None => []
                                 end) ga)
  end.

(** The front-ends that an instance holds, by name. *)
Definition frontEnds (this : RooAbsGoodnessOfFit) : list string :=
  omap (fmap mpfeName) (_mpfeArray this).

(** The engine, or the front-end, that an entry of the log stands for. *)
Definition engineFreed (x : Freed) : option string :=
  match x with FreedEngine name => Some name | _ => None end.

Definition frontEndFreed (x : Freed) : option string :=
  match x with FreedFrontEnd name => Some name | _ => None end.

(** ** The shape of an instance *)

Section Shape.

Context {guard : Strictness}.

(** The shape that the constructor establishes and every method keeps. *)
Fixpoint consistent (this : RooAbsGoodnessOfFit) : Prop :=
  match this with
  | GOF m ga ma =>
      statesFit (m_pdf m) /\
      (strict -> m_numSets m <> 0) /\
      (m_gofOpMode m = SimMaster -> isSimultaneous (m_pdf m) = true) /\
      length ga = Z.to_nat (m_nGof m) /\
      (m_gofOpMode m <> SimMaster -> m_nGof m = 0) /\
      (m_init m = false -> m_nGof m = 0) /\
      (if decide (m_gofOpMode m = MPMaster /\ m_init m = true)
       then length ma = Z.to_nat (m_nCPU m) else ma = []) /\
      foldr and True
        (List.map (fun o => match o with
                            | Some c => consistent c /\ _gofOpMode c <> MPMaster
                            | None => False
                            end) ga) /\
      foldr and True
        (List.map (fun o => match o with
                            | Some fe =>
                                consistent (mpfeArg fe) /\
                                _gofOpMode (mpfeArg fe) <> MPMaster
                            | None => False
                            end) ma)
  end.

(** An engine that another one owns: a child, or the engine behind a
    front-end. The factory never builds an MPMaster. *)
Definition owned (c : RooAbsGoodnessOfFit) : Prop :=
  consistent c /\ _gofOpMode c <> MPMaster.

(** An owned engine, or the engine behind a front-end, nested less than [k]
    deep. *)
Definition ownedBelow (k : nat) (c : RooAbsGoodnessOfFit) : Prop :=
  below k c /\ owned c.

Definition argOwnedBelow (k : nat) (fe : RooRealMPFE) : Prop :=
  ownedBelow k (mpfeArg fe).

(** A method table is safe up to [n] when each of its methods, called on an
    owned engine nested less than [k <= n] deep, is safe and hands back such
    an engine. *)
Record Safe (n : nat) (callee : Methods) : Prop := mkSafe {
  safe_getVal : forall k o, (k <= n)%nat -> ownedBelow k o ->
    safe (call_getVal callee o) (fun r => ownedBelow k r.1);
  safe_setMPSet : forall k a b o, (k <= n)%nat -> (strict -> b <> 0) -> ownedBelow k o ->
    safe (call_setMPSet callee a b o) (ownedBelow k);
  safe_constOptimize : forall k opcode o, (k <= n)%nat -> ownedBelow k o ->
    safe (call_constOptimize callee opcode o) (ownedBelow k);
  safe_recursiveRedirectServers : forall k l b1 b2 o, (k <= n)%nat -> ownedBelow k o ->
    safe (call_recursiveRedirectServers callee l b1 b2 o) (ownedBelow k)
}.

(** A call that, when division by zero counts, does not set the number of
    partitions to zero. *)
Definition callOK (c : Call) : Prop :=
  match c with
  | CallSetMPSet _ numSets => strict -> numSets <> 0
  | _ => True
  end.

End Shape.

End Statements.

(** * A concrete subclass and concrete instances *)

(** A goodness-of-fit whose value is the list of the slices it was asked to
    evaluate, each with the name of its dataset; adding two values
    concatenates them, so that the value of a composite tells which slices
    were evaluated and in which order. *)
Definition sliceProbe : Subclass := {|
  Double_t := list (string * Z * Z);
  ConstOpCode := bool;
  getParameters := fun _ _ => ["mean"; "sigma"];
  evaluatePartition := fun _ data _ _ first last => [(GetNameD data, first, last)];
  Dzero := [];
  Dadd := app
|}.

Definition dataA : RooAbsData := RooData "A" 10 [].
Definition dataB : RooAbsData := RooData "B" 7 [].

(** 17 entries, 10 of state A and 7 of state B, none of state C. *)
Definition dataAB : RooAbsData := RooData "all" 17 [("cat", [dataA; dataB])].

(** A dataset that cannot be split by the category [cat]. *)
Definition dataNoCat : RooAbsData := RooData "bad" 5 [].

Definition cat3 : RooAbsCategoryLValue := mkCategory "cat" ["A"; "B"; "C"].

Definition pdfList3 : list (string * RooAbsPdf) :=
  [("A", RooPdf "pa"); ("B", RooPdf "pb"); ("C", RooPdf "pc")].

(** A simultaneous model with a component for each of three states. *)
Definition sim3 : RooAbsPdf := RooSimultaneous "sim" cat3 pdfList3.

(** Engines of the three modes over these collaborators. *)
Definition simMaster : @RooAbsGoodnessOfFit sliceProbe :=
  RooAbsGoodnessOfFit_new "nll" "nll" sim3 dataAB [] 1.

Definition simMasterNoCat : @RooAbsGoodnessOfFit sliceProbe :=
  RooAbsGoodnessOfFit_new "nll" "nll" sim3 dataNoCat [] 1.

Definition mpMaster : @RooAbsGoodnessOfFit sliceProbe :=
  RooAbsGoodnessOfFit_new "nll" "nll" (RooPdf "gauss") dataA [] 2.

Definition slave : @RooAbsGoodnessOfFit sliceProbe :=
  RooAbsGoodnessOfFit_new "nll" "nll" (RooPdf "gauss") dataA [] 1.

(** A Slave over 1500000000 entries, told to evaluate the second of two
    slices. *)
Definition bigSlave : @RooAbsGoodnessOfFit sliceProbe :=
  set_partition 1 2
    (RooAbsGoodnessOfFit_new "nll" "nll" (RooPdf "gauss")
       (RooData "big" 1500000000 []) [] 1).

(** Data with entries of a third state C, and a simultaneous model that has
    components for A and B only. *)
Definition dataC : RooAbsData := RooData "C" 4 [].

Definition dataABC : RooAbsData :=
  RooData "all" 21 [("cat", [dataA; dataB; dataC])].

Definition pdfList2 : list (string * RooAbsPdf) :=
  [("A", RooPdf "pa"); ("B", RooPdf "pb")].

Definition sim2 : RooAbsPdf := RooSimultaneous "sim" cat3 pdfList2.

Definition simMasterNoC : @RooAbsGoodnessOfFit sliceProbe :=
  RooAbsGoodnessOfFit_new "nll" "nll" sim2 dataABC [] 1.

(** A split that lists a subset for state B although no entry is of that
    state. *)
Definition dataBempty : RooAbsData := RooData "B" 0 [].

Definition dataAB0 : RooAbsData := RooData "all" 10 [("cat", [dataA; dataBempty])].

Definition simMasterEmptyB : @RooAbsGoodnessOfFit sliceProbe :=
  RooAbsGoodnessOfFit_new "nll" "nll" sim2 dataAB0 [] 1.

(** A goodness-of-fit whose value is the number of entries of the slice it
    is asked to evaluate, the entries [i] with [first <= i < last]: its
    partition evaluator is additive and its values add up exactly. *)
Definition countProbe : Subclass := {|
  Double_t := Z;
  ConstOpCode := bool;
  getParameters := fun _ _ => ["mean"; "sigma"];
  evaluatePartition := fun _ _ _ _ first last => Z.max 0 (last - first);
  Dzero := 0;
  Dadd := Z.add
|}.

(** 1500000000 entries, evaluated directly and by two processes. *)
Definition dataBig : RooAbsData := RooData "big" 1500000000 [].

Definition bigDirect : @RooAbsGoodnessOfFit countProbe :=
  RooAbsGoodnessOfFit_new "nll" "nll" (RooPdf "gauss") dataBig [] 1.

Definition bigMPMaster : @RooAbsGoodnessOfFit countProbe :=
  RooAbsGoodnessOfFit_new "nll" "nll" (RooPdf "gauss") dataBig [] 2.

(** A sequence of operations on a live instance. *)
Definition someCalls : list (@Call sliceProbe) :=
  [CallEvaluate; CallSetMPSet 1 2; @CallConstOptimize sliceProbe true;
   CallRedirectServersHook ["mean"] false false false;
   CallSetSimCount 3; CallInitialize; CallEvaluate].

(** * Reasoning about calls *)

(** ** Int_t *)

Lemma Int_wrap_inRange z : Int.inRange z -> Int.wrap z = z.
Proof.
  unfold Int.inRange, Int.wrap, Int.min, Int.max. intros H.
  rewrite Z.mod_small by lia. lia.
Qed.

Lemma Int_wrap_range z : Int.inRange (Int.wrap z).
Proof.
  unfold Int.inRange, Int.wrap, Int.min, Int.max.
  pose proof (Z.mod_pos_bound (z + 2147483648) 4294967296). lia.
Qed.

(** Without overflow the lower bound of a slice is the mathematical
    quotient. *)
Lemma nFirst_exact nEvents setNum numSets :
  0 <= nEvents -> 0 <= setNum <= numSets -> 1 <= numSets ->
  nEvents * numSets <= Int.max ->
  nFirst nEvents setNum numSets = nEvents * setNum / numSets.
Proof.
  intros Hn Hs Hk Hmax. unfold nFirst, Int.mul, Int.div.
  assert (0 <= nEvents * setNum <= nEvents * numSets) by nia.
  rewrite (Int_wrap_inRange (nEvents * setNum))
    by (unfold Int.inRange, Int.min, Int.max in *; lia).
  rewrite Z.quot_div_nonneg by lia.
  apply Int_wrap_inRange. unfold Int.inRange, Int.min, Int.max in *.
  pose proof (Z.div_pos (nEvents * setNum) numSets).
  pose proof (Z.div_le_upper_bound (nEvents * setNum) numSets (nEvents * numSets)).
  nia.
Qed.

(** The upper bound of a slice is the lower bound of the next one. *)
Lemma nLast_nFirst nEvents setNum numSets :
  Int.inRange (setNum + 1) ->
  nLast nEvents setNum numSets = nFirst nEvents (setNum + 1) numSets.
Proof.
  intros H. unfold nLast, nFirst, Int.add. now rewrite Int_wrap_inRange.
Qed.

(** ** The writer monad *)

Lemma bind_unfold {A B : Type} (f : A -> M B) (m : M A) :
  m ≫= f =
  match m with
  | (tr, Returned a) => (tr ++ (f a).1, (f a).2)
  | (tr, SoftAbort) => (tr, SoftAbort)
  | (tr, Undefined u) => (tr, Undefined u)
  | (tr, OutOfFuel) => (tr, OutOfFuel)
  end.
Proof.
  destruct m as [tr [a| |u|]]; try reflexivity.
  unfold mbind, M_bind. now destruct (f a).
Qed.

Lemma bind_returned {A B : Type} (f : A -> M B) (tr : list Event) (a : A) :
  (tr, Returned a) ≫= f = (tr ++ (f a).1, (f a).2).
Proof. now rewrite bind_unfold. Qed.

Lemma bind_ret {A B : Type} (f : A -> M B) (a : A) : mret a ≫= f = f a.
Proof. unfold mret, M_ret. rewrite bind_returned. now destruct (f a). Qed.

Lemma bind_pure {A B : Type} (f : A -> M B) (a : A) :
  ([], Returned a) ≫= f = f a.
Proof. apply bind_ret. Qed.

(** A bind that returns: both halves returned. *)
Lemma bind_inv {A B : Type} (f : A -> M B) (m : M A) tr b :
  m ≫= f = (tr, Returned b) ->
  exists tr1 a tr2,
    m = (tr1, Returned a) /\ f a = (tr2, Returned b) /\ tr = tr1 ++ tr2.
Proof.
  rewrite bind_unfold. destruct m as [tr1 [a| |u|]]; try discriminate.
  destruct (f a) as [tr2 o] eqn:E. simpl. intros [= <- ->].
  exists tr1, a, tr2. auto.
Qed.

(** ** Postconditions *)

Lemma wp_ret {A : Type} oof (a : A) (Q : A -> Prop) : Q a -> wp oof (mret a) Q.
Proof. easy. Qed.

Lemma wp_bind {A B : Type} oof (m : M A) (f : A -> M B) (Q : B -> Prop) :
  wp oof m (fun a => wp oof (f a) Q) -> wp oof (m ≫= f) Q.
Proof.
  rewrite bind_unfold. unfold wp. now destruct m as [tr [a| |u|]].
Qed.

Lemma wp_mono {A : Type} oof (m : M A) (Q Q' : A -> Prop) :
  wp oof m Q -> (forall a, Q a -> Q' a) -> wp oof m Q'.
Proof. unfold wp. destruct m as [tr [a| |u|]]; simpl; auto. Qed.

Lemma wp_returned {A : Type} oof (m : M A) (Q : A -> Prop) tr a :
  wp oof m Q -> m = (tr, Returned a) -> Q a.
Proof. now intros H ->. Qed.

Lemma wp_not_oof {A : Type} (m : M A) (Q : A -> Prop) :
  wp False m Q -> m.2 <> OutOfFuel.
Proof. unfold wp. now destruct m as [tr [a| |u|]]. Qed.

Lemma wp_undefined {A : Type} oof u (Q : A -> Prop) : wp oof (undefined u) Q.
Proof. easy. Qed.

Lemma wp_softAbort {A : Type} oof (Q : A -> Prop) : wp oof softAbort Q.
Proof. easy. Qed.

Lemma wp_cout oof line (Q : unit -> Prop) : Q tt -> wp oof (cout line) Q.
Proof. easy. Qed.

Lemma wp_emit oof ev (Q : unit -> Prop) : Q tt -> wp oof (emit ev) Q.
Proof. easy. Qed.

Lemma wp_forRange {S : Type} oof (I : S -> Prop) count start
  (body : nat -> S -> M S) (s : S) :
  I s -> (forall i s, I s -> wp oof (body i s) I) ->
  wp oof (forRange count start body s) I.
Proof.
  intros Hs Hbody. revert start s Hs.
  induction count as [|count IH]; intros start s Hs; simpl.
  - now apply wp_ret.
  - apply wp_bind. eapply wp_mono; [now apply Hbody|]. intros s' Hs'. now apply IH.
Qed.

Lemma wp_For {S : Type} oof (I : S -> Prop) n (body : nat -> S -> M S) (s : S) :
  I s -> (forall i s, I s -> wp oof (body i s) I) -> wp oof (For n body s) I.
Proof. apply wp_forRange. Qed.

Lemma wp_whileNext {S : Type} oof (I : S -> Prop) types
  (body : string -> S -> M S) (s : S) :
  I s -> (forall type s, type ∈ types -> I s -> wp oof (body type s) I) ->
  wp oof (whileNext types body s) I.
Proof.
  revert s. induction types as [|type rest IH]; intros s Hs Hbody; simpl.
  - now apply wp_ret.
  - apply wp_bind. eapply wp_mono; [apply Hbody; [left|done]|].
    intros s' Hs'. apply IH; [done|]. intros ty s0 Hin. apply Hbody. now right.
Qed.

Lemma slots_lookup {T : Type} (P : T -> Prop) a i x :
  slots P a -> a !! i = Some (Some x) -> P x.
Proof.
  intros H Hi. unfold slots in H. rewrite Forall_lookup in H. exact (H i _ Hi).
Qed.

Lemma slots_insert {T : Type} (P : T -> Prop) a i x :
  slots P a -> P x -> slots P (<[i := Some x]> a).
Proof. intros H Hx. now apply Forall_insert. Qed.

Lemma slots_newArray {T : Type} (P : T -> Prop) n : slots P (newArray n).
Proof. unfold slots, newArray. now apply Forall_replicate. Qed.

Lemma slots_impl {T : Type} (P Q : T -> Prop) a :
  slots P a -> (forall x, P x -> Q x) -> slots Q a.
Proof.
  unfold slots. intros H HPQ. eapply Forall_impl; [exact H|].
  intros [x|]; simpl; auto.
Qed.

Lemma wp_storeSlot {T : Type} oof (P : T -> Prop) i x (a : list (option T)) :
  slots P a -> P x -> wp oof (storeSlot i x a) (slots P).
Proof.
  intros Ha Hx. unfold storeSlot. case_decide.
  - apply wp_ret. now apply slots_insert.
  - apply wp_undefined.
Qed.

Lemma wp_readSlot {T : Type} oof (P : T -> Prop) i (a : list (option T)) :
  slots P a -> wp oof (readSlot i a) P.
Proof.
  intros Ha. unfold readSlot. destruct (a !! i) as [[x|]|] eqn:E.
  - apply wp_ret. eapply slots_lookup; eauto.
  - apply wp_undefined.
  - apply wp_undefined.
Qed.

Lemma wp_atSlot {T : Type} oof (P : T -> Prop) guarded (method : T -> M T) i
  (a : list (option T)) :
  slots P a -> (forall x, P x -> wp oof (method x) P) ->
  wp oof (atSlot guarded method i a) (slots P).
Proof.
  intros Ha Hm. unfold atSlot. destruct (a !! i) as [[x|]|] eqn:E.
  - apply wp_bind. eapply wp_mono; [apply Hm; eapply slots_lookup; eauto|].
    intros x' Hx'. apply wp_ret. now apply slots_insert.
  - destruct guarded; [now apply wp_ret | apply wp_undefined].
  - apply wp_undefined.
Qed.

Section Theory.

Context {subclass : Subclass}.

(** ** Nesting depth *)

Lemma foldr_max_le (l : list nat) (k : nat) :
  (foldr Nat.max O l <= k)%nat <-> Forall (fun x => (x <= k)%nat) l.
Proof.
  induction l as [|x l IH]; simpl.
  - split; [constructor | lia].
  - rewrite Forall_cons, <- IH. lia.
Qed.

Lemma rank_le_iff (e : RooAbsGoodnessOfFit) (k : nat) :
  (rank e <= k)%nat <->
  (modeDepth (_pdf e) (_gofOpMode e) <= k)%nat /\
  slots (below k) (_gofArray e) /\ slots (argBelow k) (_mpfeArray e).
Proof.
  destruct e as [m ga ma]. unfold _pdf, _gofOpMode, _gofArray, _mpfeArray.
  cbn [rank members]. rewrite !Nat.max_lub_iff, !foldr_max_le.
  unfold slots, below, argBelow. rewrite !Forall_map.
  apply and_iff_compat_l.
  split; intros [H1 H2]; split;
    (eapply Forall_impl; [eassumption|]; intros [x|]; simpl; lia).
Qed.

Lemma rank_updMembers f e :
  (forall m, m_pdf (f m) = m_pdf m) ->
  (forall m, m_gofOpMode (f m) = m_gofOpMode m) ->
  rank (updMembers f e) = rank e.
Proof.
  intros Hp Hm. destruct e as [m ga ma]. cbn [rank updMembers].
  now rewrite Hp, Hm.
Qed.

Lemma rank_set_name v e : rank (set_name v e) = rank e.
Proof. now apply rank_updMembers. Qed.
Lemma rank_set_title v e : rank (set_title v e) = rank e.
Proof. now apply rank_updMembers. Qed.
Lemma rank_set_simCount v e : rank (set_simCount v e) = rank e.
Proof. now apply rank_updMembers. Qed.
Lemma rank_set_nGof v e : rank (set_nGof v e) = rank e.
Proof. now apply rank_updMembers. Qed.
Lemma rank_set_nCPU v e : rank (set_nCPU v e) = rank e.
Proof. now apply rank_updMembers. Qed.
Lemma rank_set_partition a b e : rank (set_partition a b e) = rank e.
Proof. now apply rank_updMembers. Qed.
Lemma rank_set_init v e : rank (set_init v e) = rank e.
Proof. now apply rank_updMembers. Qed.
Lemma rank_notify n e : rank (notify n e) = rank e.
Proof. now apply rank_updMembers. Qed.

Lemma rank_set_gofArray ga e k :
  (rank e <= k)%nat -> slots (below k) ga -> (rank (set_gofArray ga e) <= k)%nat.
Proof.
  rewrite !rank_le_iff. destruct e as [m ga0 ma]. cbn. tauto.
Qed.

Lemma rank_set_mpfeArray ma e k :
  (rank e <= k)%nat -> slots (argBelow k) ma ->
  (rank (set_mpfeArray ma e) <= k)%nat.
Proof.
  rewrite !rank_le_iff. destruct e as [m ga ma0]. cbn. tauto.
Qed.

Lemma rank_gofArray e k : (rank e <= k)%nat -> slots (below k) (_gofArray e).
Proof. rewrite rank_le_iff. tauto. Qed.

Lemma rank_mpfeArray e k : (rank e <= k)%nat -> slots (argBelow k) (_mpfeArray e).
Proof. rewrite rank_le_iff. tauto. Qed.

Lemma rank_modeDepth e : (modeDepth (_pdf e) (_gofOpMode e) <= rank e)%nat.
Proof. pose proof (proj1 (rank_le_iff e (rank e)) (le_n _)). tauto. Qed.

Lemma rank_new name title pdf data projDeps :
  rank (RooAbsGoodnessOfFit_new name title pdf data projDeps 1)
  = (2 * pdfDepth pdf)%nat.
Proof.
  unfold RooAbsGoodnessOfFit_new. cbn [rank m_pdf m_gofOpMode foldr List.map].
  change (1 <? 1) with false. cbv iota. unfold modeDepth.
  destruct (isSimultaneous pdf); rewrite decide_False by discriminate; lia.
Qed.

Lemma getPdf_In l type pdf : getPdf l type = Some pdf -> exists s, In (s, pdf) l.
Proof.
  unfold getPdf. destruct (List.find _ l) as [[s p]|] eqn:E; [|discriminate].
  intros [= <-]. apply List.find_some in E. exists s. tauto.
Qed.

Lemma getPdf_depth name cat l type pdf :
  getPdf l type = Some pdf ->
  (pdfDepth pdf < pdfDepth (RooSimultaneous name cat l))%nat.
Proof.
  intros [s Hin]%getPdf_In. cbn [pdfDepth].
  assert (H : (foldr Nat.max O (List.map (fun p => pdfDepth p.2) l)
               <= foldr Nat.max O (List.map (fun p => pdfDepth p.2) l))%nat) by lia.
  rewrite foldr_max_le, Forall_map, Forall_forall in H.
  apply list_elem_of_In in Hin. specialize (H _ Hin). simpl in H. lia.
Qed.

(** ** Every call is served within the nesting bound *)

Lemma wp_combinedValue {T : Type} oof (P : T -> Prop)
  (getVal : T -> M (T * Double_t)) (a : list (option T)) (n : Z) :
  slots P a -> (forall x, P x -> wp oof (getVal x) (fun r => P r.1)) ->
  wp oof (combinedValue getVal a n) (fun r => slots P r.1).
Proof.
  intros Ha Hg. unfold combinedValue.
  apply (wp_For oof (fun r : list (option T) * Double_t => slots P r.1));
    [exact Ha|].
  intros i [arr sum] Harr. simpl in Harr.
  apply wp_bind. eapply wp_mono; [apply (wp_readSlot oof P); exact Harr|].
  intros x Hx.
  apply wp_bind. eapply wp_mono; [now apply Hg|]. intros [x' v] Hx'.
  apply wp_ret. now apply slots_insert.
Qed.

Lemma wp_mpfe_getVal n callee k fe :
  Good n callee -> (k <= n)%nat -> argBelow k fe ->
  wp False (mpfe_getVal callee fe) (fun r => argBelow k r.1).
Proof.
  intros G Hk Hfe. unfold mpfe_getVal. apply wp_bind.
  eapply wp_mono; [now apply (good_getVal _ _ G k)|]. intros [g v] Hg.
  now apply wp_ret.
Qed.

Lemma wp_mpfe_constOptimize n callee k opcode fe :
  Good n callee -> (k <= n)%nat -> argBelow k fe ->
  wp False (mpfe_constOptimize callee opcode fe) (argBelow k).
Proof.
  intros G Hk Hfe. unfold mpfe_constOptimize. apply wp_bind.
  eapply wp_mono; [now apply (good_constOptimize _ _ G k)|]. intros g Hg.
  now apply wp_ret.
Qed.

Lemma wp_mpfe_Clone n callee k fe :
  Good n callee -> (k <= n)%nat -> argBelow k fe ->
  wp False (mpfe_Clone callee fe) (argBelow k).
Proof.
  intros G Hk Hfe. unfold mpfe_Clone. apply wp_bind.
  eapply wp_mono; [now apply (good_Clone _ _ G k)|]. intros g Hg.
  now apply wp_ret.
Qed.

Lemma rank_countUsedStates l dsl types this :
  rank (countUsedStates l dsl types this) = rank this.
Proof.
  unfold countUsedStates. rewrite <- (rank_set_nGof 0 this).
  generalize (set_nGof 0 this). clear this.
  induction types as [|type types IH]; intros this; simpl; [done|].
  rewrite IH. destruct (countsAsUsed l dsl type); [apply rank_set_nGof|done].
Qed.

Lemma initSimMode_served n callee k simpdf data projDeps this :
  Good n callee -> (k <= n)%nat -> (rank this <= k)%nat ->
  (2 * pdfDepth simpdf <= k)%nat ->
  wp False (initSimMode callee simpdf data projDeps this)
    (fun this' => (rank this' <= k)%nat).
Proof.
  intros G Hk Hthis Hpdf. unfold initSimMode.
  destruct simpdf as [|nm simCat l]; [apply wp_undefined|].
  apply wp_bind.
  destruct (split data simCat) as [dsetList|].
  2:{ apply wp_bind. apply wp_cout. apply wp_softAbort. }
  apply wp_ret. apply wp_bind.
  eapply wp_mono.
  { apply (wp_whileNext False
             (fun s : Z * RooAbsGoodnessOfFit => (rank s.2 <= k)%nat)).
    - simpl. apply rank_set_gofArray; [|apply slots_newArray].
      now rewrite rank_countUsedStates.
    - intros type [i e] _ He. simpl in He.
      destruct (getPdf l type) as [pdf|] eqn:Epdf; [|now apply wp_ret].
      destruct (FindObject dsetList type) as [dset|].
      2:{ apply wp_bind. apply wp_cout. now apply wp_ret. }
      apply wp_bind. apply wp_cout.
      apply wp_bind. unfold create. apply wp_bind. apply wp_emit. apply wp_ret.
      assert (Hnew : below k (RooAbsGoodnessOfFit_new type type pdf dset projDeps 1)).
      { unfold below. rewrite rank_new.
        pose proof (getPdf_depth nm simCat l type pdf Epdf). lia. }
      apply wp_bind. eapply wp_mono.
      { apply (wp_storeSlot False (below k)); [now apply rank_gofArray|exact Hnew]. }
      intros ga Hga. apply wp_bind. eapply wp_mono.
      { apply (wp_atSlot False (below k)); [exact Hga|].
        intros x Hx. apply wp_ret. unfold below. now rewrite rank_set_simCount. }
      intros ga1 Hga1. apply wp_bind. eapply wp_mono.
      { apply (wp_atSlot False (below k)); [exact Hga1|].
        intros x Hx. now apply (good_recursiveRedirectServers _ _ G k). }
      intros ga2 Hga2. apply wp_ret. simpl. now apply rank_set_gofArray. }
  intros [i e] He. now apply wp_ret.
Qed.

Lemma initMPMode_served n callee k pdf data projDeps this :
  Good n callee -> (k <= n)%nat -> (rank this <= k)%nat ->
  (2 * pdfDepth pdf < k)%nat ->
  wp False (initMPMode callee pdf data projDeps this)
    (fun this' => (rank this' <= k)%nat).
Proof.
  intros G Hk Hthis Hpdf. unfold initMPMode.
  apply wp_bind. unfold create. apply wp_bind. apply wp_emit. apply wp_ret.
  apply wp_bind. eapply wp_mono.
  { apply (wp_For False
             (fun s : RooAbsGoodnessOfFit * RooAbsGoodnessOfFit =>
                below k s.1 /\ (rank s.2 <= k)%nat)).
    - simpl. split.
      + unfold below. now rewrite rank_new.
      + apply rank_set_mpfeArray; [done|apply slots_newArray].
    - intros i [gof e] [Hgof He]. simpl in Hgof, He.
      apply wp_bind. eapply wp_mono; [now apply (good_setMPSet _ _ G k)|].
      intros gof' Hgof'.
      apply wp_bind.
      eapply (wp_mono _ _ (fun _ => True)).
      { destruct (_ =? _); [now apply wp_ret|now apply wp_cout]. }
      intros _ _.
      apply wp_bind. unfold RooRealMPFE_new. apply wp_bind. apply wp_emit.
      apply wp_ret.
      assert (Hg2 : below k
                (set_title (Form (GetTitle e) "_GOF" (Z.of_nat i))
                   (set_name (Form (GetName e) "_GOF" (Z.of_nat i)) gof'))).
      { unfold below. now rewrite rank_set_title, rank_set_name. }
      apply wp_bind. eapply wp_mono.
      { apply (wp_storeSlot False (argBelow k)); [now apply rank_mpfeArray|].
        exact Hg2. }
      intros ma Hma. apply wp_bind. eapply wp_mono.
      { apply (wp_atSlot False (argBelow k)); [exact Hma|].
        intros x Hx. now apply wp_ret. }
      intros ma1 Hma1. apply wp_ret. simpl. split; [exact Hg2|].
      now apply rank_set_mpfeArray. }
  intros [gof e] [_ He]. now apply wp_ret.
Qed.

Lemma modeDepth_MPMaster e :
  _gofOpMode e = MPMaster -> (2 * pdfDepth (_pdf e) < rank e)%nat.
Proof.
  intros Hm. pose proof (rank_modeDepth e) as H. rewrite Hm in H.
  unfold modeDepth in H. rewrite decide_True in H by done. lia.
Qed.

Lemma modeDepth_any e : (2 * pdfDepth (_pdf e) <= rank e)%nat.
Proof. pose proof (rank_modeDepth e) as H. unfold modeDepth in H. lia. Qed.

Lemma initialize_served n callee k this :
  Good n callee -> (k <= n)%nat -> (rank this <= k)%nat ->
  wp False (initialize callee this) (fun r => (rank r.1 <= k)%nat).
Proof.
  intros G Hk Hthis. unfold initialize.
  destruct (_init this); [now apply wp_ret|].
  apply wp_bind. eapply (wp_mono _ _ (fun this' => (rank this' <= k)%nat)).
  - destruct (_gofOpMode this) eqn:Em.
    + apply (initSimMode_served n); try done.
      pose proof (modeDepth_any this). lia.
    + apply (initMPMode_served n); try done.
      pose proof (modeDepth_MPMaster this Em). lia.
    + now apply wp_ret.
  - intros this' H'. apply wp_ret. simpl. now rewrite rank_set_init.
Qed.

Lemma wp_For_atSlot {T : Type} oof (P : T -> Prop) guarded (method : T -> M T) n
  (a : list (option T)) :
  slots P a -> (forall x, P x -> wp oof (method x) P) ->
  wp oof (For n (atSlot guarded method) a) (slots P).
Proof.
  intros Ha Hm. apply wp_For; [exact Ha|].
  intros i s Hs. now apply wp_atSlot.
Qed.

Lemma evaluate_served n callee k this :
  Good n callee -> (k <= n)%nat -> (rank this <= k)%nat ->
  wp False (evaluate callee this) (fun r => (rank r.1 <= k)%nat).
Proof.
  intros G Hk Hthis. unfold evaluate.
  apply wp_bind. eapply (wp_mono _ _ (fun this' => (rank this' <= k)%nat)).
  { destruct (_init this); simpl; [now apply wp_ret|].
    apply wp_bind. eapply wp_mono; [now apply (initialize_served n _ k)|].
    intros [e b] He. now apply wp_ret. }
  clear this Hthis. intros this Hthis.
  destruct (_gofOpMode this).
  - apply wp_bind. eapply wp_mono.
    { apply (wp_combinedValue False (below k)); [now apply rank_gofArray|].
      intros x Hx. now apply (good_getVal _ _ G k). }
    intros [ga v] Hga. apply wp_ret. simpl. now apply rank_set_gofArray.
  - apply wp_bind. eapply wp_mono.
    { apply (wp_For_atSlot False (argBelow k)); [now apply rank_mpfeArray|].
      intros x Hx. now apply wp_ret. }
    intros ma Hma. apply wp_bind. eapply wp_mono.
    { apply (wp_combinedValue False (argBelow k)); [exact Hma|].
      intros x Hx. now apply (wp_mpfe_getVal n _ k). }
    intros [ma' v] Hma'. apply wp_ret. simpl. now apply rank_set_mpfeArray.
  - destruct (_numSets this =? 0); [apply wp_undefined|now apply wp_ret].
Qed.

Lemma redirectServersHook_served n callee k l b1 b2 b3 this :
  Good n callee -> (k <= n)%nat -> (rank this <= k)%nat ->
  wp False (redirectServersHook callee l b1 b2 b3 this)
    (fun r => (rank r.1 <= k)%nat).
Proof.
  intros G Hk Hthis. unfold redirectServersHook.
  set (this' := notify _ this).
  assert (H' : (rank this' <= k)%nat) by (subst this'; now rewrite rank_notify).
  clearbody this'. clear this Hthis.
  destruct (_gofOpMode this'); [|now apply wp_ret..].
  apply wp_bind. eapply wp_mono.
  { apply (wp_For_atSlot False (below k)); [now apply rank_gofArray|].
    intros x Hx. now apply (good_recursiveRedirectServers _ _ G k). }
  intros ga Hga. apply wp_ret. simpl. now apply rank_set_gofArray.
Qed.

Lemma recursiveRedirectServers_served n callee k l b1 b2 this :
  Good n callee -> (k <= n)%nat -> (rank this <= k)%nat ->
  wp False (recursiveRedirectServers callee l b1 b2 this)
    (fun this' => (rank this' <= k)%nat).
Proof.
  intros G Hk Hthis. unfold recursiveRedirectServers. apply wp_bind.
  eapply wp_mono; [now apply (redirectServersHook_served n _ k)|].
  intros [e b] He. now apply wp_ret.
Qed.

Lemma constOptimize_served n callee k opcode this :
  Good n callee -> (k <= n)%nat -> (rank this <= k)%nat ->
  wp False (constOptimize callee opcode this) (fun this' => (rank this' <= k)%nat).
Proof.
  intros G Hk Hthis. unfold constOptimize.
  apply wp_bind. eapply wp_mono.
  { apply (initialize_served n _ k); try done. now rewrite rank_notify. }
  clear this Hthis. intros [this b] Hthis. simpl in Hthis.
  destruct (_gofOpMode this); [| |now apply wp_ret].
  - apply wp_bind. eapply wp_mono.
    { apply (wp_For_atSlot False (below k)); [now apply rank_gofArray|].
      intros x Hx. now apply (good_constOptimize _ _ G k). }
    intros ga Hga. apply wp_ret. now apply rank_set_gofArray.
  - apply wp_bind. eapply wp_mono.
    { apply (wp_For_atSlot False (argBelow k)); [now apply rank_mpfeArray|].
      intros x Hx. now apply (wp_mpfe_constOptimize n _ k). }
    intros ma Hma. apply wp_ret. now apply rank_set_mpfeArray.
Qed.

Lemma setMPSet_served n callee k setNum numSets this :
  Good n callee -> (k <= n)%nat -> (rank this <= k)%nat ->
  wp False (setMPSet callee setNum numSets this)
    (fun this' => (rank this' <= k)%nat).
Proof.
  intros G Hk Hthis. unfold setMPSet.
  set (this' := set_partition _ _ this).
  assert (H' : (rank this' <= k)%nat)
    by (subst this'; now rewrite rank_set_partition).
  clearbody this'. clear this Hthis.
  destruct (_gofOpMode this'); [|now apply wp_ret..].
  apply wp_bind. eapply wp_mono; [now apply (initialize_served n _ k)|].
  intros [this b] Hthis. simpl in Hthis.
  apply wp_bind. eapply wp_mono.
  { apply (wp_For_atSlot False (below k)); [now apply rank_gofArray|].
    intros x Hx. now apply (good_setMPSet _ _ G k). }
  intros ga Hga. apply wp_ret. now apply rank_set_gofArray.
Qed.

Lemma copy_served n callee k other name :
  Good n callee -> (k <= n)%nat -> (rank other <= k)%nat ->
  wp False (RooAbsGoodnessOfFit_copy callee other name)
    (fun this' => (rank this' <= k)%nat).
Proof.
  intros G Hk Hother. unfold RooAbsGoodnessOfFit_copy.
  match goal with |- context [GOF ?m [] []] => set (this := GOF m [] []) end.
  assert (Hthis : (rank this <= k)%nat).
  { apply rank_le_iff. subst this. split; [|split; constructor].
    eapply Nat.le_trans; [apply (rank_modeDepth other)|exact Hother]. }
  clearbody this.
  apply wp_bind. eapply (wp_mono _ _ (fun this' => (rank this' <= k)%nat)).
  { case_decide; [|now apply wp_ret].
    apply wp_bind. eapply wp_mono.
    { apply (wp_For False (slots (below k))).
      - apply rank_gofArray. apply rank_set_gofArray; [|apply slots_newArray].
        now rewrite rank_set_nGof.
      - intros i ga Hga. apply wp_bind. eapply wp_mono.
        { apply (wp_readSlot False (below k)). now apply rank_gofArray. }
        intros o Ho. apply wp_bind. eapply wp_mono.
        { now apply (good_Clone _ _ G k). }
        intros c Hc. now apply wp_storeSlot. }
    intros ga Hga. apply wp_ret. apply rank_set_gofArray; [|exact Hga].
    apply rank_set_gofArray; [|apply slots_newArray]. now rewrite rank_set_nGof. }
  clear this Hthis. intros this Hthis.
  apply wp_bind. eapply (wp_mono _ _ (fun this' => (rank this' <= k)%nat)).
  { case_decide; [|now apply wp_ret].
    apply wp_bind. eapply wp_mono.
    { apply (wp_For False (slots (argBelow k))).
      - apply rank_mpfeArray. apply rank_set_mpfeArray; [|apply slots_newArray].
        now rewrite rank_set_nCPU.
      - intros i ma Hma. apply wp_bind. eapply wp_mono.
        { apply (wp_readSlot False (argBelow k)). now apply rank_mpfeArray. }
        intros o Ho. apply wp_bind. eapply wp_mono.
        { now apply (wp_mpfe_Clone n _ k). }
        intros c Hc. now apply wp_storeSlot. }
    intros ma Hma. apply wp_ret. apply rank_set_mpfeArray; [|exact Hma].
    apply rank_set_mpfeArray; [|apply slots_newArray]. now rewrite rank_set_nCPU. }
  intros this' H'. now apply wp_ret.
Qed.

(** The closed method table is good up to its depth. *)
Lemma dispatch_Good n : Good n (dispatch n).
Proof.
  induction n as [|n IH].
  - split; intros; unfold below in *; lia.
  - split; intros k; intros; (destruct k as [|k]; [unfold below in *; lia|]);
      cbn [dispatch call_getVal call_setMPSet call_constOptimize
           call_recursiveRedirectServers call_Clone]; unfold below in *.
    + eapply wp_mono; [apply (evaluate_served n _ k); try done; lia|].
      simpl. intros; lia.
    + eapply wp_mono; [apply (setMPSet_served n _ k); try done; lia|].
      simpl. intros; lia.
    + eapply wp_mono; [apply (constOptimize_served n _ k); try done; lia|].
      simpl. intros; lia.
    + eapply wp_mono; [apply (recursiveRedirectServers_served n _ k); try done; lia|].
      simpl. intros; lia.
    + eapply wp_mono; [apply (copy_served n _ k); try done; lia|].
      simpl. intros; lia.
Qed.

(** Seen from the caller, no method ever exhausts the bound, and none makes
    the instance nest deeper. *)
Lemma Evaluate_served this :
  wp False (Evaluate this) (fun r => (rank r.1 <= rank this)%nat).
Proof. apply (evaluate_served (rank this)); [apply dispatch_Good|done..]. Qed.

Lemma Initialize_served this :
  wp False (Initialize this) (fun r => (rank r.1 <= rank this)%nat).
Proof. apply (initialize_served (rank this)); [apply dispatch_Good|done..]. Qed.

Lemma RedirectServersHook_served l b1 b2 b3 this :
  wp False (RedirectServersHook l b1 b2 b3 this)
    (fun r => (rank r.1 <= rank this)%nat).
Proof.
  apply (redirectServersHook_served (rank this)); [apply dispatch_Good|done..].
Qed.

Lemma ConstOptimizeCall_served opcode this :
  wp False (ConstOptimizeCall opcode this) (fun r => (rank r <= rank this)%nat).
Proof. apply (constOptimize_served (rank this)); [apply dispatch_Good|done..]. Qed.

Lemma SetMPSet_served a b this :
  wp False (SetMPSet a b this) (fun r => (rank r <= rank this)%nat).
Proof. apply (setMPSet_served (rank this)); [apply dispatch_Good|done..]. Qed.

Lemma Copy_served other name :
  wp False (Copy other name) (fun r => (rank r <= rank other)%nat).
Proof. apply (copy_served (rank other)); [apply dispatch_Good|done..]. Qed.

(** ** A deeper method table serves the same calls the same way *)

Lemma mle_refl {A : Type} (m : M A) : mle m m.
Proof. now right. Qed.

Lemma mle_bind {A B : Type} (m1 m2 : M A) (f1 f2 : A -> M B) :
  mle m1 m2 -> (forall a, mle (f1 a) (f2 a)) -> mle (m1 ≫= f1) (m2 ≫= f2).
Proof.
  intros [H| <-] Hf.
  - left. rewrite bind_unfold. destruct m1 as [tr [a| |u|]]; try discriminate.
    reflexivity.
  - rewrite !bind_unfold. destruct m1 as [tr [a| |u|]]; try apply mle_refl.
    destruct (Hf a) as [H|H]; [now left|]. right. now rewrite H.
Qed.

Lemma mle_forRange {S : Type} count start (b1 b2 : nat -> S -> M S) (s : S) :
  (forall i s, mle (b1 i s) (b2 i s)) ->
  mle (forRange count start b1 s) (forRange count start b2 s).
Proof.
  intros Hb. revert start s. induction count as [|count IH]; intros start s; simpl.
  - apply mle_refl.
  - apply mle_bind; [apply Hb|]. intros s'. apply IH.
Qed.

Lemma mle_For {S : Type} n (b1 b2 : nat -> S -> M S) (s : S) :
  (forall i s, mle (b1 i s) (b2 i s)) -> mle (For n b1 s) (For n b2 s).
Proof. apply mle_forRange. Qed.

Lemma mle_whileNext {S : Type} types (b1 b2 : string -> S -> M S) (s : S) :
  (forall type s, mle (b1 type s) (b2 type s)) ->
  mle (whileNext types b1 s) (whileNext types b2 s).
Proof.
  intros Hb. revert s. induction types as [|type rest IH]; intros s; simpl.
  - apply mle_refl.
  - apply mle_bind; [apply Hb|]. intros s'. apply IH.
Qed.

Lemma mle_atSlot {T : Type} guarded (f1 f2 : T -> M T) i (a : list (option T)) :
  (forall x, mle (f1 x) (f2 x)) -> mle (atSlot guarded f1 i a) (atSlot guarded f2 i a).
Proof.
  intros Hf. unfold atSlot. destruct (a !! i) as [[x|]|]; try apply mle_refl.
  apply mle_bind; [apply Hf|]. intros; apply mle_refl.
Qed.

Lemma mle_combinedValue {T : Type} (g1 g2 : T -> M (T * Double_t)) a n :
  (forall x, mle (g1 x) (g2 x)) -> mle (combinedValue g1 a n) (combinedValue g2 a n).
Proof.
  intros Hg. unfold combinedValue. apply mle_For. intros i [arr sum].
  apply mle_bind; [apply mle_refl|]. intros x.
  apply mle_bind; [apply Hg|]. intros; apply mle_refl.
Qed.

Ltac mle_step :=
  match goal with
  | |- mle ?m ?m => apply mle_refl
  | |- mle (_ ≫= _) (_ ≫= _) => apply mle_bind; [|intros]
  | |- mle (For _ _ _) (For _ _ _) => apply mle_For; intros
  | |- mle (whileNext _ _ _) (whileNext _ _ _) => apply mle_whileNext; intros
  | |- mle (atSlot _ _ _ _) (atSlot _ _ _ _) => apply mle_atSlot; intros
  | |- mle (combinedValue _ _ _) (combinedValue _ _ _) =>
      apply mle_combinedValue; intros
  | H : Mle _ _ |- mle (call_getVal _ _) (call_getVal _ _) => apply (mle_getVal _ _ H)
  | H : Mle _ _ |- mle (call_setMPSet _ _ _ _) (call_setMPSet _ _ _ _) =>
      apply (mle_setMPSet _ _ H)
  | H : Mle _ _ |- mle (call_constOptimize _ _ _) (call_constOptimize _ _ _) =>
      apply (mle_constOptimize _ _ H)
  | H : Mle _ _ |- mle (call_recursiveRedirectServers _ _ _ _ _)
                     (call_recursiveRedirectServers _ _ _ _ _) =>
      apply (mle_recursiveRedirectServers _ _ H)
  | H : Mle _ _ |- mle (call_Clone _ _) (call_Clone _ _) => apply (mle_Clone _ _ H)
  | |- mle (match ?x with _ => _ end) (match ?x with _ => _ end) => destruct x
  end.

Ltac mle_auto := repeat mle_step.

Lemma mle_initSimMode c1 c2 simpdf data projDeps this :
  Mle c1 c2 ->
  mle (initSimMode c1 simpdf data projDeps this)
      (initSimMode c2 simpdf data projDeps this).
Proof. intros H. unfold initSimMode. mle_auto. Qed.

Lemma mle_initMPMode c1 c2 pdf data projDeps this :
  Mle c1 c2 ->
  mle (initMPMode c1 pdf data projDeps this) (initMPMode c2 pdf data projDeps this).
Proof. intros H. unfold initMPMode. mle_auto. Qed.

Lemma mle_initialize c1 c2 this :
  Mle c1 c2 -> mle (initialize c1 this) (initialize c2 this).
Proof.
  intros H. unfold initialize. destruct (_init this); [apply mle_refl|].
  apply mle_bind; [|intros; apply mle_refl].
  destruct (_gofOpMode this);
    [now apply mle_initSimMode | now apply mle_initMPMode | apply mle_refl].
Qed.

Lemma mle_mpfe_getVal c1 c2 fe :
  Mle c1 c2 -> mle (mpfe_getVal c1 fe) (mpfe_getVal c2 fe).
Proof. intros H. unfold mpfe_getVal. mle_auto. Qed.

Lemma mle_mpfe_constOptimize c1 c2 opcode fe :
  Mle c1 c2 -> mle (mpfe_constOptimize c1 opcode fe) (mpfe_constOptimize c2 opcode fe).
Proof. intros H. unfold mpfe_constOptimize. mle_auto. Qed.

Lemma mle_mpfe_Clone c1 c2 fe :
  Mle c1 c2 -> mle (mpfe_Clone c1 fe) (mpfe_Clone c2 fe).
Proof. intros H. unfold mpfe_Clone. mle_auto. Qed.

Lemma mle_evaluate c1 c2 this :
  Mle c1 c2 -> mle (evaluate c1 this) (evaluate c2 this).
Proof.
  intros H. unfold evaluate. apply mle_bind.
  { destruct (negb (_init this)); [|apply mle_refl].
    apply mle_bind; [now apply mle_initialize|intros; apply mle_refl]. }
  intros this'. destruct (_gofOpMode this'); [| |apply mle_refl].
  - mle_auto.
  - apply mle_bind; [apply mle_refl|]. intros ma.
    apply mle_bind; [|intros; apply mle_refl].
    apply mle_combinedValue. intros x. now apply mle_mpfe_getVal.
Qed.

Lemma mle_redirectServersHook c1 c2 l b1 b2 b3 this :
  Mle c1 c2 ->
  mle (redirectServersHook c1 l b1 b2 b3 this) (redirectServersHook c2 l b1 b2 b3 this).
Proof. intros H. unfold redirectServersHook. mle_auto. Qed.

Lemma mle_recursiveRedirectServers_body c1 c2 l b1 b2 this :
  Mle c1 c2 ->
  mle (recursiveRedirectServers c1 l b1 b2 this)
      (recursiveRedirectServers c2 l b1 b2 this).
Proof.
  intros H. unfold recursiveRedirectServers.
  apply mle_bind; [now apply mle_redirectServersHook|intros; apply mle_refl].
Qed.

Lemma mle_constOptimize_body c1 c2 opcode this :
  Mle c1 c2 -> mle (constOptimize c1 opcode this) (constOptimize c2 opcode this).
Proof.
  intros H. unfold constOptimize.
  apply mle_bind; [now apply mle_initialize|]. intros [e b].
  destruct (_gofOpMode e); [mle_auto| |apply mle_refl].
  apply mle_bind; [|intros; apply mle_refl].
  apply mle_For. intros. apply mle_atSlot. intros. now apply mle_mpfe_constOptimize.
Qed.

Lemma mle_setMPSet_body c1 c2 a b this :
  Mle c1 c2 -> mle (setMPSet c1 a b this) (setMPSet c2 a b this).
Proof.
  intros H. unfold setMPSet.
  destruct (_gofOpMode _); [|apply mle_refl..].
  apply mle_bind; [now apply mle_initialize|]. intros [e b0]. mle_auto.
Qed.

Lemma mle_copy c1 c2 other name :
  Mle c1 c2 ->
  mle (RooAbsGoodnessOfFit_copy c1 other name) (RooAbsGoodnessOfFit_copy c2 other name).
Proof.
  intros H. unfold RooAbsGoodnessOfFit_copy.
  apply mle_bind.
  { case_decide; [|apply mle_refl]. mle_auto. }
  intros this. apply mle_bind; [|intros; apply mle_refl].
  case_decide; [|apply mle_refl].
  apply mle_bind; [|intros; apply mle_refl].
  apply mle_For. intros i ma. apply mle_bind; [apply mle_refl|]. intros fe.
  apply mle_bind; [now apply mle_mpfe_Clone|intros; apply mle_refl].
Qed.

Lemma dispatch_mono_S n : Mle (dispatch n) (dispatch (S n)).
Proof.
  induction n as [|n IH].
  - split; intros; now left.
  - remember (S n) as n'. split; intros; subst n';
      cbn [dispatch call_getVal call_setMPSet call_constOptimize
           call_recursiveRedirectServers call_Clone].
    + now apply mle_evaluate.
    + now apply mle_setMPSet_body.
    + now apply mle_constOptimize_body.
    + now apply mle_recursiveRedirectServers_body.
    + now apply mle_copy.
Qed.

Lemma Mle_refl c : Mle c c.
Proof. split; intros; apply mle_refl. Qed.

Lemma mle_trans {A : Type} (m1 m2 m3 : M A) : mle m1 m2 -> mle m2 m3 -> mle m1 m3.
Proof. intros [H| ->] H'; [now left|exact H']. Qed.

Lemma Mle_trans c1 c2 c3 : Mle c1 c2 -> Mle c2 c3 -> Mle c1 c3.
Proof.
  intros [] []. split; intros; eapply mle_trans; eauto.
Qed.

Lemma dispatch_mono n m : (n <= m)%nat -> Mle (dispatch n) (dispatch m).
Proof.
  induction 1 as [|m _ IH]; [apply Mle_refl|].
  eapply Mle_trans; [exact IH|apply dispatch_mono_S].
Qed.

Lemma mle_served {A : Type} (m1 m2 : M A) (Q : A -> Prop) :
  mle m1 m2 -> wp False m1 Q -> m1 = m2.
Proof. intros [H| ->] Hwp; [|done]. now apply wp_not_oof in Hwp. Qed.

(** Any method table at least as deep as the instance serves a call on it
    as the caller of the top-level instance sees it. *)
Lemma evaluate_stable n this :
  (rank this <= n)%nat -> evaluate (dispatch n) this = Evaluate this.
Proof.
  intros H. symmetry. eapply mle_served; [|apply Evaluate_served].
  apply mle_evaluate. now apply dispatch_mono.
Qed.

Lemma initialize_stable n this :
  (rank this <= n)%nat -> initialize (dispatch n) this = Initialize this.
Proof.
  intros H. symmetry. eapply mle_served; [|apply Initialize_served].
  apply mle_initialize. now apply dispatch_mono.
Qed.

Lemma setMPSet_stable n a b this :
  (rank this <= n)%nat -> setMPSet (dispatch n) a b this = SetMPSet a b this.
Proof.
  intros H. symmetry. eapply mle_served; [|apply SetMPSet_served].
  apply mle_setMPSet_body. now apply dispatch_mono.
Qed.

Lemma constOptimize_stable n opcode this :
  (rank this <= n)%nat ->
  constOptimize (dispatch n) opcode this = ConstOptimizeCall opcode this.
Proof.
  intros H. symmetry. eapply mle_served; [|apply ConstOptimizeCall_served].
  apply mle_constOptimize_body. now apply dispatch_mono.
Qed.

Lemma redirectServersHook_stable n l b1 b2 b3 this :
  (rank this <= n)%nat ->
  redirectServersHook (dispatch n) l b1 b2 b3 this
  = RedirectServersHook l b1 b2 b3 this.
Proof.
  intros H. symmetry. eapply mle_served; [|apply RedirectServersHook_served].
  apply mle_redirectServersHook. now apply dispatch_mono.
Qed.

Lemma copy_stable n other name :
  (rank other <= n)%nat ->
  RooAbsGoodnessOfFit_copy (dispatch n) other name = Copy other name.
Proof.
  intros H. symmetry. eapply mle_served; [|apply Copy_served].
  apply mle_copy. now apply dispatch_mono.
Qed.

(** ** Slave-mode evaluation and its slices *)

Lemma set_init_id this : _init this = true -> set_init true this = this.
Proof.
  destruct this as [[] ga ma]. unfold _init. cbn. now intros ->.
Qed.

(** A Slave instance evaluates its slice, whatever the method table. *)
Lemma evaluate_Slave callee this :
  _gofOpMode this = Slave -> _numSets this <> 0 ->
  evaluate callee this
  = ([], Returned (set_init true this,
                   evaluatePartition (_pdf this) (_data this) (_projDeps this)
                     (_simCount this)
                     (nFirst (_nEvents this) (_setNum this) (_numSets this))
                     (nLast (_nEvents this) (_setNum this) (_numSets this)))).
Proof.
  intros Hmode Hsets. unfold evaluate, initialize.
  destruct (_init this) eqn:Einit; cbn [negb].
  - rewrite bind_ret, Hmode.
    destruct (Z.eqb_spec (_numSets this) 0) as [|_]; [done|].
    now rewrite set_init_id.
  - rewrite Hmode, !bind_ret.
    destruct this as [[] ga ma]. unfold _gofOpMode, _numSets in *. cbn in *.
    subst. destruct (Z.eqb_spec m_numSets0 0) as [|_]; [done|]. reflexivity.
Qed.

Lemma quotient_mono nEvents numSets i j :
  0 <= nEvents -> 1 <= numSets -> i <= j ->
  nEvents * i / numSets <= nEvents * j / numSets.
Proof. intros. apply Z.div_le_mono; nia. Qed.

(** Between two consecutive multiples there is a slice for every entry. *)
Lemma quotient_slice nEvents numSets (n : nat) k :
  0 <= nEvents -> 1 <= numSets ->
  0 <= k < nEvents * Z.of_nat n / numSets ->
  exists i, 0 <= i < Z.of_nat n /\
    nEvents * i / numSets <= k < nEvents * (i + 1) / numSets.
Proof.
  intros Hn Hs. induction n as [|n IH]; intros Hk.
  - rewrite Z.mul_0_r, Z.div_0_l in Hk by lia. lia.
  - destruct (Z_lt_le_dec k (nEvents * Z.of_nat n / numSets)) as [Hlt|Hge].
    + destruct IH as (i & Hi & Hik); [lia|]. exists i. split; [lia|done].
    + exists (Z.of_nat n). split; [lia|].
      replace (Z.of_nat n + 1) with (Z.of_nat (S n)) by lia. lia.
Qed.

Lemma nLast_exact nEvents setNum numSets :
  0 <= nEvents -> 0 <= setNum < numSets -> 1 <= numSets <= Int.max ->
  nEvents * numSets <= Int.max ->
  nLast nEvents setNum numSets = nEvents * (setNum + 1) / numSets.
Proof.
  intros Hn Hs Hk Hmax. rewrite nLast_nFirst.
  - apply nFirst_exact; lia.
  - unfold Int.inRange, Int.min, Int.max in *. lia.
Qed.

(** C1 (amended): as long as the product [nEvents * numSets] fits in an
    [Int_t], the slices of a Slave-mode evaluation are the truncated
    quotients [nEvents*setNum/numSets] and [nEvents*(setNum+1)/numSets];
    the first slice starts at 0, the last one ends at [nEvents], each slice
    starts where the previous one ends, and every entry of [0, nEvents)
    lies in exactly one slice; a Slave instance evaluates exactly its
    slice. *)
Theorem C1_slices_cover (nEvents numSets : Z) :
  0 <= nEvents -> 1 <= numSets <= Int.max -> nEvents * numSets <= Int.max ->
  nFirst nEvents 0 numSets = 0 /\
  nLast nEvents (numSets - 1) numSets = nEvents /\
  (forall i, 1 <= i < numSets ->
     nFirst nEvents i numSets = nLast nEvents (i - 1) numSets) /\
  (forall setNum, 0 <= setNum < numSets ->
     nFirst nEvents setNum numSets = nEvents * setNum / numSets /\
     nLast nEvents setNum numSets = nEvents * (setNum + 1) / numSets /\
     0 <= nFirst nEvents setNum numSets /\
     nFirst nEvents setNum numSets <= nLast nEvents setNum numSets /\
     nLast nEvents setNum numSets <= nEvents) /\
  (forall k, 0 <= k < nEvents ->
     exists setNum, 0 <= setNum < numSets /\ inSlice nEvents numSets setNum k /\
       forall setNum', 0 <= setNum' < numSets ->
         inSlice nEvents numSets setNum' k -> setNum' = setNum) /\
  (forall this : RooAbsGoodnessOfFit,
     _gofOpMode this = Slave -> _nEvents this = nEvents ->
     _numSets this = numSets -> 0 <= _setNum this < numSets ->
     Evaluate this
     = ([], Returned (set_init true this,
                      evaluatePartition (_pdf this) (_data this) (_projDeps this)
                        (_simCount this)
                        (nEvents * _setNum this / numSets)
                        (nEvents * (_setNum this + 1) / numSets)))).
Proof.
  intros Hn Hs Hmax.
  assert (Hfirst : forall s, 0 <= s <= numSets ->
            nFirst nEvents s numSets = nEvents * s / numSets)
    by (intros; apply nFirst_exact; lia).
  assert (Hlast : forall s, 0 <= s < numSets ->
            nLast nEvents s numSets = nEvents * (s + 1) / numSets)
    by (intros; apply nLast_exact; lia).
  assert (Hfull : nEvents * numSets / numSets = nEvents)
    by (apply Z.div_mul; lia).
  assert (Hzero : nEvents * 0 / numSets = 0)
    by (rewrite Z.mul_0_r; apply Z.div_0_l; lia).
  repeat split.
  - rewrite Hfirst by lia. exact Hzero.
  - rewrite Hlast by lia. now replace (numSets - 1 + 1) with numSets by lia.
  - intros i Hi. rewrite Hfirst, Hlast by lia.
    now replace (i - 1 + 1) with i by lia.
  - now apply Hfirst; lia.
  - now apply Hlast.
  - rewrite Hfirst by lia. rewrite <- Hzero at 1.
    apply quotient_mono; lia.
  - rewrite Hfirst, Hlast by lia. apply quotient_mono; lia.
  - rewrite Hlast by lia. rewrite <- Hfull at 2. apply quotient_mono; lia.
  - intros k Hk.
    destruct (quotient_slice nEvents numSets (Z.to_nat numSets) k)
      as (i & Hi & Hik); [lia|lia|rewrite Z2Nat.id, Hfull by lia; lia|].
    rewrite Z2Nat.id in Hi by lia.
    exists i. split; [done|]. split.
    { unfold inSlice. rewrite Hfirst, Hlast by lia. exact Hik. }
    intros j Hj. unfold inSlice. rewrite Hfirst, Hlast by lia. intros Hjk.
    destruct (Z.lt_total j i) as [Hlt|[Heq|Hgt]]; [|done|].
    + pose proof (quotient_mono nEvents numSets (j + 1) i). lia.
    + pose proof (quotient_mono nEvents numSets (i + 1) j). lia.
  - intros this Hmode <- <- Hset.
    rewrite <- Hfirst, <- Hlast by lia. apply evaluate_Slave; [done|lia].
Qed.

(** ** Members that the setters leave alone *)

Lemma members_set_init v this :
  _init (set_init v this) = v /\
  _gofOpMode (set_init v this) = _gofOpMode this /\
  _gofArray (set_init v this) = _gofArray this /\
  _mpfeArray (set_init v this) = _mpfeArray this /\
  _nGof (set_init v this) = _nGof this /\
  _nCPU (set_init v this) = _nCPU this.
Proof. now destruct this as [[] ga ma]. Qed.

Lemma members_set_partition a b this :
  _setNum (set_partition a b this) = a /\
  _numSets (set_partition a b this) = b /\
  _gofOpMode (set_partition a b this) = _gofOpMode this /\
  _init (set_partition a b this) = _init this.
Proof. now destruct this as [[] ga ma]. Qed.

Lemma members_set_gofArray ga this :
  _gofArray (set_gofArray ga this) = ga /\
  members (set_gofArray ga this) = members this /\
  _mpfeArray (set_gofArray ga this) = _mpfeArray this.
Proof. now destruct this as [m ga0 ma]. Qed.

Lemma members_set_mpfeArray ma this :
  _mpfeArray (set_mpfeArray ma this) = ma /\
  members (set_mpfeArray ma this) = members this /\
  _gofArray (set_mpfeArray ma this) = _gofArray this.
Proof. now destruct this as [m ga ma0]. Qed.

Lemma set_gofArray_id this : set_gofArray (_gofArray this) this = this.
Proof. now destruct this. Qed.

Lemma set_mpfeArray_id this : set_mpfeArray (_mpfeArray this) this = this.
Proof. now destruct this. Qed.

(** ** initialize *)

Lemma initialize_done callee this :
  _init this = true -> initialize callee this = ([], Returned (this, false)).
Proof. intros H. unfold initialize. now rewrite H. Qed.

Lemma initialize_returns callee this tr this' b :
  initialize callee this = (tr, Returned (this', b)) ->
  b = false /\ _init this' = true.
Proof.
  unfold initialize. destruct (_init this) eqn:E.
  - now intros [= <- <- <-].
  - intros (tr1 & e & tr2 & _ & [= _ <- <-] & _)%bind_inv.
    split; [done|]. apply members_set_init.
Qed.

(** C10: [initialize] returns [kFALSE] whenever it returns: on the first
    call, which performs the set-up of the mode and leaves [_init] set, as
    well as on a later call, which does nothing. *)
Theorem C10_initialize_returns_kFALSE (this : RooAbsGoodnessOfFit)
  (tr : list Event) (this' : RooAbsGoodnessOfFit) (b : bool) :
  Initialize this = (tr, Returned (this', b)) ->
  b = false /\ _init this' = true /\
  (_init this = true -> tr = [] /\ this' = this).
Proof.
  intros H. unfold Initialize in H. split; [|split].
  - now apply initialize_returns in H.
  - now apply initialize_returns in H.
  - intros Hinit. rewrite initialize_done in H by done. now injection H as <- <-.
Qed.

(** ** A split that fails *)

Lemma initSimMode_split_fails callee nm simCat l data projDeps this :
  split data simCat = None ->
  initSimMode callee (RooSimultaneous nm simCat l) data projDeps this
  = ([Cout (splitAbortMessage this)], SoftAbort).
Proof. intros H. unfold initSimMode. now rewrite H. Qed.

Lemma initialize_split_fails callee nm simCat l this :
  _gofOpMode this = SimMaster -> _init this = false ->
  _pdf this = RooSimultaneous nm simCat l -> split (_data this) simCat = None ->
  initialize callee this = ([Cout (splitAbortMessage this)], SoftAbort).
Proof.
  intros Hm Hi Hp Hs. unfold initialize. rewrite Hi, Hm, Hp.
  now rewrite initSimMode_split_fails.
Qed.

(** C4: when the split of the dataset by the index category yields no list,
    the initialisation of a SimMaster instance is interrupted by the
    unrecoverable-error signal, and so is the evaluation that triggered it;
    all that happened before is the one line of diagnostics: no engine was
    built by the factory. *)
Theorem C4_split_failure_aborts (this : RooAbsGoodnessOfFit) (nm : string)
  (simCat : RooAbsCategoryLValue) (l : list (string * RooAbsPdf)) :
  _gofOpMode this = SimMaster -> _init this = false ->
  _pdf this = RooSimultaneous nm simCat l -> split (_data this) simCat = None ->
  exists tr,
    Initialize this = (tr, SoftAbort) /\
    Evaluate this = (tr, SoftAbort) /\
    tr = [Cout (splitAbortMessage this)] /\
    forall name, Create name ∉ tr.
Proof.
  intros Hm Hi Hp Hs. exists [Cout (splitAbortMessage this)].
  split; [|split; [|split]].
  - unfold Initialize. now apply (initialize_split_fails _ nm simCat l).
  - unfold Evaluate, evaluate. rewrite Hi. cbn [negb].
    now rewrite (initialize_split_fails _ nm simCat l).
  - reflexivity.
  - intros name [=]%list_elem_of_singleton.
Qed.

(** ** setMPSet *)

(** C7 (amended): [setMPSet] checks nothing. Whatever the two integers, an
    instance that is not a SimMaster records them as given and returns
    without any diagnostic. *)
Theorem C7_setMPSet_records_unchecked (setNum numSets : Z)
  (this : RooAbsGoodnessOfFit) :
  _gofOpMode this <> SimMaster ->
  SetMPSet setNum numSets this
  = ([], Returned (set_partition setNum numSets this)) /\
  _setNum (set_partition setNum numSets this) = setNum /\
  _numSets (set_partition setNum numSets this) = numSets.
Proof.
  intros Hm. split; [|split; apply members_set_partition].
  unfold SetMPSet, setMPSet.
  replace (_gofOpMode (set_partition setNum numSets this)) with (_gofOpMode this)
    by (symmetry; apply members_set_partition).
  now destruct (_gofOpMode this).
Qed.

(** ** The operation mode never changes *)

Lemma wp_any {A : Type} (m : M A) : wp True m (fun _ => True).
Proof. unfold wp. now destruct m as [tr [a| |u|]]. Qed.

Lemma mode_updMembers f this :
  (forall m, m_gofOpMode (f m) = m_gofOpMode m) ->
  _gofOpMode (updMembers f this) = _gofOpMode this.
Proof. intros H. destruct this as [m ga ma]. apply H. Qed.

Lemma mode_set_gofArray ga this :
  _gofOpMode (set_gofArray ga this) = _gofOpMode this.
Proof. now destruct this. Qed.

Lemma mode_set_mpfeArray ma this :
  _gofOpMode (set_mpfeArray ma this) = _gofOpMode this.
Proof. now destruct this. Qed.

(** What the initialisation keeps: any function of the members that the
    assignments to [_nGof] and [_init] leave alone. *)
Section Kept.

Context {A : Type} (proj : RooAbsGoodnessOfFit -> A).
Hypothesis proj_members : forall e e', members e = members e' -> proj e = proj e'.
Hypothesis proj_set_nGof : forall v e, proj (set_nGof v e) = proj e.
Hypothesis proj_set_init : forall v e, proj (set_init v e) = proj e.

Lemma kept_set_gofArray ga this : proj (set_gofArray ga this) = proj this.
Proof using proj_members. apply proj_members. now destruct this. Qed.

Lemma kept_set_mpfeArray ma this : proj (set_mpfeArray ma this) = proj this.
Proof using proj_members. apply proj_members. now destruct this. Qed.

Lemma kept_countUsedStates l dsl types this :
  proj (countUsedStates l dsl types this) = proj this.
Proof using proj_set_nGof.
  unfold countUsedStates.
  transitivity (proj (set_nGof 0 this)); [|apply proj_set_nGof].
  generalize (set_nGof 0 this). clear this.
  induction types as [|type types IH]; intros this; simpl; [done|].
  rewrite IH. destruct (countsAsUsed l dsl type); [apply proj_set_nGof|done].
Qed.

Lemma initSimMode_kept callee simpdf data projDeps this :
  wp True (initSimMode callee simpdf data projDeps this)
    (fun this' => proj this' = proj this).
Proof using proj_members proj_set_nGof.
  unfold initSimMode. destruct simpdf as [|nm simCat l]; [apply wp_undefined|].
  apply wp_bind. eapply wp_mono; [apply wp_any|]. intros dsetList _.
  apply wp_bind. eapply wp_mono.
  { apply (wp_whileNext True
             (fun s : Z * RooAbsGoodnessOfFit => proj s.2 = proj this)).
    - simpl. now rewrite kept_set_gofArray, kept_countUsedStates.
    - intros type [i e] _ He. simpl in He.
      destruct (getPdf l type) as [pdf|]; [|now apply wp_ret].
      destruct (FindObject dsetList type) as [dset|].
      2:{ apply wp_bind. apply wp_cout. now apply wp_ret. }
      apply wp_bind. apply wp_cout.
      apply wp_bind. eapply wp_mono; [apply wp_any|]. intros gof _.
      apply wp_bind. eapply wp_mono; [apply wp_any|]. intros ga _.
      apply wp_bind. eapply wp_mono; [apply wp_any|]. intros ga1 _.
      apply wp_bind. eapply wp_mono; [apply wp_any|]. intros ga2 _.
      apply wp_ret. simpl. now rewrite kept_set_gofArray. }
  intros [i e] He. now apply wp_ret.
Qed.

Lemma initMPMode_kept callee pdf data projDeps this :
  wp True (initMPMode callee pdf data projDeps this)
    (fun this' => proj this' = proj this).
Proof using proj_members.
  unfold initMPMode.
  apply wp_bind. eapply wp_mono; [apply wp_any|]. intros gof0 _.
  apply wp_bind. eapply wp_mono.
  { apply (wp_For True
             (fun s : RooAbsGoodnessOfFit * RooAbsGoodnessOfFit =>
                proj s.2 = proj this)).
    - simpl. now rewrite kept_set_mpfeArray.
    - intros i [gof e] He. simpl in He.
      apply wp_bind. eapply wp_mono; [apply wp_any|]. intros gof' _.
      apply wp_bind. eapply wp_mono; [apply wp_any|]. intros _ _.
      apply wp_bind. eapply wp_mono; [apply wp_any|]. intros mpfe _.
      apply wp_bind. eapply wp_mono; [apply wp_any|]. intros ma _.
      apply wp_bind. eapply wp_mono; [apply wp_any|]. intros ma1 _.
      apply wp_ret. simpl. now rewrite kept_set_mpfeArray. }
  intros [gof e] He. now apply wp_ret.
Qed.

Lemma initialize_kept callee this :
  wp True (initialize callee this) (fun r => proj r.1 = proj this).
Proof using proj_members proj_set_nGof proj_set_init.
  unfold initialize. destruct (_init this); [now apply wp_ret|].
  apply wp_bind.
  eapply (wp_mono _ _ (fun this' => proj this' = proj this)).
  - destruct (_gofOpMode this) eqn:Em.
    + apply initSimMode_kept.
    + apply initMPMode_kept.
    + now apply wp_ret.
  - intros e He. apply wp_ret. simpl. now rewrite proj_set_init.
Qed.

End Kept.

Lemma initialize_mode callee this :
  wp True (initialize callee this)
    (fun r => _gofOpMode r.1 = _gofOpMode this).
Proof.
  apply (initialize_kept _gofOpMode).
  - intros e e' H. unfold _gofOpMode. now rewrite H.
  - intros v e. now apply mode_updMembers.
  - intros v e. now apply mode_updMembers.
Qed.

Lemma initialize_notified callee this :
  wp True (initialize callee this) (fun r => _notified r.1 = _notified this).
Proof.
  apply (initialize_kept _notified).
  - intros e e' H. unfold _notified. now rewrite H.
  - intros v e. now destruct e as [[] ga ma].
  - intros v e. now destruct e as [[] ga ma].
Qed.

Lemma evaluate_mode callee this :
  wp True (evaluate callee this) (fun r => _gofOpMode r.1 = _gofOpMode this).
Proof.
  unfold evaluate. apply wp_bind.
  eapply (wp_mono _ _ (fun this' => _gofOpMode this' = _gofOpMode this)).
  { destruct (negb (_init this)); [|now apply wp_ret].
    apply wp_bind. eapply wp_mono; [apply initialize_mode|].
    intros [e b] He. apply wp_ret. exact He. }
  intros e He. destruct (_gofOpMode e) eqn:Em.
  - apply wp_bind. eapply wp_mono; [apply wp_any|]. intros [ga v] _.
    apply wp_ret. simpl. rewrite mode_set_gofArray. congruence.
  - apply wp_bind. eapply wp_mono; [apply wp_any|]. intros ma _.
    apply wp_bind. eapply wp_mono; [apply wp_any|]. intros [ma' v] _.
    apply wp_ret. simpl. rewrite mode_set_mpfeArray. congruence.
  - destruct (_numSets e =? 0); [apply wp_undefined|].
    apply wp_ret. simpl. congruence.
Qed.

Lemma redirectServersHook_mode callee l b1 b2 b3 this :
  wp True (redirectServersHook callee l b1 b2 b3 this)
    (fun r => _gofOpMode r.1 = _gofOpMode this).
Proof.
  unfold redirectServersHook.
  set (this' := notify _ this).
  assert (H' : _gofOpMode this' = _gofOpMode this)
    by (subst this'; now apply mode_updMembers).
  clearbody this'. destruct (_gofOpMode this') eqn:Em;
    [|apply wp_ret; simpl; congruence..].
  apply wp_bind. eapply wp_mono; [apply wp_any|]. intros ga _.
  apply wp_ret. simpl. rewrite mode_set_gofArray. congruence.
Qed.

Lemma constOptimize_mode callee opcode this :
  wp True (constOptimize callee opcode this)
    (fun this' => _gofOpMode this' = _gofOpMode this).
Proof.
  unfold constOptimize. apply wp_bind.
  eapply wp_mono; [apply initialize_mode|]. intros [e b] He. simpl in He.
  assert (H' : _gofOpMode e = _gofOpMode this)
    by (rewrite He; now apply mode_updMembers).
  destruct (_gofOpMode e) eqn:Em; [| |apply wp_ret; congruence].
  - apply wp_bind. eapply wp_mono; [apply wp_any|]. intros ga _.
    apply wp_ret. rewrite mode_set_gofArray. congruence.
  - apply wp_bind. eapply wp_mono; [apply wp_any|]. intros ma _.
    apply wp_ret. rewrite mode_set_mpfeArray. congruence.
Qed.

Lemma setMPSet_mode callee a b this :
  wp True (setMPSet callee a b this)
    (fun this' => _gofOpMode this' = _gofOpMode this).
Proof.
  unfold setMPSet.
  set (this' := set_partition _ _ this).
  assert (H' : _gofOpMode this' = _gofOpMode this)
    by (subst this'; now apply mode_updMembers).
  clearbody this'. destruct (_gofOpMode this') eqn:Em;
    [|apply wp_ret; congruence..].
  apply wp_bind. eapply wp_mono; [apply initialize_mode|].
  intros [e b0] He. simpl in He.
  apply wp_bind. eapply wp_mono; [apply wp_any|]. intros ga _.
  apply wp_ret. rewrite mode_set_gofArray. congruence.
Qed.

Lemma copy_mode callee other name :
  wp True (RooAbsGoodnessOfFit_copy callee other name)
    (fun this' => _gofOpMode this' = _gofOpMode other).
Proof.
  unfold RooAbsGoodnessOfFit_copy.
  match goal with |- context [GOF ?m [] []] => set (this := GOF m [] []) end.
  assert (Hthis : _gofOpMode this = _gofOpMode other) by done.
  clearbody this.
  apply wp_bind.
  eapply (wp_mono _ _ (fun this' => _gofOpMode this' = _gofOpMode other)).
  { case_decide; [|now apply wp_ret].
    apply wp_bind. eapply wp_mono; [apply wp_any|]. intros ga _.
    apply wp_ret. rewrite !mode_set_gofArray. rewrite <- Hthis.
    now apply mode_updMembers. }
  clear this Hthis. intros this Hthis.
  apply wp_bind.
  eapply (wp_mono _ _ (fun this' => _gofOpMode this' = _gofOpMode other)).
  { case_decide; [|now apply wp_ret].
    apply wp_bind. eapply wp_mono; [apply wp_any|]. intros ma _.
    apply wp_ret. rewrite !mode_set_mpfeArray. rewrite <- Hthis.
    now apply mode_updMembers. }
  intros this' H'. now apply wp_ret.
Qed.

Lemma perform_mode c this :
  wp True (perform c this) (fun this' => _gofOpMode this' = _gofOpMode this).
Proof.
  destruct c; unfold perform.
  - apply wp_bind. eapply wp_mono; [apply evaluate_mode|].
    intros [e v] He. apply wp_ret. exact He.
  - apply wp_bind. eapply wp_mono; [apply initialize_mode|].
    intros [e v] He. apply wp_ret. exact He.
  - apply wp_bind. eapply wp_mono; [apply redirectServersHook_mode|].
    intros [e v] He. apply wp_ret. exact He.
  - apply constOptimize_mode.
  - apply setMPSet_mode.
  - apply wp_ret. now apply mode_updMembers.
Qed.

Lemma performAll_mode cs this :
  wp True (performAll cs this) (fun this' => _gofOpMode this' = _gofOpMode this).
Proof.
  revert this. induction cs as [|c cs IH]; intros this; simpl.
  - now apply wp_ret.
  - apply wp_bind. eapply wp_mono; [apply perform_mode|]. intros e He.
    eapply wp_mono; [apply IH|]. simpl. intros e' He'. congruence.
Qed.

(** C6: the constructor chooses the mode (MPMaster when more than one
    process is requested, else SimMaster for a simultaneous model, else
    Slave), and whatever sequence of operations the instance then goes
    through, it is still in that mode; a copy is in the mode of its
    original. *)
Theorem C6_mode_fixed_at_construction (name title : string) (pdf : RooAbsPdf)
  (data : RooAbsData) (projDeps : RooArgSet) (nCPU : Z) (calls : list Call)
  (tr : list Event) (this' : RooAbsGoodnessOfFit) :
  performAll calls (RooAbsGoodnessOfFit_new name title pdf data projDeps nCPU)
  = (tr, Returned this') ->
  let mode :=
    if 1 <? nCPU then MPMaster
    else if isSimultaneous pdf then SimMaster else Slave in
  _gofOpMode (RooAbsGoodnessOfFit_new name title pdf data projDeps nCPU) = mode /\
  _gofOpMode this' = mode /\
  (forall tr' copy newname,
     Copy this' newname = (tr', Returned copy) -> _gofOpMode copy = mode).
Proof.
  intros H mode.
  assert (Hnew : _gofOpMode (RooAbsGoodnessOfFit_new name title pdf data projDeps nCPU)
                 = mode) by reflexivity.
  assert (H' : _gofOpMode this' = mode).
  { rewrite <- Hnew. exact (wp_returned _ _ _ _ _ (performAll_mode _ _) H). }
  split; [done|]. split; [done|].
  intros tr' copy newname Hc. rewrite <- H'.
  exact (wp_returned _ _ _ _ _ (copy_mode _ _ _) Hc).
Qed.

(** ** A second evaluation *)

Lemma combinedValue_unfold {T : Type} (getVal : T -> M (T * Double_t)) a n :
  combinedValue getVal a n = forRange (Z.to_nat n) O (cvBody getVal) (a, Dzero).
Proof. reflexivity. Qed.

Lemma readSlot_inv {T : Type} i (a : list (option T)) tr x :
  readSlot i a = (tr, Returned x) -> tr = [] /\ a !! i = Some (Some x).
Proof.
  unfold readSlot. destruct (a !! i) as [[y|]|]; try discriminate.
  now intros [= <- <-].
Qed.

Lemma readSlot_lookup {T : Type} i (a : list (option T)) x :
  a !! i = Some (Some x) -> readSlot i a = ([], Returned x).
Proof. unfold readSlot. now intros ->. Qed.

Lemma cvBody_inv {T : Type} (getVal : T -> M (T * Double_t)) i arr sum tr s :
  cvBody getVal i (arr, sum) = (tr, Returned s) ->
  exists o o' v,
    arr !! i = Some (Some o) /\ getVal o = (tr, Returned (o', v)) /\
    s = (<[i := Some o']> arr, Dadd sum v).
Proof.
  unfold cvBody.
  intros (tr1 & o & tr2 & [-> Hi]%readSlot_inv & H & ->)%bind_inv.
  apply bind_inv in H as (tr3 & [o' v] & tr4 & Hg & [= <- <-] & ->).
  exists o, o', v. rewrite app_nil_r. auto.
Qed.

Lemma cvBody_settled {T : Type} (getVal : T -> M (T * Double_t)) i arr sum o v :
  arr !! i = Some (Some o) -> getVal o = ([], Returned (o, v)) ->
  cvBody getVal i (arr, sum) = ([], Returned (arr, Dadd sum v)).
Proof.
  intros Hi Hg. unfold cvBody.
  rewrite (readSlot_lookup _ _ _ Hi), bind_pure, Hg, bind_pure.
  now rewrite list_insert_id by exact Hi.
Qed.

Lemma cv_settles {T : Type} (getVal : T -> M (T * Double_t)) :
  settles getVal ->
  forall count start arr sum tr arr' sum',
    forRange count start (cvBody getVal) (arr, sum) = (tr, Returned (arr', sum')) ->
    (forall i, (i < start)%nat -> arr' !! i = arr !! i) /\
    (forall arr2,
       (forall i, (start <= i < start + count)%nat -> arr2 !! i = arr' !! i) ->
       forRange count start (cvBody getVal) (arr2, sum)
       = ([], Returned (arr2, sum'))) /\
    (forall i, (start <= i < start + count)%nat ->
       exists x, arr' !! i = Some (Some x)).
Proof.
  intros Hs. induction count as [|count IH]; intros start arr sum tr arr' sum' H.
  - injection H as <- <- <-. split; [done|]. split; [|intros; lia].
    intros arr2 _. reflexivity.
  - cbn [forRange] in H.
    apply bind_inv in H as (tr1 & s1 & tr2 & Hbody & Hrest & ->).
    apply cvBody_inv in Hbody as (o & o' & v & Hi & Hg & ->).
    destruct (IH _ _ _ _ _ _ Hrest) as (Hframe & Hagain & Hfilled).
    assert (Hstart : arr' !! start = Some (Some o')).
    { rewrite Hframe by lia. apply list_lookup_insert_eq.
      now apply lookup_lt_Some in Hi. }
    split; [|split].
    + intros i Hlt. rewrite Hframe by lia. apply list_lookup_insert_ne. lia.
    + intros arr2 H2. cbn [forRange].
      assert (H2s : arr2 !! start = Some (Some o'))
        by (rewrite H2 by lia; exact Hstart).
      rewrite (cvBody_settled getVal _ _ _ _ v H2s (Hs _ _ _ _ Hg)), bind_pure.
      apply Hagain. intros i Hi'. apply H2. lia.
    + intros i Hi'. destruct (decide (i = start)) as [->|Hne]; [eauto|].
      apply Hfilled. lia.
Qed.

Lemma combinedValue_settles {T : Type} (getVal : T -> M (T * Double_t)) a n tr a' v :
  settles getVal ->
  combinedValue getVal a n = (tr, Returned (a', v)) ->
  combinedValue getVal a' n = ([], Returned (a', v)) /\
  (forall i, (i < Z.to_nat n)%nat -> exists x, a' !! i = Some (Some x)).
Proof.
  intros Hs H. rewrite combinedValue_unfold in *.
  destruct (cv_settles getVal Hs _ _ _ _ _ _ _ H) as (_ & Hagain & Hfilled).
  split; [now apply Hagain|]. intros i Hi. apply Hfilled. lia.
Qed.

Lemma atSlot_calculate i (a : list (option RooRealMPFE)) x :
  a !! i = Some (Some x) -> atSlot false mpfe_calculate i a = ([], Returned a).
Proof.
  intros Hx. unfold atSlot. rewrite Hx. unfold mpfe_calculate.
  rewrite bind_ret. now rewrite list_insert_id by exact Hx.
Qed.

Lemma calculate_loop count start (a : list (option RooRealMPFE)) :
  (forall i, (start <= i < start + count)%nat -> exists x, a !! i = Some (Some x)) ->
  forRange count start (atSlot false mpfe_calculate) a = ([], Returned a).
Proof.
  revert start. induction count as [|count IH]; intros start H; [done|].
  cbn [forRange]. destruct (H start) as [x Hx]; [lia|].
  rewrite (atSlot_calculate _ _ _ Hx), bind_pure. apply IH. intros i Hi. apply H. lia.
Qed.

Lemma mpfe_getVal_settles callee :
  settles (call_getVal callee) -> settles (mpfe_getVal callee).
Proof.
  intros Hs fe tr fe' v. unfold mpfe_getVal.
  intros (tr1 & [g w] & tr2 & Hg & [= <- <- <-] & ->)%bind_inv.
  destruct fe. cbn. rewrite (Hs _ _ _ _ Hg). now rewrite bind_pure.
Qed.

Lemma evaluate_init_done callee this tr this' :
  (if negb (_init this)
   then '(this0, _) ← initialize callee this; mret this0
   else mret this) = (tr, Returned this') ->
  _init this' = true.
Proof.
  destruct (_init this) eqn:E; cbn [negb].
  - now intros [= <- <-].
  - intros (tr1 & [e b] & tr2 & Hi & [= <- <-] & ->)%bind_inv.
    now apply initialize_returns in Hi.
Qed.

Lemma evaluate_settles callee :
  settles (call_getVal callee) -> settles (evaluate callee).
Proof.
  intros Hs this tr this1 v H. unfold evaluate in H.
  apply bind_inv in H as (tr1 & e & tr2 & Hinit & H & ->).
  apply evaluate_init_done in Hinit. clear tr1 this.
  unfold evaluate. destruct (_gofOpMode e) eqn:Em.
  - apply bind_inv in H as (tr3 & [ga w] & tr4 & Hcv & [= <- <- <-] & ->).
    destruct (combinedValue_settles _ _ _ _ _ _ Hs Hcv) as [Hagain _].
    destruct e as [m ga0 ma]. unfold _init, _gofOpMode, _nGof in *. cbn in *.
    rewrite Hinit. cbn [negb]. rewrite bind_ret. cbn [members _gofArray].
    now rewrite Em, Hagain, bind_pure.
  - apply bind_inv in H as (tr3 & ma1 & tr4 & Hcalc & H & ->).
    apply bind_inv in H as (tr5 & [ma2 w] & tr6 & Hcv & [= <- <- <-] & ->).
    destruct (combinedValue_settles _ _ _ _ _ _ (mpfe_getVal_settles _ Hs) Hcv)
      as [Hagain Hfilled].
    destruct e as [m ga ma]. unfold _init, _gofOpMode, _nCPU in *. cbn in *.
    rewrite Hinit. cbn [negb]. rewrite bind_ret. cbn [members _mpfeArray].
    rewrite Em. unfold For.
    rewrite (calculate_loop _ _ ma2) by (intros i Hi; apply Hfilled; lia).
    now rewrite bind_pure, Hagain, bind_pure.
  - destruct (Z.eqb_spec (_numSets e) 0) as [|Hne]; [discriminate|].
    injection H as <- <- <-. rewrite Hinit. cbn [negb]. rewrite bind_ret, Em.
    destruct (Z.eqb_spec (_numSets e) 0) as [|_]; [done|]. reflexivity.
Qed.

Lemma dispatch_settles n : settles (call_getVal (dispatch n)).
Proof.
  induction n as [|n IH]; [intros o tr o' v [=]|].
  cbn [dispatch call_getVal]. now apply evaluate_settles.
Qed.

Lemma evaluate_returns_init callee this tr this' v :
  evaluate callee this = (tr, Returned (this', v)) -> _init this' = true.
Proof.
  unfold evaluate.
  intros (tr1 & e & tr2 & Hinit%evaluate_init_done & H & ->)%bind_inv.
  destruct (_gofOpMode e).
  - apply bind_inv in H as (tr3 & [ga w] & tr4 & _ & [= <- <- <-] & _).
    now destruct e.
  - apply bind_inv in H as (tr3 & ma1 & tr4 & _ & H & _).
    apply bind_inv in H as (tr5 & [ma2 w] & tr6 & _ & [= <- <- <-] & _).
    now destruct e.
  - destruct (_numSets e =? 0); [discriminate|]. now injection H as <- <- <-.
Qed.

(** C5: when [evaluate()] has returned a value, calling it again on the
    instance returns the same value; the second call leaves the instance as
    it is and neither prints nor builds anything, so that the set-up of the
    first call is the only one; and [initialize()] called on the initialised
    instance does nothing and returns [kFALSE]. *)
Theorem C5_evaluate_twice (this : RooAbsGoodnessOfFit) (tr : list Event)
  (this1 : RooAbsGoodnessOfFit) (v : Double_t) :
  Evaluate this = (tr, Returned (this1, v)) ->
  Evaluate this1 = ([], Returned (this1, v)) /\
  _init this1 = true /\
  Initialize this1 = ([], Returned (this1, false)).
Proof.
  intros H.
  assert (Hinit : _init this1 = true)
    by (unfold Evaluate in H; now apply evaluate_returns_init in H).
  split; [|split; [done|]].
  - pose proof (wp_returned _ _ _ _ _ (Evaluate_served this) H) as Hrank.
    simpl in Hrank. rewrite <- (evaluate_stable (rank this)) by done.
    unfold Evaluate in H.
    exact (evaluate_settles _ (dispatch_settles _) _ _ _ _ H).
  - unfold Initialize. now apply initialize_done.
Qed.

(** ** The children of a SimMaster *)

Lemma initSimMode_unfold callee nm simCat l data projDeps this dsetList :
  split data simCat = Some dsetList ->
  initSimMode callee (RooSimultaneous nm simCat l) data projDeps this
  = ('(n, this) ← whileNext (catTypes simCat) (simBody callee l dsetList projDeps)
                    (0, set_gofArray
                          (newArray
                             (_nGof (countUsedStates l dsetList (catTypes simCat) this)))
                          (countUsedStates l dsetList (catTypes simCat) this));
     mret this).
Proof. intros H. unfold initSimMode. rewrite H, bind_ret. reflexivity. Qed.

Lemma bind_eq {A B : Type} (m : M A) (f : A -> M B) tr1 a tr2 o :
  m = (tr1, Returned a) -> f a = (tr2, o) -> m ≫= f = (tr1 ++ tr2, o).
Proof. intros -> H. now rewrite bind_returned, H. Qed.

Lemma recursiveRedirectServers_fresh callee ps b1 b2 c :
  _nGof c = 0 -> _gofArray c = [] ->
  recursiveRedirectServers callee ps b1 b2 c
  = ([], Returned (notify (ServerRedirect ps b1 b2 true) c)).
Proof.
  intros Hn Ha. unfold recursiveRedirectServers, redirectServersHook.
  destruct c as [[] ga ma]. unfold _nGof, _gofArray, _gofOpMode in *.
  cbn in *. subst. destruct m_gofOpMode0; cbn; now rewrite ?bind_ret.
Qed.

Lemma dispatch_redirectsFresh k : redirectsFresh (dispatch (S k)).
Proof. intros ps b1 b2 c. apply recursiveRedirectServers_fresh. Qed.

Lemma set_nGof_twice a b this : set_nGof a (set_nGof b this) = set_nGof a this.
Proof. now destruct this as [[] ga ma]. Qed.

Lemma set_gofArray_twice a b this :
  set_gofArray a (set_gofArray b this) = set_gofArray a this.
Proof. now destruct this. Qed.

Lemma members_set_nGof v this :
  _nGof (set_nGof v this) = v /\
  _paramSet (set_nGof v this) = _paramSet this /\
  _gofArray (set_nGof v this) = _gofArray this.
Proof. now destruct this as [[] ga ma]. Qed.

(** The first pass counts the states that have a component and a subset. *)
Lemma countUsedStates_result l dsl types this :
  Z.of_nat (length types) <= Int.max ->
  countUsedStates l dsl types this
  = set_nGof (Z.of_nat (length (List.filter (countsAsUsed l dsl) types))) this.
Proof.
  intros Hlen. unfold countUsedStates.
  assert (H : forall types k e,
            Z.of_nat (k + length types) <= Int.max ->
            foldl (fun this type =>
                     if countsAsUsed l dsl type
                     then set_nGof (Int.add (_nGof this) 1) this else this)
                  (set_nGof (Z.of_nat k) e) types
            = set_nGof
                (Z.of_nat (k + length (List.filter (countsAsUsed l dsl) types))) e).
  { clear. induction types as [|type types IH]; intros k e Hk; simpl.
    - now rewrite Nat.add_0_r.
    - simpl in Hk. destruct (countsAsUsed l dsl type); simpl.
      + replace (_nGof (set_nGof (Z.of_nat k) e)) with (Z.of_nat k)
          by (symmetry; apply members_set_nGof).
        unfold Int.add. rewrite Int_wrap_inRange
          by (unfold Int.inRange, Int.min, Int.max in *; lia).
        rewrite set_nGof_twice.
        replace (Z.of_nat k + 1) with (Z.of_nat (S k)) by lia.
        rewrite IH by lia. f_equal. lia.
      + rewrite IH by lia. reflexivity. }
  apply (H types O this). simpl. lia.
Qed.

Lemma create_eq name title pdf data projDeps :
  create name title pdf data projDeps
  = ([Create name], Returned (RooAbsGoodnessOfFit_new name title pdf data projDeps 1)).
Proof. reflexivity. Qed.

Lemma storeSlot_middle {T : Type} (front tl : list (option T)) y x :
  storeSlot (length front) x (front ++ y :: tl)
  = ([], Returned (front ++ Some x :: tl)).
Proof.
  unfold storeSlot. rewrite decide_True by (rewrite length_app; simpl; lia).
  rewrite insert_app_r_alt by lia. now rewrite Nat.sub_diag.
Qed.

Lemma atSlot_middle {T : Type} guarded (f : T -> M T) (front tl : list (option T))
  x tr x' :
  f x = (tr, Returned x') ->
  atSlot guarded f (length front) (front ++ Some x :: tl)
  = (tr, Returned (front ++ Some x' :: tl)).
Proof.
  intros Hf. unfold atSlot. rewrite list_lookup_middle by done.
  rewrite Hf, bind_returned. cbn. rewrite app_nil_r.
  rewrite insert_app_r_alt by lia. now rewrite Nat.sub_diag.
Qed.

Lemma simBody_accept callee l dsl projDeps type n this front tl pdf dset :
  redirectsFresh callee ->
  getPdf l type = Some pdf -> FindObject dsl type = Some dset ->
  _gofArray this = front ++ None :: tl -> n = Z.of_nat (length front) ->
  n + 1 <= Int.max ->
  simBody callee l dsl projDeps type (n, this)
  = ([Cout (creatingMessage n type dset); Create type],
     Returned (n + 1,
               set_gofArray
                 (front ++ Some (slaveOf (_paramSet this) projDeps (_nGof this)
                                   type pdf dset) :: tl) this)).
Proof.
  intros Hc Hp Hd Ha -> Hn. unfold simBody. rewrite Hp, Hd, Ha, Nat2Z.id.
  etransitivity.
  { eapply bind_eq; [reflexivity|].
    eapply bind_eq; [apply create_eq|].
    eapply bind_eq; [apply storeSlot_middle|].
    eapply bind_eq; [apply atSlot_middle; reflexivity|].
    eapply bind_eq; [apply atSlot_middle; now apply Hc|].
    reflexivity. }
  cbn [app]. unfold Int.add. rewrite Int_wrap_inRange; [reflexivity|].
  unfold Int.inRange, Int.min, Int.max in *. lia.
Qed.

Lemma simBody_noData callee l dsl projDeps type n this pdf :
  getPdf l type = Some pdf -> FindObject dsl type = None ->
  simBody callee l dsl projDeps type (n, this)
  = ([Cout (noDataMessage type)], Returned (n, this)).
Proof. intros Hp Hd. unfold simBody. now rewrite Hp, Hd. Qed.

Lemma simBody_noPdf callee l dsl projDeps type n this :
  getPdf l type = None ->
  simBody callee l dsl projDeps type (n, this) = ([], Returned (n, this)).
Proof. intros Hp. unfold simBody. now rewrite Hp. Qed.

Lemma paramSet_set_gofArray ga this :
  _paramSet (set_gofArray ga this) = _paramSet this.
Proof. now destruct this. Qed.

Lemma nGof_set_gofArray ga this : _nGof (set_gofArray ga this) = _nGof this.
Proof. now destruct this. Qed.

Lemma gofArray_set_gofArray ga this : _gofArray (set_gofArray ga this) = ga.
Proof. now destruct this. Qed.

Lemma slaveFor_accept ps pd g l dsl type pdf dset :
  getPdf l type = Some pdf -> FindObject dsl type = Some dset ->
  slaveFor ps pd g l dsl type = Some (slaveOf ps pd g type pdf dset).
Proof. unfold slaveFor. now intros -> ->. Qed.

Lemma slaveFor_noData ps pd g l dsl type :
  FindObject dsl type = None -> slaveFor ps pd g l dsl type = None.
Proof. unfold slaveFor. intros ->. now destruct (getPdf l type). Qed.

Lemma slaveFor_noPdf ps pd g l dsl type :
  getPdf l type = None -> slaveFor ps pd g l dsl type = None.
Proof. unfold slaveFor. now intros ->. Qed.

Lemma secondPass callee l dsl projDeps :
  redirectsFresh callee ->
  forall types front r this n,
    _gofArray this = front ++ replicate r None ->
    n = Z.of_nat (length front) ->
    (length (omap (slaveFor (_paramSet this) projDeps (_nGof this) l dsl) types)
     <= r)%nat ->
    Z.of_nat (length front + length types) <= Int.max ->
    let slaves := omap (slaveFor (_paramSet this) projDeps (_nGof this) l dsl) types in
    whileNext types (simBody callee l dsl projDeps) (n, this)
    = (simTrace l dsl types n,
       Returned (n + Z.of_nat (length slaves),
                 set_gofArray
                   (front ++ (Some <$> slaves)
                      ++ replicate (r - length slaves) None) this)).
Proof.
  intros Hc. induction types as [|type types IH]; intros front r this n Ha Hn Hr Hmax.
  - simpl. rewrite Z.add_0_r, Nat.sub_0_r, <- Ha. now rewrite set_gofArray_id.
  - cbn zeta. cbn [whileNext omap list_omap simTrace].
    cbn [omap list_omap] in Hr.
    destruct (getPdf l type) as [pdf|] eqn:Hp;
      [destruct (FindObject dsl type) as [dset|] eqn:Hd|];
      [rewrite (slaveFor_accept _ _ _ _ _ _ _ _ Hp Hd) in Hr |- *
      |rewrite (slaveFor_noData _ _ _ _ _ _ Hd) in Hr |- *
      |rewrite (slaveFor_noPdf _ _ _ _ _ _ Hp) in Hr |- *].
    + cbn [length] in Hr. destruct r as [|r]; [lia|]. cbn [replicate] in Ha.
      set (slave := slaveOf (_paramSet this) projDeps (_nGof this) type pdf dset)
        in *.
      pose proof (IH (front ++ [Some slave]) r
                    (set_gofArray (front ++ Some slave :: replicate r None) this)
                    (n + 1)) as IH'.
      cbn zeta in IH'.
      rewrite paramSet_set_gofArray, nGof_set_gofArray, gofArray_set_gofArray,
        set_gofArray_twice in IH'.
      etransitivity.
      { eapply bind_eq; [eapply simBody_accept; eauto|].
        - simpl in Hmax. lia.
        - apply IH'.
          + now rewrite <- app_assoc.
          + rewrite length_app. simpl. lia.
          + lia.
          + rewrite length_app. simpl in *. lia. }
      cbn [length fmap list_fmap app Nat.sub]. rewrite <- !app_assoc. cbn [app].
      f_equal. f_equal. f_equal. lia.
    + etransitivity.
      { eapply bind_eq; [eapply simBody_noData; eassumption|].
        apply (IH front r); [done..|]. simpl in Hmax. lia. }
      reflexivity.
    + etransitivity.
      { eapply bind_eq; [eapply simBody_noPdf; eassumption|].
        apply (IH front r); [done..|]. simpl in Hmax. lia. }
      reflexivity.
Qed.

Lemma slaves_length ps pd g l dsl types :
  length (omap (slaveFor ps pd g l dsl) types)
  = length (List.filter (countsAsUsed l dsl) types).
Proof.
  induction types as [|type types IH]; [done|].
  cbn [omap list_omap List.filter]. unfold slaveFor at 1, countsAsUsed at 1.
  destruct (getPdf l type); [destruct (FindObject dsl type)|]; simpl; now rewrite IH.
Qed.

(** What [initSimMode] does when the split succeeds. *)
Lemma initSimMode_result callee nm simCat l data projDeps this dsl :
  redirectsFresh callee -> split data simCat = Some dsl ->
  Z.of_nat (length (catTypes simCat)) <= Int.max ->
  let nGof := Z.of_nat (length (List.filter (countsAsUsed l dsl) (catTypes simCat))) in
  initSimMode callee (RooSimultaneous nm simCat l) data projDeps this
  = (simTrace l dsl (catTypes simCat) 0,
     Returned
       (set_gofArray
          (Some <$> omap (slaveFor (_paramSet this) projDeps nGof l dsl)
                      (catTypes simCat))
          (set_nGof nGof this))).
Proof.
  intros Hc Hs Hmax nGof. rewrite (initSimMode_unfold _ _ _ _ _ _ _ _ Hs).
  rewrite countUsedStates_result by done. fold nGof.
  replace (_nGof (set_nGof nGof this)) with nGof
    by (symmetry; apply members_set_nGof).
  pose proof (secondPass callee l dsl projDeps Hc (catTypes simCat) []
                (Z.to_nat nGof)
                (set_gofArray (newArray nGof) (set_nGof nGof this)) 0) as H.
  cbn zeta in H.
  replace (_paramSet (set_gofArray (newArray nGof) (set_nGof nGof this)))
    with (_paramSet this) in H by now destruct this as [[] ? ?].
  replace (_nGof (set_gofArray (newArray nGof) (set_nGof nGof this)))
    with nGof in H by now destruct this as [[] ? ?].
  assert (Hlen : length (omap (slaveFor (_paramSet this) projDeps nGof l dsl)
                           (catTypes simCat)) = Z.to_nat nGof).
  { rewrite slaves_length. unfold nGof. now rewrite Nat2Z.id. }
  rewrite H; cycle 1.
  { now destruct this. }
  { reflexivity. }
  { lia. }
  { simpl. lia. }
  rewrite bind_returned. cbn [fst snd]. rewrite app_nil_r.
  rewrite Hlen, Nat.sub_diag. cbn [replicate app]. rewrite app_nil_r.
  now rewrite set_gofArray_twice.
Qed.

(** When every subset that the split lists holds entries, the states that
    [initSimMode] accepts are the populated ones. *)
Lemma populated_countsAsUsed l dsl type :
  Forall (fun d => 0 < numEntries d) dsl ->
  populated l dsl type = countsAsUsed l dsl type.
Proof.
  intros Hne. unfold populated, countsAsUsed, FindObject.
  destruct (getPdf l type) as [pdf|]; [|done].
  destruct (List.find _ dsl) as [d|] eqn:E.
  - apply List.find_some in E as [Hin Hname]. apply existsb_exists.
    exists d. split; [done|]. rewrite Hname. simpl. apply Z.ltb_lt.
    rewrite Forall_forall in Hne. apply Hne. now apply list_elem_of_In.
  - destruct (existsb _ dsl) eqn:Ex; [|done].
    apply existsb_exists in Ex as (d & Hin & Hd).
    apply andb_true_iff in Hd as [Hname _].
    now rewrite (List.find_none _ _ E d Hin) in Hname.
Qed.

Lemma slaves_lookup ps pd g l dsl types i type :
  List.filter (countsAsUsed l dsl) types !! i = Some type ->
  exists pdf dset,
    getPdf l type = Some pdf /\ FindObject dsl type = Some dset /\
    omap (slaveFor ps pd g l dsl) types !! i = Some (slaveOf ps pd g type pdf dset).
Proof.
  revert i. induction types as [|t types IH]; intros i; [done|].
  cbn [List.filter omap list_omap]. unfold countsAsUsed at 1, slaveFor at 1.
  destruct (getPdf l t) as [pdf|] eqn:Hp;
    [destruct (FindObject dsl t) as [dset|] eqn:Hd|]; try apply IH.
  destruct i as [|i]; [|apply IH].
  intros [= <-]. exists pdf, dset. auto.
Qed.

Lemma simTrace_noData l dsl types n type :
  type ∈ types -> is_Some (getPdf l type) -> FindObject dsl type = None ->
  Cout (noDataMessage type) ∈ simTrace l dsl types n.
Proof.
  intros Hin [pdf Hp] Hd. revert n.
  induction types as [|t types IH]; intros n; [now apply elem_of_nil in Hin|].
  cbn [simTrace]. apply elem_of_cons in Hin as [<-|Hin].
  - rewrite Hp, Hd. left.
  - destruct (getPdf l t); [destruct (FindObject dsl t)|];
      repeat right; now apply IH.
Qed.

Lemma rank_SimMaster_positive this nm simCat l :
  _pdf this = RooSimultaneous nm simCat l -> exists k, rank this = S k.
Proof.
  intros Hp. pose proof (modeDepth_any this) as H. rewrite Hp in H.
  cbn [pdfDepth] in H. destruct (rank this) as [|k]; [lia|]. now exists k.
Qed.

(** ** Fan-out of structural changes *)

Lemma wp_atSlot_cases {T : Type} oof guarded (method : T -> M T) i
  (a : list (option T)) (R : list (option T) -> Prop) :
  (forall o, a !! i = Some (Some o) ->
     wp oof (method o) (fun o' => R (<[i := Some o']> a))) ->
  (a !! i = Some None -> guarded = true -> R a) ->
  wp oof (atSlot guarded method i a) R.
Proof.
  intros Hobj Hnull. unfold atSlot. destruct (a !! i) as [[o|]|] eqn:E.
  - apply wp_bind. eapply wp_mono; [now apply Hobj|]. intros o' Ho'.
    now apply wp_ret.
  - destruct guarded; [apply wp_ret; now apply Hnull|apply wp_undefined].
  - apply wp_undefined.
Qed.

(** After [for (i=0 ; i<n ; i++) if (a[i]) a[i]->method()], every object in
    the first [n] slots is one that [method] handed back. *)
Lemma forRange_atSlot_each {T : Type} (Q : T -> Prop) guarded (method : T -> M T) :
  (forall x, wp True (method x) Q) ->
  forall count start a,
    wp True (forRange count start (atSlot guarded method) a)
      (fun a' =>
         (forall i, (i < start)%nat -> a' !! i = a !! i) /\
         (forall i x, (start <= i < start + count)%nat ->
            a' !! i = Some (Some x) -> Q x)).
Proof.
  intros Hm. induction count as [|count IH]; intros start a.
  - apply wp_ret. split; [done|]. intros; lia.
  - cbn [forRange]. apply wp_bind. apply wp_atSlot_cases.
    + intros o E. eapply wp_mono; [apply Hm|]. intros o' Ho'.
      eapply wp_mono; [apply IH|]. intros a' [Hframe Heach]. split.
      * intros i Hi. rewrite Hframe by lia. apply list_lookup_insert_ne. lia.
      * intros i x Hi Hx. destruct (decide (i = start)) as [->|Hne].
        -- rewrite Hframe in Hx by lia.
           rewrite list_lookup_insert_eq in Hx by now apply lookup_lt_Some in E.
           now injection Hx as <-.
        -- apply (Heach i); [lia|done].
    + intros E _.
      eapply wp_mono; [apply IH|]. intros a' [Hframe Heach]. split.
      * intros i Hi. apply Hframe. lia.
      * intros i x Hi Hx. destruct (decide (i = start)) as [->|Hne].
        -- rewrite Hframe, E in Hx by lia. discriminate.
        -- apply (Heach i); [lia|done].
Qed.

Lemma For_atSlot_each {T : Type} (Q : T -> Prop) guarded (method : T -> M T) n a :
  (forall x, wp True (method x) Q) ->
  wp True (For n (atSlot guarded method) a)
    (fun a' => forall i x, (i < Z.to_nat n)%nat -> a' !! i = Some (Some x) -> Q x).
Proof.
  intros Hm. eapply wp_mono; [now apply forRange_atSlot_each|].
  intros a' [_ H] i x Hi. apply H. lia.
Qed.

Lemma notified_set_gofArray ga this :
  _notified (set_gofArray ga this) = _notified this.
Proof. now destruct this. Qed.

Lemma notified_set_mpfeArray ma this :
  _notified (set_mpfeArray ma this) = _notified this.
Proof. now destruct this. Qed.

Lemma notified_notify n this : _notified (notify n this) = _notified this ++ [n].
Proof. now destruct this as [[] ga ma]. Qed.

Lemma mode_notify n this : _gofOpMode (notify n this) = _gofOpMode this.
Proof. now destruct this as [[] ga ma]. Qed.

Lemma nGof_notify n this : _nGof (notify n this) = _nGof this.
Proof. now destruct this as [[] ga ma]. Qed.

(** Whoever is called with a redirection has it as the last entry of its
    log. *)
Lemma redirectServersHook_notified callee l b1 b2 b3 this :
  wp True (redirectServersHook callee l b1 b2 b3 this)
    (fun r => last (_notified r.1) = Some (ServerRedirect l b1 b2 b3)).
Proof.
  unfold redirectServersHook.
  set (this' := notify _ this).
  assert (H : last (_notified this') = Some (ServerRedirect l b1 b2 b3))
    by (subst this'; rewrite notified_notify; apply last_snoc).
  clearbody this'. destruct (_gofOpMode this'); [|now apply wp_ret..].
  apply wp_bind. eapply wp_mono; [apply wp_any|]. intros ga _.
  apply wp_ret. simpl. now rewrite notified_set_gofArray.
Qed.

Lemma call_recursiveRedirectServers_notified n l b1 b2 c :
  wp True (call_recursiveRedirectServers (dispatch n) l b1 b2 c)
    (fun c' => last (_notified c') = Some (ServerRedirect l b1 b2 true)).
Proof.
  destruct n as [|n]; [done|].
  cbn [dispatch call_recursiveRedirectServers]. unfold recursiveRedirectServers.
  apply wp_bind. eapply wp_mono; [apply redirectServersHook_notified|].
  intros [e b] He. apply wp_ret. exact He.
Qed.

(** Whoever is called with a constant-optimisation opcode has it as the
    last entry of its log. *)
Lemma constOptimize_notified callee opcode this :
  wp True (constOptimize callee opcode this)
    (fun this' => last (_notified this') = Some (ConstOptimize opcode)).
Proof.
  unfold constOptimize. apply wp_bind.
  eapply wp_mono; [apply initialize_notified|]. intros [e b] He. simpl in He.
  rewrite notified_notify in He.
  assert (H : last (_notified e) = Some (ConstOptimize opcode))
    by (rewrite He; apply last_snoc).
  destruct (_gofOpMode e); [| |now apply wp_ret].
  - apply wp_bind. eapply wp_mono; [apply wp_any|]. intros ga _.
    apply wp_ret. now rewrite notified_set_gofArray.
  - apply wp_bind. eapply wp_mono; [apply wp_any|]. intros ma _.
    apply wp_ret. now rewrite notified_set_mpfeArray.
Qed.

Lemma call_constOptimize_notified n opcode c :
  wp True (call_constOptimize (dispatch n) opcode c)
    (fun c' => last (_notified c') = Some (ConstOptimize opcode)).
Proof.
  destruct n as [|n]; [done|]. apply constOptimize_notified.
Qed.

Lemma mpfe_constOptimize_notified n opcode fe :
  wp True (mpfe_constOptimize (dispatch n) opcode fe)
    (fun fe' => last (mpfeNotified fe') = Some (ConstOptimize opcode) /\
                last (_notified (mpfeArg fe')) = Some (ConstOptimize opcode)).
Proof.
  unfold mpfe_constOptimize. apply wp_bind.
  eapply wp_mono; [apply call_constOptimize_notified|]. intros g Hg.
  apply wp_ret. cbn. split; [apply last_snoc|exact Hg].
Qed.

(** In SimMaster mode a server redirection reaches every child. *)
Lemma redirect_reaches_children l b1 b2 b3 this tr this' b :
  _gofOpMode this = SimMaster ->
  RedirectServersHook l b1 b2 b3 this = (tr, Returned (this', b)) ->
  forall i c, (i < Z.to_nat (_nGof this'))%nat ->
    _gofArray this' !! i = Some (Some c) ->
    last (_notified c) = Some (ServerRedirect l b1 b2 true).
Proof.
  intros Hm H. unfold RedirectServersHook, redirectServersHook in H.
  rewrite mode_notify, Hm in H.
  apply bind_inv in H as (tr1 & ga & tr2 & Hloop & [= <- <- <-] & ->).
  rewrite nGof_notify in Hloop.
  rewrite nGof_set_gofArray, nGof_notify, gofArray_set_gofArray.
  apply (wp_returned _ _ _ _ _
           (For_atSlot_each _ _ _ _ _ (call_recursiveRedirectServers_notified _ _ _ _))
           Hloop).
Qed.

(** In SimMaster mode a constant optimisation reaches every child. *)
Lemma constOptimize_reaches_children opcode this tr this' :
  _gofOpMode this = SimMaster ->
  ConstOptimizeCall opcode this = (tr, Returned this') ->
  forall i c, (i < Z.to_nat (_nGof this'))%nat ->
    _gofArray this' !! i = Some (Some c) ->
    last (_notified c) = Some (ConstOptimize opcode).
Proof.
  intros Hm H. unfold ConstOptimizeCall, constOptimize in H.
  apply bind_inv in H as (tr1 & [e b] & tr2 & Hinit & H & ->).
  pose proof (wp_returned _ _ _ _ _ (initialize_mode _ _) Hinit) as Hme.
  simpl in Hme. rewrite mode_notify, Hm in Hme. rewrite Hme in H.
  apply bind_inv in H as (tr3 & ga & tr4 & Hloop & [= <- <-] & ->).
  rewrite nGof_set_gofArray, gofArray_set_gofArray.
  apply (wp_returned _ _ _ _ _
           (For_atSlot_each _ _ _ _ _ (call_constOptimize_notified _ _))
           Hloop).
Qed.

Lemma nCPU_set_mpfeArray ma this : _nCPU (set_mpfeArray ma this) = _nCPU this.
Proof. now destruct this. Qed.

Lemma mpfeArray_set_mpfeArray ma this : _mpfeArray (set_mpfeArray ma this) = ma.
Proof. now destruct this. Qed.

(** In MPMaster mode a constant optimisation reaches every front-end, and
    through it the engine behind it. *)
Lemma constOptimize_reaches_workers opcode this tr this' :
  _gofOpMode this = MPMaster ->
  ConstOptimizeCall opcode this = (tr, Returned this') ->
  forall i fe, (i < Z.to_nat (_nCPU this'))%nat ->
    _mpfeArray this' !! i = Some (Some fe) ->
    last (mpfeNotified fe) = Some (ConstOptimize opcode) /\
    last (_notified (mpfeArg fe)) = Some (ConstOptimize opcode).
Proof.
  intros Hm H. unfold ConstOptimizeCall, constOptimize in H.
  apply bind_inv in H as (tr1 & [e b] & tr2 & Hinit & H & ->).
  pose proof (wp_returned _ _ _ _ _ (initialize_mode _ _) Hinit) as Hme.
  simpl in Hme. rewrite mode_notify, Hm in Hme. rewrite Hme in H.
  apply bind_inv in H as (tr3 & ma & tr4 & Hloop & [= <- <-] & ->).
  rewrite nCPU_set_mpfeArray, mpfeArray_set_mpfeArray.
  apply (wp_returned _ _ _ _ _
           (For_atSlot_each _ _ _ _ _ (mpfe_constOptimize_notified _ _))
           Hloop).
Qed.

(** In MPMaster mode a server redirection stops at the instance: it logs
    the call and returns, and its front-ends are as they were. *)
Lemma redirect_stops_at_MPMaster callee l b1 b2 b3 this :
  _gofOpMode this = MPMaster ->
  redirectServersHook callee l b1 b2 b3 this
  = ([], Returned (notify (ServerRedirect l b1 b2 b3) this, false)) /\
  _mpfeArray (notify (ServerRedirect l b1 b2 b3) this) = _mpfeArray this.
Proof.
  intros Hm. unfold redirectServersHook. rewrite mode_notify, Hm.
  split; [reflexivity|]. now destruct this as [[] ga ma].
Qed.

(** ** Copies *)

(** The copy of an MPMaster whose front-ends were never built reads the
    slots of an array that is not there. *)
Lemma copy_uninitialized_MPMaster callee other name :
  _gofOpMode other = MPMaster -> _mpfeArray other = [] -> 0 < _nCPU other ->
  RooAbsGoodnessOfFit_copy callee other name = ([], Undefined OutOfBounds).
Proof.
  intros Hm Ha Hn. unfold RooAbsGoodnessOfFit_copy.
  match goal with |- context [GOF ?m [] []] => set (this := GOF m [] []) end.
  assert (Hthis : operMode this = MPMaster) by exact Hm.
  rewrite decide_False by (rewrite Hthis; discriminate).
  rewrite bind_ret, decide_True by exact Hthis.
  replace (_nCPU (set_mpfeArray _ _)) with (_nCPU other) by reflexivity.
  unfold For. destruct (Z.to_nat (_nCPU other)) as [|n] eqn:E; [lia|].
  cbn [forRange]. rewrite Ha. reflexivity.
Qed.

(** The copy of a Slave is immediate and equal to its original up to the
    new name; nothing is set up. *)
Lemma copy_Slave callee other :
  _gofOpMode other = Slave ->
  exists this, RooAbsGoodnessOfFit_copy callee other None = ([], Returned this) /\
    _projDeps this = _projDeps other /\ _init this = _init other /\
    _pdf this = _pdf other /\ _data this = _data other /\
    _setNum this = _setNum other /\ _numSets this = _numSets other /\
    _simCount this = _simCount other /\ _gofOpMode this = Slave.
Proof.
  intros Hm. unfold RooAbsGoodnessOfFit_copy.
  match goal with |- context [GOF ?m [] []] => set (this := GOF m [] []) end.
  assert (Hthis : operMode this = Slave) by exact Hm.
  rewrite decide_False by (rewrite Hthis; discriminate).
  rewrite bind_ret, decide_False by (rewrite Hthis; discriminate).
  rewrite bind_ret. exists this. repeat split; try reflexivity. exact Hm.
Qed.

End Theory.

(** * Further properties of the engine *)

Section Further.

Context {subclass : Subclass}.

(** ** The size of a slice *)

Lemma quotient_step n k s :
  0 <= n -> 1 <= k -> 0 <= s ->
  n / k <= n * (s + 1) / k - n * s / k <= n / k + 1.
Proof.
  intros Hn Hk Hs.
  pose proof (Z.div_mod n k ltac:(lia)) as Hd.
  pose proof (Z.mod_pos_bound n k ltac:(lia)) as Hr.
  set (q := n / k) in *. set (r := n mod k) in *.
  assert (E1 : n * s = q * s * k + r * s) by nia.
  assert (E2 : n * (s + 1) = q * (s + 1) * k + r * (s + 1)) by nia.
  rewrite E1, E2, !Z.div_add_l by lia.
  assert (r * s / k <= r * (s + 1) / k) by (apply Z.div_le_mono; nia).
  assert (r * (s + 1) / k <= r * s / k + 1).
  { replace (r * (s + 1)) with (r * s + r) by lia.
    transitivity ((r * s + k) / k); [apply Z.div_le_mono; lia|].
    replace (r * s + k) with (r * s + 1 * k) by lia. rewrite Z.div_add by lia. lia. }
  lia.
Qed.

(** X1: as long as the product [nEvents * numSets] fits in an [Int_t], the
    slices of a Slave are balanced: each of them holds [nEvents / numSets]
    entries, or one more. *)
Theorem X1_slices_balanced (nEvents numSets setNum : Z) :
  0 <= nEvents -> 1 <= numSets <= Int.max -> nEvents * numSets <= Int.max ->
  0 <= setNum < numSets ->
  nEvents / numSets
  <= nLast nEvents setNum numSets - nFirst nEvents setNum numSets
  <= nEvents / numSets + 1.
Proof.
  intros Hn Hk Hmax Hs.
  rewrite nFirst_exact, nLast_exact by lia.
  apply quotient_step; lia.
Qed.

(** X2: an instance constructed for at most one process over a model that
    is not simultaneous evaluates, as constructed, the whole dataset in one
    slice, from entry 0 to [numEntries()], with the count of simultaneous
    engines at 1; its first evaluation prints and builds nothing. *)
Theorem X2_fresh_instance_evaluates_all (name title nm : string) (data : RooAbsData)
  (projDeps : RooArgSet) (nCPU : Z) :
  nCPU <= 1 -> Int.inRange (numEntries data) ->
  let this := RooAbsGoodnessOfFit_new name title (RooPdf nm) data projDeps nCPU in
  Evaluate this
  = ([], Returned (set_init true this,
                   evaluatePartition (RooPdf nm) data projDeps 1 0 (numEntries data))).
Proof.
  intros Hc Hr this.
  assert (Hm : _gofOpMode this = Slave).
  { subst this. unfold RooAbsGoodnessOfFit_new, _gofOpMode. cbn.
    destruct (Z.ltb_spec 1 nCPU); [lia|done]. }
  unfold Evaluate. rewrite evaluate_Slave; [|exact Hm|done].
  replace (_nEvents this) with (numEntries data) by reflexivity.
  replace (_setNum this) with 0 by reflexivity.
  replace (_numSets this) with 1 by reflexivity.
  replace (_pdf this) with (RooPdf nm) by reflexivity.
  replace (_data this) with data by reflexivity.
  replace (_projDeps this) with projDeps by reflexivity.
  replace (_simCount this) with 1 by reflexivity.
  assert (E0 : nFirst (numEntries data) 0 1 = 0).
  { unfold nFirst, Int.mul, Int.div. rewrite Z.mul_0_r. reflexivity. }
  assert (E1 : nLast (numEntries data) 0 1 = numEntries data).
  { unfold nLast, Int.mul, Int.div, Int.add. change (Int.wrap (0 + 1)) with 1.
    rewrite Z.mul_1_r, (Int_wrap_inRange _ Hr), Z.quot_1_r.
    now apply Int_wrap_inRange. }
  now rewrite E0, E1.
Qed.

(** ** The front-ends of an MPMaster *)

Lemma initMPMode_unfold callee pdf data projDeps this :
  initMPMode callee pdf data projDeps this
  = (gof ← create (GetName this) (GetTitle this) pdf data projDeps;
     '(gof, this) ← For (_nCPU this) (mpBody callee)
                      (gof, set_mpfeArray (newArray (_nCPU this)) this);
     mret this).
Proof. destruct this as [m ga ma]. reflexivity. Qed.

Lemma setMPSet_plain callee a b gof :
  _gofOpMode gof <> SimMaster ->
  setMPSet callee a b gof = ([], Returned (set_partition a b gof)).
Proof.
  intros Hm. unfold setMPSet.
  replace (_gofOpMode (set_partition a b gof)) with (_gofOpMode gof)
    by now destruct gof as [[] ga ma].
  now destruct (_gofOpMode gof).
Qed.

Lemma relabelled_again p g t n a b :
  relabelled p g ->
  set_title t (set_name n (set_partition a b g))
  = set_title t (set_name n (set_partition a b p)).
Proof. intros (t' & n' & a' & b' & ->). now destruct p as [[] ga ma]. Qed.


Lemma mode_relabel t n a b p :
  _gofOpMode (set_title t (set_name n (set_partition a b p))) = _gofOpMode p.
Proof. now destruct p as [[] ga ma]. Qed.

Lemma mpBody_plain k i gof e front tl p :
  _gofOpMode p <> SimMaster -> relabelled p gof ->
  _mpfeArray e = front ++ None :: tl -> i = length front ->
  mpBody (dispatch (S k)) i (gof, e)
  = (workerTrace e i,
     Returned (tailoredFor e i p,
               set_mpfeArray (front ++ Some (frontEnd e i (tailoredFor e i p)) :: tl) e)).
Proof.
  intros Hp Hrel Ha ->. unfold mpBody, workerTrace. rewrite Ha.
  cbn [dispatch call_setMPSet].
  assert (Hg : _gofOpMode gof <> SimMaster).
  { destruct Hrel as (t & n & a & b & ->). now rewrite mode_relabel. }
  rewrite (setMPSet_plain _ _ _ _ Hg), bind_pure.
  rewrite (relabelled_again p gof _ _ _ _ Hrel).
  unfold tailoredFor, frontEnd.
  destruct (Z.of_nat (length front) =? _nCPU e - 1).
  - rewrite bind_ret. etransitivity.
    { eapply bind_eq; [reflexivity|].
      eapply bind_eq; [apply storeSlot_middle|].
      eapply bind_eq; [apply atSlot_middle; reflexivity|].
      reflexivity. }
    reflexivity.
  - etransitivity.
    { eapply bind_eq; [reflexivity|].
      eapply bind_eq; [reflexivity|].
      eapply bind_eq; [apply storeSlot_middle|].
      eapply bind_eq; [apply atSlot_middle; reflexivity|].
      reflexivity. }
    reflexivity.
Qed.


Lemma labels_set_mpfeArray ma this :
  GetName (set_mpfeArray ma this) = GetName this /\
  GetTitle (set_mpfeArray ma this) = GetTitle this /\
  _nCPU (set_mpfeArray ma this) = _nCPU this.
Proof. now destruct this. Qed.

Lemma set_mpfeArray_twice a b this :
  set_mpfeArray a (set_mpfeArray b this) = set_mpfeArray a this.
Proof. now destruct this. Qed.

Lemma workerTrace_set_mpfeArray ma this i :
  workerTrace (set_mpfeArray ma this) i = workerTrace this i.
Proof. now destruct this. Qed.

Lemma tailoredFor_set_mpfeArray ma this i p :
  tailoredFor (set_mpfeArray ma this) i p = tailoredFor this i p.
Proof. now destruct this. Qed.

Lemma frontEnd_set_mpfeArray ma this i g :
  frontEnd (set_mpfeArray ma this) i g = frontEnd this i g.
Proof. now destruct this. Qed.

Lemma mpLoop k p this0 :
  _gofOpMode p <> SimMaster ->
  forall count front gof,
    relabelled p gof ->
    exists gof',
      relabelled p gof' /\
      forRange count (length front) (mpBody (dispatch (S k)))
        (gof, set_mpfeArray (front ++ replicate count None) this0)
      = (flat_map (workerTrace this0) (seq (length front) count),
         Returned
           (gof',
            set_mpfeArray
              (front ++
               ((fun i => Some (frontEnd this0 i (tailoredFor this0 i p)))
                  <$> seq (length front) count))
              this0)).
Proof.
  intros Hp. induction count as [|count IH]; intros front gof Hrel.
  - exists gof. split; [done|]. reflexivity.
  - cbn [forRange replicate seq flat_map fmap list_fmap].
    set (e := set_mpfeArray (front ++ None :: replicate count None) this0).
    pose proof (mpBody_plain k (length front) gof e front (replicate count None) p
                  Hp Hrel) as Hbody.
    unfold e in Hbody at 1. rewrite mpfeArray_set_mpfeArray in Hbody.
    specialize (Hbody eq_refl eq_refl).
    unfold e in Hbody. 
    rewrite set_mpfeArray_twice, workerTrace_set_mpfeArray,
      frontEnd_set_mpfeArray, !tailoredFor_set_mpfeArray in Hbody.
    set (g1 := tailoredFor this0 (length front) p) in *.
    set (fe := frontEnd this0 (length front) g1) in *.
    destruct (IH (front ++ [Some fe]) g1) as (gof' & Hrel' & Hloop).
    { now eexists _, _, _, _. }
    rewrite length_app in Hloop. cbn [length] in Hloop.
    rewrite Nat.add_1_r, <- app_assoc in Hloop. cbn [app] in Hloop.
    exists gof'. split; [done|].
    etransitivity; [eapply bind_eq; [exact Hbody|exact Hloop]|].
    now rewrite <- app_assoc.
Qed.


(** What [initMPMode] does over a model that is not simultaneous. *)
Lemma initMPMode_result k pdf data projDeps this :
  isSimultaneous pdf = false ->
  initMPMode (dispatch (S k)) pdf data projDeps this
  = (Create (GetName this)
       :: flat_map (workerTrace this) (seq 0 (Z.to_nat (_nCPU this))),
     Returned
       (set_mpfeArray
          ((fun i => Some (frontEnd this i
                             (tailoredFor this i
                                (RooAbsGoodnessOfFit_new (GetName this) (GetTitle this)
                                   pdf data projDeps 1))))
             <$> seq 0 (Z.to_nat (_nCPU this)))
          this)).
Proof.
  intros Hpdf. rewrite initMPMode_unfold.
  set (p := RooAbsGoodnessOfFit_new (GetName this) (GetTitle this) pdf data projDeps 1).
  assert (Hp : _gofOpMode p <> SimMaster).
  { subst p. unfold RooAbsGoodnessOfFit_new, _gofOpMode. cbn. now rewrite Hpdf. }
  assert (Hrel : relabelled p p).
  { exists (GetTitle p), (GetName p), (_setNum p), (_numSets p).
    now destruct p as [[] ga ma]. }
  destruct (mpLoop k p this Hp (Z.to_nat (_nCPU this)) [] p Hrel)
    as (gof' & _ & Hloop).
  cbn [app length] in Hloop.
  etransitivity.
  { eapply bind_eq; [apply create_eq|].
    eapply bind_eq; [exact Hloop|]. reflexivity. }
  now rewrite app_nil_r.
Qed.

Lemma rank_MPMaster_positive this :
  _gofOpMode this = MPMaster -> exists k, rank this = S k.
Proof.
  intros Hm. pose proof (modeDepth_MPMaster this Hm).
  destruct (rank this) as [|k]; [lia|]. now exists k.
Qed.

Lemma Initialize_MPMaster this nm :
  _gofOpMode this = MPMaster -> _init this = false -> _pdf this = RooPdf nm ->
  Initialize this
  = (Create (GetName this)
       :: flat_map (workerTrace this) (seq 0 (Z.to_nat (_nCPU this))),
     Returned
       (set_init true
          (set_mpfeArray ((fun i => Some (workerOf this i))
                            <$> seq 0 (Z.to_nat (_nCPU this))) this), false)).
Proof.
  intros Hm Hi Hp. destruct (rank_MPMaster_positive this Hm) as [k Hk].
  unfold Initialize, initialize. rewrite Hk, Hi, Hm.
  rewrite initMPMode_result by now rewrite Hp.
  rewrite bind_returned. cbn [fst snd]. now rewrite app_nil_r.
Qed.

(** X3: the initialisation of an MPMaster over a model that is not
    simultaneous builds one prototype with the factory and [_nCPU]
    front-ends, in order; the front-end of partition [i] is started, holds
    the prototype renamed and told to evaluate partition [i] of [_nCPU], and
    runs inline exactly when it is the last one; a line is printed for every
    other one. *)
Theorem X3_MPMaster_workers (this : RooAbsGoodnessOfFit) (nm : string) :
  _gofOpMode this = MPMaster -> _init this = false -> _pdf this = RooPdf nm ->
  let n := Z.to_nat (_nCPU this) in
  exists tr this',
    Initialize this = (tr, Returned (this', false)) /\
    _init this' = true /\
    tr = Create (GetName this) :: flat_map (workerTrace this) (seq 0 n) /\
    length (_mpfeArray this') = n /\
    (forall i, (i < n)%nat ->
       exists fe,
         _mpfeArray this' !! i = Some (Some fe) /\
         mpfeName fe = Form (GetName this) "_MPFE" (Z.of_nat i) /\
         mpfeInit fe = true /\
         (mpfeInline fe = true <-> S i = n) /\
         GetName (mpfeArg fe) = Form (GetName this) "_GOF" (Z.of_nat i) /\
         _gofOpMode (mpfeArg fe) = Slave /\ _init (mpfeArg fe) = false /\
         _setNum (mpfeArg fe) = Z.of_nat i /\ _numSets (mpfeArg fe) = _nCPU this /\
         _pdf (mpfeArg fe) = _pdf this /\ _data (mpfeArg fe) = _data this /\
         _projDeps (mpfeArg fe) = _projDeps this /\
         _nEvents (mpfeArg fe) = numEntries (_data this)).
Proof.
  intros Hm Hi Hp n. eexists _, _. split; [now apply (Initialize_MPMaster this nm)|].
  split; [now destruct this as [[] ga ma]|]. split; [reflexivity|].
  replace (_mpfeArray _) with ((fun i => Some (workerOf this i)) <$> seq 0 n)
    by now destruct this as [[] ga ma].
  split; [now rewrite length_fmap, length_seq|].
  intros i Hlt. exists (workerOf this i). split.
  { rewrite list_lookup_fmap, lookup_seq_lt by done. reflexivity. }
  split; [reflexivity|]. split; [reflexivity|]. split.
  { unfold workerOf, frontEnd. cbn [mpfeInline]. rewrite Z.eqb_eq. subst n. lia. }
  unfold workerOf, frontEnd, workerEngine, tailoredFor. cbn [mpfeArg].
  rewrite Hp. repeat split.
Qed.

Lemma cv_forward {T : Type} (getVal : T -> M (T * Double_t)) (f : T -> T)
  (val : T -> Double_t) (xs : list T) :
  Forall (fun x => getVal x = ([], Returned (f x, val x))) xs ->
  forall front sum tl,
    forRange (length xs) (length front) (cvBody getVal)
      (front ++ (Some <$> xs) ++ tl, sum)
    = ([], Returned (front ++ (Some <$> (f <$> xs)) ++ tl, foldl Dadd sum (val <$> xs))).
Proof.
  induction 1 as [|x xs Hx _ IH]; intros front sum tl; [reflexivity|].
  cbn [length forRange fmap list_fmap foldl app].
  unfold cvBody at 2.
  assert (Hl : (front ++ Some x :: (Some <$> xs) ++ tl) !! length front = Some (Some x))
    by now apply list_lookup_middle.
  rewrite (readSlot_lookup _ _ _ Hl), bind_pure, Hx, bind_pure.
  rewrite insert_app_r_alt, Nat.sub_diag by lia. cbn [insert list_insert].
  specialize (IH (front ++ [Some (f x)]) (Dadd sum (val x)) tl).
  rewrite length_app, Nat.add_1_r, <- !app_assoc in IH. cbn [app] in IH.
  rewrite bind_ret. exact IH.
Qed.


Lemma workerEngine_members this nm i :
  _pdf this = RooPdf nm ->
  _gofOpMode (workerEngine this i) = Slave /\
  _numSets (workerEngine this i) = _nCPU this /\
  _setNum (workerEngine this i) = Z.of_nat i /\
  _nEvents (workerEngine this i) = numEntries (_data this) /\
  _pdf (workerEngine this i) = _pdf this /\
  _data (workerEngine this i) = _data this /\
  _projDeps (workerEngine this i) = _projDeps this /\
  _simCount (workerEngine this i) = 1.
Proof.
  intros Hp. unfold workerEngine, tailoredFor. rewrite Hp. repeat split.
Qed.

(** The value of partition [i] of [nCPU] of the data an instance is bound
    to. *)
Lemma mpfe_getVal_worker k this nm i :
  _pdf this = RooPdf nm -> (i < Z.to_nat (_nCPU this))%nat ->
  mpfe_getVal (dispatch (S k)) (workerOf this i)
  = ([], Returned
           (mpfe_setArg (set_init true (workerEngine this i)) (workerOf this i),
            evaluatePartition (_pdf this) (_data this) (_projDeps this) 1
              (nFirst (numEntries (_data this)) (Z.of_nat i) (_nCPU this))
              (nLast (numEntries (_data this)) (Z.of_nat i) (_nCPU this)))).
Proof.
  intros Hp Hi. unfold mpfe_getVal. cbn [dispatch call_getVal workerOf frontEnd mpfeArg].
  destruct (workerEngine_members this nm i Hp)
    as (Hm & Hn & Hs & He & Hpdf & Hd & Hpr & Hc).
  rewrite evaluate_Slave by (rewrite ?Hn; first [exact Hm | lia]).
  rewrite bind_pure, Hn, Hs, He, Hpdf, Hd, Hpr, Hc. reflexivity.
Qed.

(** The first evaluation of an MPMaster over a model that is not
    simultaneous. *)
Lemma Evaluate_MPMaster_plain (this : RooAbsGoodnessOfFit) (nm : string) :
  _gofOpMode this = MPMaster -> _init this = false -> _pdf this = RooPdf nm ->
  exists tr this1,
    Evaluate this
    = (tr, Returned
             (this1,
              foldl Dadd Dzero
                ((fun i => evaluatePartition (_pdf this) (_data this) (_projDeps this) 1
                             (nFirst (numEntries (_data this)) (Z.of_nat i) (_nCPU this))
                             (nLast (numEntries (_data this)) (Z.of_nat i) (_nCPU this)))
                   <$> seq 0 (Z.to_nat (_nCPU this))))) /\
    _init this1 = true /\
    length (_mpfeArray this1) = Z.to_nat (_nCPU this) /\
    tr = Create (GetName this)
           :: flat_map (workerTrace this) (seq 0 (Z.to_nat (_nCPU this))).
Proof.
  intros Hm Hi Hp. destruct (rank_MPMaster_positive this Hm) as [k Hk].
  set (n := Z.to_nat (_nCPU this)).
  set (workers := workerOf this <$> seq 0 n).
  set (e := set_init true (set_mpfeArray (Some <$> workers) this)).
  assert (Hinit : initialize (dispatch (S k)) this
                  = (Create (GetName this) :: flat_map (workerTrace this) (seq 0 n),
                     Returned (e, false))).
  { rewrite <- Hk. fold (Initialize this). rewrite (Initialize_MPMaster this nm) by done.
    subst e workers n. now rewrite <- list_fmap_compose. }
  assert (Hme : _gofOpMode e = MPMaster) by (now destruct this as [[] ga ma]).
  assert (Hne : _nCPU e = _nCPU this) by (now destruct this as [[] ga ma]).
  assert (Hae : _mpfeArray e = Some <$> workers) by (now destruct this as [[] ga ma]).
  assert (Hcalc : For (_nCPU e) (atSlot false mpfe_calculate) (_mpfeArray e)
                  = ([], Returned (Some <$> workers))).
  { rewrite Hae, Hne. unfold For. apply calculate_loop. intros i Hlt.
    exists (workerOf this i). subst workers.
    rewrite list_lookup_fmap, list_lookup_fmap, lookup_seq_lt by (fold n; lia).
    reflexivity. }
  pose proof (cv_forward (mpfe_getVal (dispatch (S k)))
                (fun fe => mpfe_setArg (set_init true (mpfeArg fe)) fe)
                (fun fe =>
                   evaluatePartition (_pdf this) (_data this) (_projDeps this) 1
                     (nFirst (numEntries (_data this)) (_setNum (mpfeArg fe)) (_nCPU this))
                     (nLast (numEntries (_data this)) (_setNum (mpfeArg fe)) (_nCPU this)))
                workers) as Hcv.
  assert (Hall : Forall
            (fun x => mpfe_getVal (dispatch (S k)) x
                      = ([], Returned
                               (mpfe_setArg (set_init true (mpfeArg x)) x,
                                evaluatePartition (_pdf this) (_data this)
                                  (_projDeps this) 1
                                  (nFirst (numEntries (_data this)) (_setNum (mpfeArg x))
                                     (_nCPU this))
                                  (nLast (numEntries (_data this)) (_setNum (mpfeArg x))
                                     (_nCPU this))))) workers).
  { subst workers. rewrite Forall_fmap, Forall_forall. intros i Hin.
    apply elem_of_seq in Hin. cbn [compose].
    rewrite (mpfe_getVal_worker k this nm i Hp) by (fold n; lia).
    destruct (workerEngine_members this nm i Hp) as (_ & _ & Hs & _).
    cbn [workerOf frontEnd mpfeArg]. now rewrite Hs. }
  specialize (Hcv Hall [] Dzero []). cbn [app length] in Hcv.
  rewrite !app_nil_r in Hcv.
  assert (Hlen : length workers = n)
    by (subst workers; now rewrite length_fmap, length_seq).
  eexists _, _. split; [|split; [|split]]; cycle 3.
  { reflexivity. }
  { unfold Evaluate, evaluate. rewrite Hk, Hi. cbn [negb].
    etransitivity.
    { eapply bind_eq.
      { eapply bind_eq; [exact Hinit|reflexivity]. }
      rewrite Hme. eapply bind_eq; [exact Hcalc|].
      eapply bind_eq.
      { rewrite combinedValue_unfold, Hne. fold n. rewrite <- Hlen. exact Hcv. }
      reflexivity. }
    rewrite !app_nil_r. f_equal. f_equal. f_equal. f_equal.
    subst workers. rewrite <- list_fmap_compose. apply list_fmap_ext.
    intros j i _. cbn [compose].
    destruct (workerEngine_members this nm i Hp) as (_ & _ & Hs & _).
    cbn [workerOf frontEnd mpfeArg]. now rewrite Hs. }
  { now destruct this as [[] ga ma]. }
  { rewrite mpfeArray_set_mpfeArray, !length_fmap. exact Hlen. }
Qed.

(** X4: the value of an MPMaster over a model that is not simultaneous is
    the sum, in the order of the partitions, of the values of the [_nCPU]
    slices of its dataset. *)
Theorem X4_MPMaster_value (this : RooAbsGoodnessOfFit) (nm : string) :
  _gofOpMode this = MPMaster -> _init this = false -> _pdf this = RooPdf nm ->
  exists tr this1,
    Evaluate this
    = (tr, Returned
             (this1,
              foldl Dadd Dzero
                ((fun i => evaluatePartition (_pdf this) (_data this) (_projDeps this) 1
                             (nFirst (numEntries (_data this)) (Z.of_nat i) (_nCPU this))
                             (nLast (numEntries (_data this)) (Z.of_nat i) (_nCPU this)))
                   <$> seq 0 (Z.to_nat (_nCPU this))))) /\
    _init this1 = true /\
    length (_mpfeArray this1) = Z.to_nat (_nCPU this) /\
    tr = Create (GetName this)
           :: flat_map (workerTrace this) (seq 0 (Z.to_nat (_nCPU this))).
Proof. apply Evaluate_MPMaster_plain. Qed.

(** ** What reaches the children and the front-ends *)

Lemma partition_set_gofArray ga this :
  _setNum (set_gofArray ga this) = _setNum this /\
  _numSets (set_gofArray ga this) = _numSets this.
Proof. now destruct this. Qed.

Lemma initialize_partition callee this :
  wp True (initialize callee this)
    (fun r => _setNum r.1 = _setNum this /\ _numSets r.1 = _numSets this).
Proof.
  eapply wp_mono.
  - apply (initialize_kept (fun e => (_setNum e, _numSets e))).
    + intros e e' H. unfold _setNum, _numSets. now rewrite H.
    + intros v e. now destruct e as [[] ga ma].
    + intros v e. now destruct e as [[] ga ma].
  - intros r [= H1 H2]. auto.
Qed.

Lemma setMPSet_partition callee a b this :
  wp True (setMPSet callee a b this) (fun r => _setNum r = a /\ _numSets r = b).
Proof.
  unfold setMPSet.
  set (this' := set_partition a b this).
  assert (H : _setNum this' = a /\ _numSets this' = b)
    by (subst this'; now destruct this as [[] ga ma]).
  clearbody this'. destruct (_gofOpMode this'); [|now apply wp_ret..].
  apply wp_bind. eapply wp_mono; [apply initialize_partition|].
  intros [e b0] [H1 H2]. simpl in H1, H2.
  apply wp_bind. eapply wp_mono; [apply wp_any|]. intros ga _. apply wp_ret.
  destruct (partition_set_gofArray ga e) as [-> ->]. destruct H. split; congruence.
Qed.

Lemma call_setMPSet_partition n a b c :
  wp True (call_setMPSet (dispatch n) a b c)
    (fun c' => _setNum c' = a /\ _numSets c' = b).
Proof. destruct n as [|n]; [done|]. apply setMPSet_partition. Qed.

Lemma init_set_gofArray ga this : _init (set_gofArray ga this) = _init this.
Proof. now destruct this. Qed.

Lemma init_set_mpfeArray ma this : _init (set_mpfeArray ma this) = _init this.
Proof. now destruct this. Qed.

(** X5: in SimMaster mode [setMPSet] initialises the instance and hands the
    partition to every child. *)
Theorem X5_setMPSet_reaches_children (setNum numSets : Z)
  (this : RooAbsGoodnessOfFit) (tr : list Event) (this' : RooAbsGoodnessOfFit) :
  _gofOpMode this = SimMaster ->
  SetMPSet setNum numSets this = (tr, Returned this') ->
  _setNum this' = setNum /\ _numSets this' = numSets /\ _init this' = true /\
  forall i c, (i < Z.to_nat (_nGof this'))%nat ->
    _gofArray this' !! i = Some (Some c) ->
    _setNum c = setNum /\ _numSets c = numSets.
Proof.
  intros Hm H.
  destruct (wp_returned _ _ _ _ _ (setMPSet_partition _ _ _ _) H) as [Hs Hn].
  split; [done|]. split; [done|].
  unfold SetMPSet, setMPSet in H.
  replace (_gofOpMode (set_partition setNum numSets this)) with SimMaster in H
    by (rewrite <- Hm; now destruct this as [[] ga ma]).
  apply bind_inv in H as (tr1 & [e b] & tr2 & Hinit & H & ->).
  apply initialize_returns in Hinit as [_ Hi].
  apply bind_inv in H as (tr3 & ga & tr4 & Hloop & [= <- <-] & ->).
  rewrite init_set_gofArray, nGof_set_gofArray, gofArray_set_gofArray.
  split; [done|].
  apply (wp_returned _ _ _ _ _
           (For_atSlot_each _ _ _ _ _ (call_setMPSet_partition _ _ _))
           Hloop).
Qed.

Lemma constOptimize_init callee opcode this :
  wp True (constOptimize callee opcode this) (fun this' => _init this' = true).
Proof.
  unfold constOptimize. apply wp_bind.
  unfold wp at 1. destruct (initialize _ _) as [tr [[e b]| |u|]] eqn:E; try done.
  apply initialize_returns in E as [_ Hi]. cbn [snd].
  destruct (_gofOpMode e); [| |now apply wp_ret].
  - apply wp_bind. eapply wp_mono; [apply wp_any|]. intros ga _. apply wp_ret.
    now rewrite init_set_gofArray.
  - apply wp_bind. eapply wp_mono; [apply wp_any|]. intros ma _. apply wp_ret.
    now rewrite init_set_mpfeArray.
Qed.

(** X6: [constOptimize] triggers the initialisation, and then reaches every
    child of a SimMaster and every front-end of an MPMaster, with the engine
    behind it. *)
Theorem X6_constOptimize_initializes_and_forwards (opcode : ConstOpCode)
  (this : RooAbsGoodnessOfFit) (tr : list Event) (this' : RooAbsGoodnessOfFit) :
  ConstOptimizeCall opcode this = (tr, Returned this') ->
  _init this' = true /\
  _gofOpMode this' = _gofOpMode this /\
  last (_notified this') = Some (ConstOptimize opcode) /\
  (_gofOpMode this = SimMaster ->
     forall i c, (i < Z.to_nat (_nGof this'))%nat ->
       _gofArray this' !! i = Some (Some c) ->
       last (_notified c) = Some (ConstOptimize opcode)) /\
  (_gofOpMode this = MPMaster ->
     forall i fe, (i < Z.to_nat (_nCPU this'))%nat ->
       _mpfeArray this' !! i = Some (Some fe) ->
       last (mpfeNotified fe) = Some (ConstOptimize opcode) /\
       last (_notified (mpfeArg fe)) = Some (ConstOptimize opcode)).
Proof.
  intros H. split; [|split; [|split; [|split]]].
  - exact (wp_returned _ _ _ _ _ (constOptimize_init _ _ _) H).
  - exact (wp_returned _ _ _ _ _ (constOptimize_mode _ _ _) H).
  - exact (wp_returned _ _ _ _ _ (constOptimize_notified _ _ _) H).
  - intros Hm. exact (constOptimize_reaches_children _ _ _ _ Hm H).
  - intros Hm. exact (constOptimize_reaches_workers _ _ _ _ Hm H).
Qed.

Lemma init_notify n this : _init (notify n this) = _init this.
Proof. now destruct this as [[] ga ma]. Qed.

Lemma forRange_atSlot_length {T : Type} guarded (method : T -> M T) count start a :
  wp True (forRange count start (atSlot guarded method) a)
    (fun a' => length a' = length a).
Proof.
  revert start a. induction count as [|count IH]; intros start a; [now apply wp_ret|].
  cbn [forRange]. apply wp_bind. apply wp_atSlot_cases.
  - intros o Ho. eapply wp_mono; [apply wp_any|]. intros o' _.
    eapply wp_mono; [apply IH|]. intros a' ->. apply length_insert.
  - intros _ _. apply IH.
Qed.

(** X7: [redirectServersHook] returns [kFALSE] and never triggers the
    initialisation; a SimMaster passes the redirection on to the children it
    has, as a recursive one; in the other modes it stops at the instance. *)
Theorem X7_redirect_forwards_without_initializing (newServerList : RooArgSet)
  (mustReplaceAll nameChange isRecursive : bool)
  (this : RooAbsGoodnessOfFit) (tr : list Event) (this' : RooAbsGoodnessOfFit)
  (b : bool) :
  RedirectServersHook newServerList mustReplaceAll nameChange isRecursive this
  = (tr, Returned (this', b)) ->
  b = false /\
  _init this' = _init this /\ _nGof this' = _nGof this /\
  length (_gofArray this') = length (_gofArray this) /\
  _mpfeArray this' = _mpfeArray this /\
  (_gofOpMode this = SimMaster ->
     forall i c, (i < Z.to_nat (_nGof this'))%nat ->
       _gofArray this' !! i = Some (Some c) ->
       last (_notified c)
       = Some (ServerRedirect newServerList mustReplaceAll nameChange true)) /\
  (_gofOpMode this <> SimMaster ->
     tr = [] /\ _gofArray this' = _gofArray this).
Proof.
  intros H.
  assert (Hchildren : _gofOpMode this = SimMaster ->
     forall i c, (i < Z.to_nat (_nGof this'))%nat ->
       _gofArray this' !! i = Some (Some c) ->
       last (_notified c)
       = Some (ServerRedirect newServerList mustReplaceAll nameChange true))
    by (intros Hm; exact (redirect_reaches_children _ _ _ _ _ _ _ _ Hm H)).
  unfold RedirectServersHook, redirectServersHook in H.
  rewrite mode_notify in H.
  set (n := ServerRedirect _ _ _ _) in *.
  assert (Hn : _init (notify n this) = _init this /\
               _nGof (notify n this) = _nGof this /\
               _gofArray (notify n this) = _gofArray this /\
               _mpfeArray (notify n this) = _mpfeArray this)
    by now destruct this as [[] ga ma].
  destruct Hn as (Hi & Hg & Hga & Hma).
  destruct (_gofOpMode this) eqn:Hm.
  - apply bind_inv in H as (tr1 & ga & tr2 & Hloop & [= <- <- <-] & ->).
    pose proof (wp_returned _ _ _ _ _ (forRange_atSlot_length _ _ _ _ _) Hloop) as Hl.
    simpl in Hl.
    rewrite nGof_set_gofArray, gofArray_set_gofArray in Hchildren.
    rewrite init_set_gofArray, nGof_set_gofArray, gofArray_set_gofArray.
    split; [done|]. split; [done|]. split; [done|]. split; [now rewrite Hl, Hga|].
    split; [now destruct (notify n this)|]. split; [done|]. now intros [].
  - injection H as <- <- <-.
    split; [done|]. split; [done|]. split; [done|]. split; [now rewrite Hga|].
    split; [done|]. split; [done|]. now intros _.
  - injection H as <- <- <-.
    split; [done|]. split; [done|]. split; [done|]. split; [now rewrite Hga|].
    split; [done|]. split; [done|]. now intros _.
Qed.

(** ** What no operation changes *)

(** What every operation keeps: any function of the members that the
    assignments to [_nGof], [_init], [_setNum], [_numSets], [_simCount] and
    the observation log leave alone. *)
Section KeptByAll.

Context {A : Type} (proj : RooAbsGoodnessOfFit -> A).
Hypothesis proj_members : forall e e', members e = members e' -> proj e = proj e'.
Hypothesis proj_set_nGof : forall v e, proj (set_nGof v e) = proj e.
Hypothesis proj_set_init : forall v e, proj (set_init v e) = proj e.
Hypothesis proj_set_partition : forall a b e, proj (set_partition a b e) = proj e.
Hypothesis proj_set_simCount : forall v e, proj (set_simCount v e) = proj e.
Hypothesis proj_notify : forall n e, proj (notify n e) = proj e.

Lemma evaluate_keeps callee this :
  wp True (evaluate callee this) (fun r => proj r.1 = proj this).
Proof using proj_members proj_set_nGof proj_set_init.
  unfold evaluate. apply wp_bind.
  eapply (wp_mono _ _ (fun this' => proj this' = proj this)).
  { destruct (negb (_init this)); [|now apply wp_ret].
    apply wp_bind. eapply wp_mono; [now apply (initialize_kept proj)|].
    intros [e b] He. apply wp_ret. exact He. }
  intros e He. destruct (_gofOpMode e).
  - apply wp_bind. eapply wp_mono; [apply wp_any|]. intros [ga v] _.
    apply wp_ret. simpl. now rewrite (kept_set_gofArray proj).
  - apply wp_bind. eapply wp_mono; [apply wp_any|]. intros ma _.
    apply wp_bind. eapply wp_mono; [apply wp_any|]. intros [ma' v] _.
    apply wp_ret. simpl. now rewrite (kept_set_mpfeArray proj).
  - destruct (_numSets e =? 0); [apply wp_undefined|]. now apply wp_ret.
Qed.

Lemma redirectServersHook_keeps callee l b1 b2 b3 this :
  wp True (redirectServersHook callee l b1 b2 b3 this)
    (fun r => proj r.1 = proj this).
Proof using proj_members proj_notify.
  unfold redirectServersHook.
  set (this' := notify _ this).
  assert (H' : proj this' = proj this) by (subst this'; apply proj_notify).
  clearbody this'. destruct (_gofOpMode this'); [|now apply wp_ret..].
  apply wp_bind. eapply wp_mono; [apply wp_any|]. intros ga _.
  apply wp_ret. simpl. now rewrite (kept_set_gofArray proj).
Qed.

Lemma constOptimize_keeps callee opcode this :
  wp True (constOptimize callee opcode this) (fun this' => proj this' = proj this).
Proof using proj_members proj_set_nGof proj_set_init proj_notify.
  unfold constOptimize. apply wp_bind.
  eapply wp_mono; [now apply (initialize_kept proj)|]. intros [e b] He.
  simpl in He. rewrite proj_notify in He.
  destruct (_gofOpMode e); [| |now apply wp_ret].
  - apply wp_bind. eapply wp_mono; [apply wp_any|]. intros ga _.
    apply wp_ret. now rewrite (kept_set_gofArray proj).
  - apply wp_bind. eapply wp_mono; [apply wp_any|]. intros ma _.
    apply wp_ret. now rewrite (kept_set_mpfeArray proj).
Qed.

Lemma setMPSet_keeps callee a b this :
  wp True (setMPSet callee a b this) (fun this' => proj this' = proj this).
Proof using proj_members proj_set_nGof proj_set_init proj_set_partition.
  unfold setMPSet.
  set (this' := set_partition _ _ this).
  assert (H' : proj this' = proj this) by (subst this'; apply proj_set_partition).
  clearbody this'. destruct (_gofOpMode this'); [|now apply wp_ret..].
  apply wp_bind. eapply wp_mono; [now apply (initialize_kept proj)|].
  intros [e b0] He. simpl in He.
  apply wp_bind. eapply wp_mono; [apply wp_any|]. intros ga _.
  apply wp_ret. rewrite (kept_set_gofArray proj) by done. congruence.
Qed.

Lemma perform_keeps c this :
  wp True (perform c this) (fun this' => proj this' = proj this).
Proof using All.
  destruct c; unfold perform.
  - apply wp_bind. eapply wp_mono; [apply evaluate_keeps|].
    intros [e v] He. apply wp_ret. exact He.
  - apply wp_bind. eapply wp_mono; [now apply (initialize_kept proj)|].
    intros [e v] He. apply wp_ret. exact He.
  - apply wp_bind. eapply wp_mono; [apply redirectServersHook_keeps|].
    intros [e v] He. apply wp_ret. exact He.
  - apply constOptimize_keeps.
  - apply setMPSet_keeps.
  - apply wp_ret. apply proj_set_simCount.
Qed.

Lemma performAll_keeps cs this :
  wp True (performAll cs this) (fun this' => proj this' = proj this).
Proof using All.
  revert this. induction cs as [|c cs IH]; intros this; simpl.
  - now apply wp_ret.
  - apply wp_bind. eapply wp_mono; [apply perform_keeps|]. intros e He.
    eapply wp_mono; [apply IH|]. simpl. intros e' He'. congruence.
Qed.

End KeptByAll.

(** X8: whatever sequence of operations an instance goes through, it stays
    bound to the model, the dataset and the projected dependents it was
    constructed with, and keeps its name, its title, the event count and the
    number of processes of its construction. *)
Theorem X8_bindings_fixed (calls : list Call) (this : RooAbsGoodnessOfFit)
  (tr : list Event) (this' : RooAbsGoodnessOfFit) :
  performAll calls this = (tr, Returned this') ->
  _pdf this' = _pdf this /\ _data this' = _data this /\
  _projDeps this' = _projDeps this /\ _nEvents this' = _nEvents this /\
  _nCPU this' = _nCPU this /\ GetName this' = GetName this /\
  GetTitle this' = GetTitle this.
Proof.
  intros H.
  pose proof (wp_returned _ _ _ _ _
                (performAll_keeps
                   (fun e => (_pdf e, _data e, _projDeps e, _nEvents e, _nCPU e,
                              GetName e, GetTitle e))
                   ltac:(intros e e' He; unfold _pdf, _data, _projDeps, _nEvents,
                           _nCPU, GetName, GetTitle, _name, _title; now rewrite He)
                   ltac:(now intros v [[] ga ma])
                   ltac:(now intros v [[] ga ma])
                   ltac:(now intros a b [[] ga ma])
                   ltac:(now intros v [[] ga ma])
                   ltac:(now intros n [[] ga ma])
                   calls this) H) as E.
  simpl in E. injection E as -> -> -> -> -> -> ->. repeat split.
Qed.

(** ** The states of a simultaneous model *)



Lemma simTrace_Create l dsl types n t :
  Create t ∈ simTrace l dsl types n -> is_Some (getPdf l t).
Proof.
  revert n. induction types as [|type types IH]; intros n; cbn [simTrace].
  - now intros ?%elem_of_nil.
  - destruct (getPdf l type) as [pdf|] eqn:Hp; [|apply IH].
    destruct (FindObject dsl type) as [dset|].
    + intros [?|[[= ->]|H]%elem_of_cons]%elem_of_cons; [done|eauto|eapply IH, H].
    + intros [?|H]%elem_of_cons; [done|eapply IH, H].
Qed.

Lemma simTrace_length l dsl types n :
  length (simTrace l dsl types n)
  = (2 * length (List.filter (countsAsUsed l dsl) types)
     + length (List.filter (lacksData l dsl) types))%nat.
Proof.
  revert n. induction types as [|type types IH]; intros n; [done|].
  cbn [simTrace List.filter]. unfold countsAsUsed at 1, lacksData at 1.
  destruct (getPdf l type); [destruct (FindObject dsl type)|];
    cbn [length]; rewrite IH; lia.
Qed.

Lemma slaves_names ps pd g l dsl (types : list string) c :
  c ∈ omap (slaveFor ps pd g l dsl) types ->
  is_Some (getPdf l (GetName c)) /\ is_Some (FindObject dsl (GetName c)).
Proof.
  intros (type & _ & Hc)%list_elem_of_omap. unfold slaveFor in Hc.
  destruct (getPdf l type) as [pdf|] eqn:Hp; [|done].
  destruct (FindObject dsl type) as [dset|] eqn:Hd; [|done].
  injection Hc as <-.
  replace (GetName (slaveOf ps pd g type pdf dset)) with type by reflexivity.
  rewrite Hp, Hd. eauto.
Qed.

Lemma Initialize_SimMaster this nm simCat l dsl :
  _gofOpMode this = SimMaster -> _init this = false ->
  _pdf this = RooSimultaneous nm simCat l ->
  split (_data this) simCat = Some dsl ->
  Z.of_nat (length (catTypes simCat)) <= Int.max ->
  let nGof := Z.of_nat (length (List.filter (countsAsUsed l dsl) (catTypes simCat))) in
  Initialize this
  = (simTrace l dsl (catTypes simCat) 0,
     Returned (set_init true
                 (set_gofArray
                    (Some <$> omap (slaveFor (_paramSet this) (_projDeps this) nGof l dsl)
                                (catTypes simCat))
                    (set_nGof nGof this)), false)).
Proof.
  intros Hm Hi Hp Hs Hmax nGof.
  destruct (rank_SimMaster_positive this nm simCat l Hp) as [k Hk].
  unfold Initialize, initialize. rewrite Hk, Hi, Hm, Hp.
  rewrite (initSimMode_result _ _ _ _ _ _ _ dsl (dispatch_redirectsFresh k) Hs Hmax).
  rewrite bind_returned. cbn [fst snd]. now rewrite app_nil_r.
Qed.

(** X9: a state for which the simultaneous model has no component is
    passed over in silence, whether the split has a subset for it or not:
    the set-up builds no engine for it, no child bears its name, and every
    event of the set-up is accounted for by the states that have a component
    (two for a state with data, one for a state without). *)
Theorem X9_state_without_component_is_skipped (this : RooAbsGoodnessOfFit)
  (nm : string) (simCat : RooAbsCategoryLValue) (l : list (string * RooAbsPdf))
  (dsl : list RooAbsData) (tr : list Event) (this' : RooAbsGoodnessOfFit) (b : bool) :
  _gofOpMode this = SimMaster -> _init this = false ->
  _pdf this = RooSimultaneous nm simCat l ->
  split (_data this) simCat = Some dsl ->
  Z.of_nat (length (catTypes simCat)) <= Int.max ->
  Initialize this = (tr, Returned (this', b)) ->
  (forall type, getPdf l type = None ->
     (Create type ∉ tr) /\
     forall i c, _gofArray this' !! i = Some (Some c) -> GetName c <> type) /\
  length tr
  = (2 * length (List.filter (countsAsUsed l dsl) (catTypes simCat))
     + length (List.filter (lacksData l dsl) (catTypes simCat)))%nat.
Proof.
  intros Hm Hi Hp Hs Hmax H.
  rewrite (Initialize_SimMaster this nm simCat l dsl Hm Hi Hp Hs Hmax) in H.
  injection H as <- <- <-. split; [|apply simTrace_length].
  intros type Hnone. split.
  - intros [pdf Hpdf]%simTrace_Create. congruence.
  - intros i c Hc Hname.
    replace (_gofArray _) with
      (Some <$> omap (slaveFor (_paramSet this) (_projDeps this)
                        (Z.of_nat (length (List.filter (countsAsUsed l dsl)
                                             (catTypes simCat)))) l dsl)
                  (catTypes simCat)) in Hc by now destruct this as [[] ga ma].
    rewrite list_lookup_fmap in Hc.
    destruct (omap _ _ !! i) as [c'|] eqn:Hi'; [|done]. injection Hc as ->.
    apply list_elem_of_lookup_2, slaves_names in Hi' as [[pdf Hpdf] _].
    rewrite Hname in Hpdf. congruence.
Qed.


Lemma atSlot_forward {T : Type} guarded (method : T -> M T) (h : T -> T)
  (xs : list T) :
  Forall (fun x => method x = ([], Returned (h x))) xs ->
  forall front tl,
    forRange (length xs) (length front) (atSlot guarded method)
      (front ++ (Some <$> xs) ++ tl)
    = ([], Returned (front ++ (Some <$> (h <$> xs)) ++ tl)).
Proof.
  induction 1 as [|x xs Hx _ IH]; intros front tl; [reflexivity|].
  cbn [length forRange fmap list_fmap app].
  rewrite (atSlot_middle _ _ _ _ _ _ _ Hx), bind_pure.
  specialize (IH (front ++ [Some (h x)]) tl).
  rewrite length_app, Nat.add_1_r, <- !app_assoc in IH. exact IH.
Qed.

Lemma slaves_Slave ps pd g l dsl (types : list string) :
  Forall (fun p => isSimultaneous p.2 = false) l ->
  Forall (fun c => _gofOpMode c = Slave)
    (omap (slaveFor ps pd g l dsl) types).
Proof.
  intros Hplain. apply Forall_forall. intros c (type & _ & Hc)%list_elem_of_omap.
  unfold slaveFor in Hc.
  destruct (getPdf l type) as [pdf|] eqn:Hp; [|done].
  destruct (FindObject dsl type) as [dset|]; [|done]. injection Hc as <-.
  apply getPdf_In in Hp as [s Hin]. rewrite Forall_forall in Hplain.
  apply list_elem_of_In in Hin. specialize (Hplain _ Hin). simpl in Hplain.
  unfold slaveOf, RooAbsGoodnessOfFit_new, _gofOpMode. cbn. now rewrite Hplain.
Qed.

Lemma stateValues_slaves ps pd g a b l dsl (types : list string) :
  (fun c => evaluatePartition (_pdf c) (_data c) (_projDeps c) (_simCount c)
              (nFirst (_nEvents c) a b) (nLast (_nEvents c) a b))
    <$> omap (slaveFor ps pd g l dsl) types
  = stateValues pd g a b l dsl types.
Proof.
  induction types as [|type types IH]; [done|].
  unfold stateValues in *. cbn [omap list_omap]. unfold slaveFor at 1.
  destruct (getPdf l type) as [pdf|]; [|exact IH].
  destruct (FindObject dsl type) as [dset|]; [|exact IH].
  cbn [fmap list_fmap]. now rewrite IH.
Qed.

Lemma FindObject_In dsl type dset : FindObject dsl type = Some dset -> dset ∈ dsl.
Proof.
  unfold FindObject. intros H. apply List.find_some in H as [Hin _].
  now apply list_elem_of_In.
Qed.

(** Within the bounds the slices of the subsets are the exact quotients. *)
Lemma stateValues_exact pd g a b l dsl (types : list string) :
  0 <= a < b -> b <= Int.max ->
  Forall (fun d => sliceable b (numEntries d)) dsl ->
  stateValues pd g a b l dsl types = sliceValues pd g a b l dsl types.
Proof.
  intros Ha Hb Hfit. unfold stateValues, sliceValues.
  induction types as [|t types IH]; [done|]. cbn [omap list_omap]. rewrite IH.
  destruct (getPdf l t) as [pdf|]; [|done].
  destruct (FindObject dsl t) as [dset|] eqn:Hd; [|done].
  rewrite Forall_forall in Hfit. destruct (Hfit _ (FindObject_In _ _ _ Hd)) as [H0 H1].
  rewrite nFirst_exact, nLast_exact by lia. reflexivity.
Qed.

(** X10: a partitioned simultaneous likelihood: told to evaluate slice
    [setNum] of [numSets], with [0 <= setNum < numSets] and every subset
    small enough for its slices to be formed within [Int_t], a SimMaster
    over plain components sets itself up and hands the partition to its
    children, and from then on its value is the sum, over the states that
    have a component and a subset, of the value of the slice
    [n*setNum/numSets, n*(setNum+1)/numSets) of the [n] entries of the
    subset of each state. *)
Theorem X10_SimMaster_partition_value (this : RooAbsGoodnessOfFit) (nm : string)
  (simCat : RooAbsCategoryLValue) (l : list (string * RooAbsPdf))
  (dsl : list RooAbsData) (setNum numSets : Z) :
  _gofOpMode this = SimMaster -> _init this = false ->
  _pdf this = RooSimultaneous nm simCat l ->
  Forall (fun p => isSimultaneous p.2 = false) l ->
  split (_data this) simCat = Some dsl ->
  Z.of_nat (length (catTypes simCat)) <= Int.max ->
  0 <= setNum < numSets -> numSets <= Int.max ->
  Forall (fun d => sliceable numSets (numEntries d)) dsl ->
  let nGof := Z.of_nat (length (List.filter (countsAsUsed l dsl) (catTypes simCat))) in
  exists this' this1,
    SetMPSet setNum numSets this
    = (simTrace l dsl (catTypes simCat) 0, Returned this') /\
    _nGof this' = nGof /\
    Evaluate this'
    = ([], Returned (this1,
                     foldl Dadd Dzero
                       (sliceValues (_projDeps this) nGof setNum numSets l dsl
                          (catTypes simCat)))).
Proof.
  intros Hm Hi Hp Hplain Hs Hmax Hsel Hsmax Hfit nGof.
  assert (Hsets : numSets <> 0) by lia.
  rewrite <- (stateValues_exact (_projDeps this) nGof setNum numSets l dsl
                (catTypes simCat) Hsel Hsmax Hfit).
  destruct (rank_SimMaster_positive this nm simCat l Hp) as [k Hk].
  set (t0 := set_partition setNum numSets this).
  assert (Ht0 : _gofOpMode t0 = SimMaster /\ _init t0 = false /\
                _pdf t0 = _pdf this /\ _data t0 = _data this /\
                _paramSet t0 = _paramSet this /\ _projDeps t0 = _projDeps this /\
                rank t0 = rank this).
  { subst t0. rewrite rank_set_partition. now destruct this as [[] ga ma]. }
  destruct Ht0 as (Hm0 & Hi0 & Hp0 & Hd0 & Hps0 & Hpd0 & Hr0).
  set (slaves := omap (slaveFor (_paramSet this) (_projDeps this) nGof l dsl)
                   (catTypes simCat)).
  assert (Hlen : length slaves = Z.to_nat nGof).
  { subst slaves nGof. now rewrite slaves_length, Nat2Z.id. }
  pose proof (slaves_Slave (_paramSet this) (_projDeps this) nGof l dsl
                (catTypes simCat) Hplain) as Hslave. fold slaves in Hslave.
  set (e := set_init true (set_gofArray (Some <$> slaves) (set_nGof nGof t0))).
  assert (Hinit : initialize (dispatch (S k)) t0
                  = (simTrace l dsl (catTypes simCat) 0, Returned (e, false))).
  { rewrite <- Hk, <- Hr0. fold (Initialize t0).
    rewrite (Initialize_SimMaster t0 nm simCat l dsl) by congruence.
    now rewrite Hps0, Hpd0. }
  assert (He : _gofOpMode e = SimMaster /\ _nGof e = nGof /\
               _gofArray e = Some <$> slaves /\ _init e = true /\
               _pdf e = _pdf this /\ _projDeps e = _projDeps this).
  { subst e t0. now destruct this as [[] ga ma]. }
  destruct He as (Hme & Hne & Hae & Hie & Hpe & Hpde).
  set (children := set_partition setNum numSets <$> slaves).
  assert (Hfwd : For (_nGof e) (atSlot true (call_setMPSet (dispatch (S k)) setNum numSets))
                   (_gofArray e)
                 = ([], Returned (Some <$> children))).
  { rewrite Hne, Hae. unfold For. rewrite <- Hlen.
    pose proof (atSlot_forward true (call_setMPSet (dispatch (S k)) setNum numSets)
                  (set_partition setNum numSets) slaves) as Hf.
    specialize (Hf ltac:(eapply Forall_impl; [exact Hslave|];
                         intros c Hc; cbn [dispatch call_setMPSet];
                         apply setMPSet_plain; congruence) [] []).
    cbn [app length] in Hf. now rewrite !app_nil_r in Hf. }
  set (this' := set_gofArray (Some <$> children) e).
  assert (Hset : SetMPSet setNum numSets this
                 = (simTrace l dsl (catTypes simCat) 0, Returned this')).
  { unfold SetMPSet, setMPSet. fold t0. rewrite Hk, Hm0.
    etransitivity.
    { eapply bind_eq; [exact Hinit|].
      eapply bind_eq; [exact Hfwd|reflexivity]. }
    now rewrite !app_nil_r. }
  assert (H' : _gofOpMode this' = SimMaster /\ _nGof this' = nGof /\
               _gofArray this' = Some <$> children /\ _init this' = true /\
               _pdf this' = _pdf this).
  { subst this'. rewrite mode_set_gofArray, nGof_set_gofArray, gofArray_set_gofArray,
      init_set_gofArray. split; [done|]. split; [done|]. split; [done|].
    split; [done|]. now destruct e. }
  destruct H' as (Hm' & Hn' & Ha' & Hi' & Hp').
  destruct (rank_SimMaster_positive this' nm simCat l ltac:(congruence)) as [k' Hk'].
  pose proof (cv_forward (call_getVal (dispatch (S k')))
                (set_init true)
                (fun c => evaluatePartition (_pdf c) (_data c) (_projDeps c)
                            (_simCount c)
                            (nFirst (_nEvents c) (_setNum c) (_numSets c))
                            (nLast (_nEvents c) (_setNum c) (_numSets c)))
                children) as Hcv.
  specialize (Hcv ltac:(subst children; rewrite Forall_fmap;
                        eapply Forall_impl; [exact Hslave|];
                        intros c Hc; cbn [compose dispatch call_getVal];
                        apply evaluate_Slave;
                        [rewrite <- Hc; now destruct c as [[] ? ?]
                        |now destruct c as [[] ? ?]]) [] Dzero []).
  cbn [app length] in Hcv. rewrite !app_nil_r in Hcv.
  assert (Hval : (fun c => evaluatePartition (_pdf c) (_data c) (_projDeps c)
                             (_simCount c)
                             (nFirst (_nEvents c) (_setNum c) (_numSets c))
                             (nLast (_nEvents c) (_setNum c) (_numSets c)))
                   <$> children
                 = stateValues (_projDeps this) nGof setNum numSets l dsl
                     (catTypes simCat)).
  { rewrite <- (stateValues_slaves (_paramSet this) (_projDeps this) nGof setNum
                  numSets l dsl (catTypes simCat)).
    fold slaves. subst children. rewrite <- list_fmap_compose.
    apply list_fmap_ext. intros i c _. cbn [compose]. now destruct c as [[] ? ?]. }
  rewrite Hval in Hcv.
  exists this', (set_gofArray (Some <$> (set_init true <$> children)) this').
  split; [exact Hset|]. split; [exact Hn'|].
  unfold Evaluate, evaluate. rewrite Hk', Hi'. cbn [negb]. rewrite bind_ret, Hm'.
  rewrite combinedValue_unfold, Hn', Ha', <- Hlen.
  replace (length slaves) with (length children)
    by (subst children; apply length_fmap).
  rewrite Hcv, bind_pure. reflexivity.
Qed.

(** ** The children of a SimMaster and its value *)

Lemma append_cons a s1 s2 : String a s1 +:+ s2 = String a (s1 +:+ s2).
Proof. reflexivity. Qed.

Lemma length_append s1 s2 :
  String.length (s1 +:+ s2) = (String.length s1 + String.length s2)%nat.
Proof.
  induction s1 as [|a s1 IH]; [reflexivity|].
  rewrite append_cons. cbn [String.length]. now rewrite IH.
Qed.

Lemma append_inv_r s s1 s2 : s1 +:+ s = s2 +:+ s -> s1 = s2.
Proof.
  revert s2. induction s1 as [|a s1 IH]; intros [|b s2] H.
  - reflexivity.
  - change (s = String b (s2 +:+ s)) in H. apply (f_equal String.length) in H.
    cbn [String.length] in H. rewrite length_append in H. lia.
  - change (String a (s1 +:+ s) = s) in H. apply (f_equal String.length) in H.
    cbn [String.length] in H. rewrite length_append in H. lia.
  - rewrite !append_cons in H. injection H as -> H. f_equal. now apply IH.
Qed.

Lemma noDataMessage_inj t1 t2 : noDataMessage t1 = noDataMessage t2 -> t1 = t2.
Proof.
  unfold noDataMessage. intros H.
  apply (inj (String.append _)) in H. now apply append_inv_r in H.
Qed.

Lemma creating_not_noData n t dset type :
  creatingMessage n t dset <> noDataMessage type.
Proof.
  unfold creatingMessage, noDataMessage. intros H.
  cbv [String.append] in H.
  discriminate H.
Qed.

Lemma Cout_inj a b : Cout a = Cout b -> a = b.
Proof. congruence. Qed.

(** The diagnostic of a state is printed for that state only, and only when
    the split lists no subset for it. *)
Lemma simTrace_noData_only l dsl types n type :
  Cout (noDataMessage type) ∈ simTrace l dsl types n -> FindObject dsl type = None.
Proof.
  revert n. induction types as [|t types IH]; intros n Hin.
  - now apply elem_of_nil in Hin.
  - cbn [simTrace] in Hin.
    destruct (getPdf l t) as [pdf|]; [destruct (FindObject dsl t) as [dset|] eqn:Hd|].
    + apply elem_of_cons in Hin as [Heq|Hin].
      { apply Cout_inj in Heq. symmetry in Heq. now apply creating_not_noData in Heq. }
      apply elem_of_cons in Hin as [Heq|Hin]; [discriminate|]. now apply IH in Hin.
    + apply elem_of_cons in Hin as [Heq|Hin]; [|now apply IH in Hin].
      apply Cout_inj, noDataMessage_inj in Heq. now subst.
    + now apply IH in Hin.
Qed.

Lemma nFirst_whole n : nFirst n 0 1 = 0.
Proof. unfold nFirst, Int.mul, Int.div. rewrite Z.mul_0_r. reflexivity. Qed.

Lemma nLast_whole n : Int.inRange n -> nLast n 0 1 = n.
Proof.
  intros Hr. unfold nLast, Int.mul, Int.div, Int.add. change (Int.wrap (0 + 1)) with 1.
  rewrite Z.mul_1_r, (Int_wrap_inRange _ Hr), Z.quot_1_r.
  now apply Int_wrap_inRange.
Qed.

Lemma stateValues_whole pd g l dsl (types : list string) :
  Forall (fun d => Int.inRange (numEntries d)) dsl ->
  stateValues pd g 0 1 l dsl types = wholeValues pd g l dsl types.
Proof.
  intros Hr. unfold stateValues, wholeValues.
  induction types as [|t types IH]; [done|]. cbn [omap list_omap]. rewrite IH.
  destruct (getPdf l t) as [pdf|]; [|done].
  destruct (FindObject dsl t) as [dset|] eqn:Hd; [|done].
  rewrite Forall_forall in Hr.
  now rewrite nFirst_whole, (nLast_whole _ (Hr _ (FindObject_In _ _ _ Hd))).
Qed.

Lemma slaves_fresh ps pd g l dsl (types : list string) :
  Forall (fun c => _setNum c = 0 /\ _numSets c = 1)
    (omap (slaveFor ps pd g l dsl) types).
Proof.
  apply Forall_forall. intros c (type & _ & Hc)%list_elem_of_omap.
  unfold slaveFor in Hc.
  destruct (getPdf l type) as [pdf|]; [|done].
  destruct (FindObject dsl type) as [dset|]; [|done]. now injection Hc as <-.
Qed.

(** The first evaluation of a SimMaster over plain components: it sets
    itself up and returns the sum, over the states that have a component and
    a subset, of the value of the first of one slice of the subset. *)
Lemma Evaluate_SimMaster_flat this nm simCat l dsl :
  _gofOpMode this = SimMaster -> _init this = false ->
  _pdf this = RooSimultaneous nm simCat l ->
  Forall (fun p => isSimultaneous p.2 = false) l ->
  split (_data this) simCat = Some dsl ->
  Z.of_nat (length (catTypes simCat)) <= Int.max ->
  let nGof := Z.of_nat (length (List.filter (countsAsUsed l dsl) (catTypes simCat))) in
  exists this1,
    Evaluate this
    = (simTrace l dsl (catTypes simCat) 0,
       Returned (this1,
                 foldl Dadd Dzero
                   (stateValues (_projDeps this) nGof 0 1 l dsl (catTypes simCat)))).
Proof.
  intros Hm Hi Hp Hplain Hs Hmax nGof.
  destruct (rank_SimMaster_positive this nm simCat l Hp) as [k Hk].
  set (slaves := omap (slaveFor (_paramSet this) (_projDeps this) nGof l dsl)
                   (catTypes simCat)).
  assert (Hlen : length slaves = Z.to_nat nGof).
  { subst slaves nGof. now rewrite slaves_length, Nat2Z.id. }
  pose proof (slaves_Slave (_paramSet this) (_projDeps this) nGof l dsl
                (catTypes simCat) Hplain) as Hslave. fold slaves in Hslave.
  pose proof (slaves_fresh (_paramSet this) (_projDeps this) nGof l dsl
                (catTypes simCat)) as Hfresh. fold slaves in Hfresh.
  set (e := set_init true (set_gofArray (Some <$> slaves) (set_nGof nGof this))).
  assert (Hinit : initialize (dispatch (S k)) this
                  = (simTrace l dsl (catTypes simCat) 0, Returned (e, false))).
  { rewrite <- Hk. fold (Initialize this).
    now rewrite (Initialize_SimMaster this nm simCat l dsl). }
  assert (He : _gofOpMode e = SimMaster /\ _nGof e = nGof /\
               _gofArray e = Some <$> slaves).
  { subst e. now destruct this as [[] ga ma]. }
  destruct He as (Hme & Hne & Hae).
  pose proof (cv_forward (call_getVal (dispatch (S k)))
                (set_init true)
                (fun c => evaluatePartition (_pdf c) (_data c) (_projDeps c)
                            (_simCount c)
                            (nFirst (_nEvents c) 0 1) (nLast (_nEvents c) 0 1))
                slaves) as Hcv.
  specialize (Hcv ltac:(apply Forall_forall; intros c Hc;
                        rewrite Forall_forall in Hslave, Hfresh;
                        destruct (Hfresh c Hc) as [H0 H1];
                        cbn [dispatch call_getVal];
                        rewrite evaluate_Slave by (rewrite ?H1; auto; lia);
                        now rewrite H0, H1) [] Dzero []).
  cbn [app length] in Hcv. rewrite !app_nil_r in Hcv.
  pose proof (stateValues_slaves (_paramSet this) (_projDeps this) nGof 0 1 l dsl
                (catTypes simCat)) as Hval.
  fold slaves in Hval. rewrite Hval in Hcv.
  exists (set_gofArray (Some <$> (set_init true <$> slaves)) e).
  unfold Evaluate, evaluate. rewrite Hk, Hi. cbn [negb].
  etransitivity.
  { eapply bind_eq.
    { eapply bind_eq; [exact Hinit|reflexivity]. }
    rewrite Hme. eapply bind_eq.
    { rewrite combinedValue_unfold, Hne, Hae, <- Hlen. exact Hcv. }
    reflexivity. }
  now rewrite !app_nil_r.
Qed.

(** C2 (amended): a SimMaster that initialises itself on a dataset whose
    split succeeds ends up with [_nGof] equal to the number of states that
    have both a component and a subset listed by the split, whether or not
    the subset holds entries, and with a child array of that length; the
    children are, in the order of the states, the engines built by the
    factory for those states, each told [setSimCount(_nGof)]; a state with a
    component and no listed subset is reported on [cout] and has no child; a
    state with a component and a listed subset has a child and is not
    reported; and over plain components the first evaluation returns the
    sum of the values of the whole subsets of exactly the accepted states.
    (Over a component that is simultaneous itself the child would split, at
    its own initialisation, the subset that [initSimMode] deletes before it
    returns; nothing is said of that.) *)
Theorem C2_simMaster_children (this : RooAbsGoodnessOfFit) (nm : string)
  (simCat : RooAbsCategoryLValue) (l : list (string * RooAbsPdf))
  (dsl : list RooAbsData) :
  _gofOpMode this = SimMaster -> _init this = false ->
  _pdf this = RooSimultaneous nm simCat l ->
  split (_data this) simCat = Some dsl ->
  Z.of_nat (length (catTypes simCat)) <= Int.max ->
  let used := List.filter (countsAsUsed l dsl) (catTypes simCat) in
  exists tr this',
    Initialize this = (tr, Returned (this', false)) /\
    _nGof this' = Z.of_nat (length used) /\
    length (_gofArray this') = length used /\
    (forall i type, used !! i = Some type ->
       exists pdf dset child,
         getPdf l type = Some pdf /\ FindObject dsl type = Some dset /\
         _gofArray this' !! i = Some (Some child) /\
         child = slaveOf (_paramSet this) (_projDeps this) (_nGof this')
                   type pdf dset /\
         _simCount child = _nGof this') /\
    (forall type, type ∈ catTypes simCat -> is_Some (getPdf l type) ->
       FindObject dsl type = None ->
       Cout (noDataMessage type) ∈ tr /\ type ∉ used) /\
    (forall type, type ∈ catTypes simCat -> is_Some (getPdf l type) ->
       is_Some (FindObject dsl type) ->
       type ∈ used /\ (Cout (noDataMessage type) ∉ tr)) /\
    (Forall (fun p => isSimultaneous p.2 = false) l ->
     Forall (fun d => Int.inRange (numEntries d)) dsl ->
     exists this1,
       Evaluate this
       = (tr, Returned (this1,
                        foldl Dadd Dzero
                          (wholeValues (_projDeps this) (Z.of_nat (length used))
                             l dsl (catTypes simCat))))).
Proof.
  intros Hm Hi Hp Hs Hmax used.
  set (nGof := Z.of_nat (length used)).
  set (slaves := omap (slaveFor (_paramSet this) (_projDeps this) nGof l dsl)
                   (catTypes simCat)).
  exists (simTrace l dsl (catTypes simCat) 0),
    (set_init true (set_gofArray (Some <$> slaves) (set_nGof nGof this))).
  pose proof (Initialize_SimMaster this nm simCat l dsl Hm Hi Hp Hs Hmax) as Hinit.
  cbn zeta in Hinit. fold used nGof slaves in Hinit.
  split; [exact Hinit|].
  split; [now destruct this as [[] ga ma]|].
  split; [|split; [|split; [|split]]].
  - replace (_gofArray _) with (Some <$> slaves) by now destruct this as [[] ga ma].
    rewrite length_fmap. unfold slaves. now rewrite slaves_length.
  - intros i type Hit.
    destruct (slaves_lookup (_paramSet this) (_projDeps this) nGof l dsl _ _ _ Hit)
      as (pdf & dset & Hpdf & Hdset & Hslave).
    exists pdf, dset, (slaveOf (_paramSet this) (_projDeps this) nGof type pdf dset).
    split; [done|]. split; [done|].
    replace (_gofArray _) with (Some <$> slaves) by now destruct this as [[] ga ma].
    replace (_nGof _) with nGof by now destruct this as [[] ga ma].
    split; [|split; [done|reflexivity]].
    rewrite list_lookup_fmap. fold slaves in Hslave. now rewrite Hslave.
  - intros type Hin Hpdf Hd. split; [now apply simTrace_noData|].
    intros Hu%list_elem_of_In%List.filter_In.
    destruct Hu as [_ Hu]. unfold countsAsUsed in Hu. rewrite Hd in Hu.
    now destruct (getPdf l type).
  - intros type Hin [pdf Hpdf] [dset Hd]. split.
    + apply list_elem_of_In, List.filter_In. split; [now apply list_elem_of_In|].
      unfold countsAsUsed. now rewrite Hpdf, Hd.
    + intros Hmsg%simTrace_noData_only. congruence.
  - intros Hplain Hr.
    destruct (Evaluate_SimMaster_flat this nm simCat l dsl Hm Hi Hp Hplain Hs Hmax)
      as (this1 & Hev).
    exists this1. rewrite Hev. now rewrite stateValues_whole.
Qed.

End Further.

(** * Parallel evaluation *)

(** ** Sums of values *)

Section Sums.
Context {subclass : Subclass}.
Hypothesis Hsum : exactSum.

Lemma Dadd_zero_r x : Dadd x Dzero = x.
Proof. destruct Hsum as (H0 & Hc & _). now rewrite Hc. Qed.

Lemma foldl_Dadd_acc a l : foldl Dadd a l = Dadd a (foldl Dadd Dzero l).
Proof.
  destruct Hsum as (H0 & Hc & Ha).
  revert a. induction l as [|y l IH]; intros a; cbn [foldl].
  - now rewrite Dadd_zero_r.
  - rewrite IH, (IH (Dadd Dzero y)), H0. now rewrite Ha.
Qed.

Lemma sum_cons x l : foldl Dadd Dzero (x :: l) = Dadd x (foldl Dadd Dzero l).
Proof.
  destruct Hsum as (H0 & _). cbn [foldl]. now rewrite H0, foldl_Dadd_acc.
Qed.

Lemma Dadd_swap x y u v : Dadd (Dadd x y) (Dadd u v) = Dadd (Dadd x u) (Dadd y v).
Proof.
  destruct Hsum as (_ & Hc & Ha).
  rewrite <- (Ha x y), (Ha y u), (Hc y u), <- (Ha u y), (Ha x u). reflexivity.
Qed.

(** The sum of termwise sums is the sum of the sums. *)
Lemma sum_pointwise {I : Type} (f g : I -> Double_t) (l : list I) :
  foldl Dadd Dzero ((fun i => Dadd (f i) (g i)) <$> l)
  = Dadd (foldl Dadd Dzero (f <$> l)) (foldl Dadd Dzero (g <$> l)).
Proof.
  induction l as [|i l IH]; cbn [fmap list_fmap].
  - cbn [foldl]. now rewrite Dadd_zero_r.
  - rewrite !sum_cons, IH. apply Dadd_swap.
Qed.

Lemma sum_zeros {I : Type} (l : list I) :
  foldl Dadd Dzero ((fun _ => Dzero) <$> l) = Dzero.
Proof.
  induction l as [|i l IH]; [done|]. cbn [fmap list_fmap].
  rewrite sum_cons, IH. apply Dadd_zero_r.
Qed.

Hypothesis Hadd : additive.

(** The first [k+1] of [N] slices of [n] entries sum up to the value of the
    entries below the end of the last of them. *)
Lemma slices_partial pdf data pd sc n N (k : nat) :
  sliceable N n -> 1 <= N <= Int.max -> Z.of_nat k < N ->
  foldl Dadd Dzero
    ((fun i : nat => evaluatePartition pdf data pd sc
                       (nFirst n (Z.of_nat i) N) (nLast n (Z.of_nat i) N))
       <$> seq 0 (S k))
  = evaluatePartition pdf data pd sc 0 (n * (Z.of_nat k + 1) / N).
Proof.
  intros [Hn Hmax] HN. induction k as [|k IH]; intros Hk.
  - cbn [seq fmap list_fmap foldl]. destruct Hsum as (H0 & _). rewrite H0.
    rewrite nFirst_exact, nLast_exact by lia.
    now rewrite Z.mul_0_r, Z.div_0_l by lia.
  - rewrite seq_S, fmap_app, foldl_app, IH by lia. cbn [fmap list_fmap foldl].
    rewrite nFirst_exact, nLast_exact by lia.
    replace (Z.of_nat k + 1) with (Z.of_nat (S k)) by lia.
    rewrite Nat.add_0_l. apply Hadd.
    + split; [lia|]. apply Z.div_pos; nia.
    + apply Z.div_le_mono; nia.
Qed.

(** All the slices of [n] entries sum up to the value of the [n] entries. *)
Lemma slices_total pdf data pd sc n N :
  sliceable N n -> 1 <= N <= Int.max ->
  foldl Dadd Dzero
    ((fun i : nat => evaluatePartition pdf data pd sc
                       (nFirst n (Z.of_nat i) N) (nLast n (Z.of_nat i) N))
       <$> seq 0 (Z.to_nat N))
  = evaluatePartition pdf data pd sc 0 n.
Proof.
  intros Hs HN. destruct (Z.to_nat N) as [|k] eqn:Ek; [lia|].
  rewrite slices_partial by (first [done|lia]).
  replace (Z.of_nat k + 1) with N by lia. destruct Hs. now rewrite Z.div_mul by lia.
Qed.

(** The same state by state. *)
Lemma states_total pd g N l dsl (types : list string) :
  Forall (fun d => sliceable N (numEntries d)) dsl -> 1 <= N <= Int.max ->
  foldl Dadd Dzero
    ((fun i : nat => foldl Dadd Dzero (stateValues pd g (Z.of_nat i) N l dsl types))
       <$> seq 0 (Z.to_nat N))
  = foldl Dadd Dzero (wholeValues pd g l dsl types).
Proof.
  intros Hfit HN. induction types as [|t types IH].
  - cbn. apply sum_zeros.
  - unfold stateValues, wholeValues in *. cbn [omap list_omap].
    destruct (getPdf l t) as [pdf|]; [|exact IH].
    destruct (FindObject dsl t) as [dset|] eqn:Hd; [|exact IH].
    rewrite sum_cons, <- IH.
    rewrite Forall_forall in Hfit. pose proof (Hfit _ (FindObject_In _ _ _ Hd)) as Hs.
    rewrite <- (slices_total pdf dset pd g (numEntries dset) N Hs HN).
    rewrite <- sum_pointwise. f_equal. apply list_fmap_ext. intros _ i _.
    apply sum_cons.
Qed.

End Sums.

(** ** The workers of an MPMaster over a simultaneous model *)

Section Parallel.
Context {subclass : Subclass}.

Lemma set_partition_twice a b a' b' c :
  set_partition a b (set_partition a' b' c) = set_partition a b c.
Proof. now destruct c as [[] ga ma]. Qed.

Lemma partitioned_relabel cs a b g t n :
  partitioned cs a b g -> partitioned cs a b (set_title t (set_name n g)).
Proof. unfold partitioned. now destruct g as [[] ga ma]. Qed.

(** Told of another partition, an initialised SimMaster over Slaves hands it
    to its children and nothing else happens. *)
Lemma partitioned_setMPSet cs a' b' a b g :
  partitioned cs a' b' g -> Forall (fun c => _gofOpMode c = Slave) cs ->
  exists g', SetMPSet a b g = ([], Returned g') /\ partitioned cs a b g'.
Proof.
  intros (Hm & Hi & Hn & Ha & _ & _) Hsl.
  set (t0 := set_partition a b g).
  assert (Ht0 : _gofOpMode t0 = SimMaster /\ _init t0 = true /\
                _nGof t0 = Z.of_nat (length cs) /\
                _gofArray t0 = Some <$> (set_partition a' b' <$> cs) /\
                _setNum t0 = a /\ _numSets t0 = b).
  { subst t0. rewrite <- Hm, <- Hi, <- Hn, <- Ha. now destruct g as [[] ga ma]. }
  destruct Ht0 as (Hm0 & Hi0 & Hn0 & Ha0 & Hs0 & Hb0).
  exists (set_gofArray (Some <$> (set_partition a b <$> cs)) t0). split.
  - rewrite <- (setMPSet_stable (S (rank g))) by lia. unfold setMPSet. fold t0.
    rewrite Hm0, (initialize_done _ _ Hi0), bind_pure, Hn0, Ha0. unfold For.
    rewrite Nat2Z.id.
    pose proof (atSlot_forward true (call_setMPSet (dispatch (S (rank g))) a b)
                  (set_partition a b) (set_partition a' b' <$> cs)) as Hf.
    specialize (Hf ltac:(rewrite Forall_fmap; eapply Forall_impl; [exact Hsl|];
                         intros c Hc; cbn [compose dispatch call_setMPSet];
                         apply setMPSet_plain;
                         destruct (members_set_partition a' b' c) as (_ & _ & -> & _);
                         congruence) [] []).
    cbn [app length] in Hf. rewrite !app_nil_r, length_fmap in Hf.
    assert (Heq : set_partition a b <$> (set_partition a' b' <$> cs)
                  = set_partition a b <$> cs).
    { rewrite <- list_fmap_compose. apply list_fmap_ext. intros _ c _.
      cbn [compose]. apply set_partition_twice. }
    rewrite Heq in Hf. now rewrite Hf, bind_pure.
  - unfold partitioned.
    rewrite mode_set_gofArray, init_set_gofArray, nGof_set_gofArray,
      gofArray_set_gofArray.
    destruct (partition_set_gofArray (Some <$> (set_partition a b <$> cs)) t0)
      as [-> ->].
    auto 10.
Qed.

(** Its value is the sum of the values of that slice of its children. *)
Lemma partitioned_Evaluate cs a b g :
  partitioned cs a b g -> Forall (fun c => _gofOpMode c = Slave) cs -> b <> 0 ->
  Evaluate g
  = ([], Returned
           (set_gofArray (Some <$> (set_init true <$> (set_partition a b <$> cs))) g,
            foldl Dadd Dzero
              ((fun c => evaluatePartition (_pdf c) (_data c) (_projDeps c)
                           (_simCount c)
                           (nFirst (_nEvents c) a b) (nLast (_nEvents c) a b))
                 <$> cs))).
Proof.
  intros (Hm & Hi & Hn & Ha & _ & _) Hsl Hb.
  pose proof (cv_forward (call_getVal (dispatch (S (rank g))))
                (set_init true)
                (fun c => evaluatePartition (_pdf c) (_data c) (_projDeps c)
                            (_simCount c)
                            (nFirst (_nEvents c) (_setNum c) (_numSets c))
                            (nLast (_nEvents c) (_setNum c) (_numSets c)))
                (set_partition a b <$> cs)) as Hcv.
  specialize (Hcv ltac:(rewrite Forall_fmap; eapply Forall_impl; [exact Hsl|];
                        intros c Hc; cbn [compose dispatch call_getVal];
                        apply evaluate_Slave;
                        [rewrite <- Hc; now destruct c as [[] ? ?]
                        |now destruct c as [[] ? ?]]) [] Dzero []).
  cbn [app length] in Hcv. rewrite !app_nil_r, length_fmap in Hcv.
  rewrite <- (evaluate_stable (S (rank g))) by lia.
  unfold evaluate. rewrite Hi. cbn [negb]. rewrite bind_ret, Hm.
  assert (Heq : (fun c => evaluatePartition (_pdf c) (_data c) (_projDeps c)
                            (_simCount c)
                            (nFirst (_nEvents c) (_setNum c) (_numSets c))
                            (nLast (_nEvents c) (_setNum c) (_numSets c)))
                  <$> (set_partition a b <$> cs)
                = (fun c => evaluatePartition (_pdf c) (_data c) (_projDeps c)
                              (_simCount c)
                              (nFirst (_nEvents c) a b) (nLast (_nEvents c) a b))
                    <$> cs).
  { rewrite <- list_fmap_compose. apply list_fmap_ext.
    intros _ c _. cbn [compose]. now destruct c as [[] ? ?]. }
  rewrite Heq in Hcv.
  rewrite combinedValue_unfold, Hn, Ha, Nat2Z.id, Hcv, bind_pure. reflexivity.
Qed.

(** The first [setMPSet] sets the prototype up. *)
Lemma SetMPSet_first this nm simCat l dsl a b :
  _gofOpMode this = SimMaster -> _init this = false ->
  _pdf this = RooSimultaneous nm simCat l ->
  Forall (fun p => isSimultaneous p.2 = false) l ->
  split (_data this) simCat = Some dsl ->
  Z.of_nat (length (catTypes simCat)) <= Int.max ->
  let nGof := Z.of_nat (length (List.filter (countsAsUsed l dsl) (catTypes simCat))) in
  let slaves := omap (slaveFor (_paramSet this) (_projDeps this) nGof l dsl)
                  (catTypes simCat) in
  exists g,
    SetMPSet a b this = (simTrace l dsl (catTypes simCat) 0, Returned g) /\
    partitioned slaves a b g.
Proof.
  intros Hm Hi Hp Hplain Hs Hmax nGof slaves.
  destruct (rank_SimMaster_positive this nm simCat l Hp) as [k Hk].
  set (t0 := set_partition a b this).
  assert (Ht0 : _gofOpMode t0 = SimMaster /\ _init t0 = false /\
                _pdf t0 = _pdf this /\ _data t0 = _data this /\
                _paramSet t0 = _paramSet this /\ _projDeps t0 = _projDeps this /\
                rank t0 = rank this).
  { subst t0. rewrite rank_set_partition. now destruct this as [[] ga ma]. }
  destruct Ht0 as (Hm0 & Hi0 & Hp0 & Hd0 & Hps0 & Hpd0 & Hr0).
  assert (Hlen : length slaves = Z.to_nat nGof).
  { subst slaves nGof. now rewrite slaves_length, Nat2Z.id. }
  pose proof (slaves_Slave (_paramSet this) (_projDeps this) nGof l dsl
                (catTypes simCat) Hplain) as Hslave. fold slaves in Hslave.
  set (e := set_init true (set_gofArray (Some <$> slaves) (set_nGof nGof t0))).
  assert (Hinit : initialize (dispatch (S k)) t0
                  = (simTrace l dsl (catTypes simCat) 0, Returned (e, false))).
  { rewrite <- Hk, <- Hr0. fold (Initialize t0).
    rewrite (Initialize_SimMaster t0 nm simCat l dsl) by congruence.
    now rewrite Hps0, Hpd0. }
  assert (He : _gofOpMode e = SimMaster /\ _nGof e = nGof /\
               _gofArray e = Some <$> slaves /\ _init e = true /\
               _setNum e = a /\ _numSets e = b).
  { subst e t0. now destruct this as [[] ga ma]. }
  destruct He as (Hme & Hne & Hae & Hie & Hse & Hbe).
  set (children := set_partition a b <$> slaves).
  assert (Hfwd : For (_nGof e) (atSlot true (call_setMPSet (dispatch (S k)) a b))
                   (_gofArray e)
                 = ([], Returned (Some <$> children))).
  { rewrite Hne, Hae. unfold For. rewrite <- Hlen.
    pose proof (atSlot_forward true (call_setMPSet (dispatch (S k)) a b)
                  (set_partition a b) slaves) as Hf.
    specialize (Hf ltac:(eapply Forall_impl; [exact Hslave|];
                         intros c Hc; cbn [dispatch call_setMPSet];
                         apply setMPSet_plain; congruence) [] []).
    cbn [app length] in Hf. now rewrite !app_nil_r in Hf. }
  exists (set_gofArray (Some <$> children) e). split.
  - unfold SetMPSet, setMPSet. fold t0. rewrite Hk, Hm0.
    etransitivity.
    { eapply bind_eq; [exact Hinit|].
      eapply bind_eq; [exact Hfwd|reflexivity]. }
    now rewrite !app_nil_r.
  - unfold partitioned.
    rewrite mode_set_gofArray, init_set_gofArray, nGof_set_gofArray,
      gofArray_set_gofArray.
    destruct (partition_set_gofArray (Some <$> children) e) as [-> ->].
    rewrite Hne, Hlen. split; [done|]. split; [done|]. split; [lia|]. auto.
Qed.

Lemma mpBody_sim k i gof e front tl cs tr0 g :
  (rank gof <= k)%nat ->
  SetMPSet (Z.of_nat i) (_nCPU e) gof = (tr0, Returned g) ->
  partitioned cs (Z.of_nat i) (_nCPU e) g ->
  _mpfeArray e = front ++ None :: tl -> i = length front ->
  exists tr g',
    mpBody (dispatch (S k)) i (gof, e)
    = (tr, Returned (g', set_mpfeArray (front ++ Some (frontEnd e i g') :: tl) e)) /\
    partitioned cs (Z.of_nat i) (_nCPU e) g' /\ (rank g' <= k)%nat.
Proof.
  intros Hr Hset Hpart Ha ->.
  pose proof (wp_returned _ _ _ _ _ (SetMPSet_served _ _ _) Hset) as Hrg.
  simpl in Hrg.
  set (g' := set_title (Form (GetTitle e) "_GOF" (Z.of_nat (length front)))
               (set_name (Form (GetName e) "_GOF" (Z.of_nat (length front))) g)).
  assert (Hp' : partitioned cs (Z.of_nat (length front)) (_nCPU e) g')
    by now apply partitioned_relabel.
  assert (Hr' : (rank g' <= k)%nat)
    by (subst g'; rewrite rank_set_title, rank_set_name; lia).
  unfold mpBody. rewrite Ha. cbn [dispatch call_setMPSet].
  rewrite (setMPSet_stable k) by exact Hr. fold g'. unfold frontEnd.
  destruct (Z.of_nat (length front) =? _nCPU e - 1).
  - eexists _, g'. split; [|done].
    etransitivity.
    { eapply bind_eq; [exact Hset|]. rewrite bind_ret.
      eapply bind_eq; [reflexivity|].
      eapply bind_eq; [apply storeSlot_middle|].
      eapply bind_eq; [apply atSlot_middle; reflexivity|].
      reflexivity. }
    reflexivity.
  - eexists _, g'. split; [|done].
    etransitivity.
    { eapply bind_eq; [exact Hset|].
      eapply bind_eq; [reflexivity|].
      eapply bind_eq; [reflexivity|].
      eapply bind_eq; [apply storeSlot_middle|].
      eapply bind_eq; [apply atSlot_middle; reflexivity|].
      reflexivity. }
    reflexivity.
Qed.

Lemma mpLoop_sim k this0 proto cs :
  (forall i gof, gof = proto \/ (exists a, partitioned cs a (_nCPU this0) gof) ->
     exists tr g, SetMPSet i (_nCPU this0) gof = (tr, Returned g) /\
                  partitioned cs i (_nCPU this0) g) ->
  forall count front gof,
    gof = proto \/ (exists a, partitioned cs a (_nCPU this0) gof) ->
    (rank gof <= k)%nat ->
    exists tr gof' ws,
      forRange count (length front) (mpBody (dispatch (S k)))
        (gof, set_mpfeArray (front ++ replicate count None) this0)
      = (tr, Returned (gof', set_mpfeArray (front ++ (Some <$> ws)) this0)) /\
      length ws = count /\
      forall j fe, ws !! j = Some fe ->
        partitioned cs (Z.of_nat (length front + j)) (_nCPU this0) (mpfeArg fe) /\
        (rank (mpfeArg fe) <= k)%nat.
Proof.
  intros Hstep. induction count as [|count IH]; intros front gof Hgof Hr.
  - exists [], gof, []. split; [reflexivity|]. split; [done|]. intros j fe [=].
  - cbn [forRange replicate].
    set (e := set_mpfeArray (front ++ None :: replicate count None) this0).
    assert (He : _nCPU e = _nCPU this0) by apply nCPU_set_mpfeArray.
    destruct (Hstep (Z.of_nat (length front)) gof Hgof) as (tr0 & g & Hset & Hpart).
    rewrite <- He in Hset, Hpart.
    destruct (mpBody_sim k (length front) gof e front (replicate count None) cs tr0 g
                Hr Hset Hpart) as (tr1 & g' & Hbody & Hpart' & Hr').
    { apply mpfeArray_set_mpfeArray. }
    { reflexivity. }
    unfold e in Hbody at 3. rewrite set_mpfeArray_twice in Hbody.
    rewrite He in Hpart'.
    set (fe := frontEnd e (length front) g') in *.
    destruct (IH (front ++ [Some fe]) g') as (tr2 & gof' & ws & Hloop & Hlen & Hws).
    { right. eauto. }
    { exact Hr'. }
    rewrite length_app in Hloop, Hws. cbn [length] in Hloop, Hws.
    rewrite Nat.add_1_r, <- app_assoc in Hloop. cbn [app] in Hloop.
    exists (tr1 ++ tr2), gof', (fe :: ws). split; [|split].
    + etransitivity; [eapply bind_eq; [exact Hbody|exact Hloop]|].
      now rewrite <- app_assoc.
    + simpl. now rewrite Hlen.
    + intros [|j] x Hx.
      * injection Hx as <-. rewrite Nat.add_0_r. now split.
      * replace (length front + S j)%nat with (length front + 1 + j)%nat by lia.
        now apply Hws.
Qed.

(** The value of an MPMaster over a simultaneous model with plain
    components: the sum, over the partitions, of the sum over the states of
    the value of that slice of the subset of each state. *)
Lemma Evaluate_MPMaster_sim this nm simCat l dsl :
  _gofOpMode this = MPMaster -> _init this = false ->
  _pdf this = RooSimultaneous nm simCat l ->
  Forall (fun p => isSimultaneous p.2 = false) l ->
  split (_data this) simCat = Some dsl ->
  Z.of_nat (length (catTypes simCat)) <= Int.max ->
  1 <= _nCPU this ->
  let nGof := Z.of_nat (length (List.filter (countsAsUsed l dsl) (catTypes simCat))) in
  exists tr this1,
    Evaluate this
    = (tr, Returned
             (this1,
              foldl Dadd Dzero
                ((fun i : nat =>
                    foldl Dadd Dzero
                      (stateValues (_projDeps this) nGof (Z.of_nat i) (_nCPU this)
                         l dsl (catTypes simCat)))
                   <$> seq 0 (Z.to_nat (_nCPU this))))).
Proof.
  intros Hm Hi Hp Hplain Hs Hmax HN nGof.
  destruct (rank_MPMaster_positive this Hm) as [k Hk].
  pose proof (modeDepth_MPMaster this Hm) as Hdepth. rewrite Hk in Hdepth.
  set (N := _nCPU this) in *.
  set (proto := RooAbsGoodnessOfFit_new (GetName this) (GetTitle this) (_pdf this)
                  (_data this) (_projDeps this) 1).
  assert (Hproto : _gofOpMode proto = SimMaster /\ _init proto = false /\
                   _pdf proto = RooSimultaneous nm simCat l /\
                   _data proto = _data this /\ _projDeps proto = _projDeps this).
  { subst proto. rewrite Hp. repeat split. }
  destruct Hproto as (Hpm & Hpi & Hpp & Hpd & Hppd).
  assert (Hpr : (rank proto <= k)%nat).
  { subst proto. rewrite rank_new. lia. }
  set (cs := omap (slaveFor (_paramSet proto) (_projDeps this) nGof l dsl)
               (catTypes simCat)).
  pose proof (slaves_Slave (_paramSet proto) (_projDeps this) nGof l dsl
                (catTypes simCat) Hplain) as Hslave. fold cs in Hslave.
  assert (Hstep : forall i gof,
            gof = proto \/ (exists a, partitioned cs a N gof) ->
            exists tr g, SetMPSet i N gof = (tr, Returned g) /\ partitioned cs i N g).
  { intros i gof [->|[a Ha]].
    - destruct (SetMPSet_first proto nm simCat l dsl i N Hpm Hpi Hpp Hplain
                  ltac:(now rewrite Hpd) Hmax) as (g & Hset & Hg).
      rewrite Hppd in Hg. eauto.
    - destruct (partitioned_setMPSet cs a N i N gof Ha Hslave) as (g & Hset & Hg).
      eauto. }
  destruct (mpLoop_sim k this proto cs Hstep (Z.to_nat N) [] proto
              ltac:(now left) Hpr) as (tr1 & gof' & ws & Hloop & Hlen & Hws).
  cbn [app length] in Hloop.
  set (e := set_init true (set_mpfeArray (Some <$> ws) this)).
  assert (Hinit : initialize (dispatch (S k)) this
                  = (Create (GetName this) :: tr1, Returned (e, false))).
  { unfold initialize. rewrite Hi, Hm, initMPMode_unfold.
    etransitivity.
    { eapply bind_eq.
      { eapply bind_eq; [apply create_eq|].
        eapply bind_eq; [exact Hloop|]. reflexivity. }
      reflexivity. }
    cbn [app]. now rewrite !app_nil_r. }
  assert (He : _gofOpMode e = MPMaster /\ _nCPU e = N /\ _mpfeArray e = Some <$> ws).
  { subst e N. now destruct this as [[] ga ma]. }
  destruct He as (Hme & Hne & Hae).
  assert (Hcalc : For (_nCPU e) (atSlot false mpfe_calculate) (_mpfeArray e)
                  = ([], Returned (Some <$> ws))).
  { rewrite Hae, Hne. unfold For. apply calculate_loop. intros i Hlt.
    destruct (lookup_lt_is_Some_2 ws i ltac:(lia)) as [fe Hfe].
    exists fe. now rewrite list_lookup_fmap, Hfe. }
  set (val := fun fe : RooRealMPFE =>
                foldl Dadd Dzero
                  ((fun c => evaluatePartition (_pdf c) (_data c) (_projDeps c)
                               (_simCount c)
                               (nFirst (_nEvents c) (_setNum (mpfeArg fe)) N)
                               (nLast (_nEvents c) (_setNum (mpfeArg fe)) N))
                     <$> cs)).
  pose proof (cv_forward (mpfe_getVal (dispatch (S k)))
                (fun fe =>
                   mpfe_setArg
                     (set_gofArray
                        (Some <$> (set_init true
                                     <$> (set_partition (_setNum (mpfeArg fe)) N <$> cs)))
                        (mpfeArg fe)) fe)
                val ws) as Hcv.
  specialize (Hcv ltac:(apply Forall_forall; intros fe Hfe;
                        apply list_elem_of_lookup in Hfe as [j Hj];
                        destruct (Hws j fe Hj) as [Hpart Hrank];
                        unfold mpfe_getVal; cbn [dispatch call_getVal];
                        rewrite (evaluate_stable k) by exact Hrank;
                        assert (Hsn : _setNum (mpfeArg fe)
                                      = Z.of_nat (length (@nil (option RooRealMPFE)) + j))
                          by (now destruct Hpart as (_ & _ & _ & _ & ? & _));
                        rewrite (partitioned_Evaluate cs _ N _ Hpart Hslave) by lia;
                        rewrite bind_pure; subst val; cbn beta; now rewrite Hsn)
                    [] Dzero []).
  cbn [app length] in Hcv. rewrite !app_nil_r in Hcv.
  assert (Hvals : val <$> ws
                  = (fun i : nat =>
                       foldl Dadd Dzero
                         (stateValues (_projDeps this) nGof (Z.of_nat i) N l dsl
                            (catTypes simCat)))
                      <$> seq 0 (Z.to_nat N)).
  { apply list_eq. intros j. rewrite !list_lookup_fmap.
    destruct (ws !! j) as [fe|] eqn:Hj.
    - pose proof (lookup_lt_Some _ _ _ Hj) as Hlt.
      rewrite lookup_seq_lt by lia. cbn [fmap option_fmap option_map].
      destruct (Hws j fe Hj) as [(_ & _ & _ & _ & Hsn & _) _].
      f_equal. subst val. cbn beta. rewrite Hsn. cbn [length Nat.add].
      pose proof (stateValues_slaves (_paramSet proto) (_projDeps this) nGof
                    (Z.of_nat j) N l dsl (catTypes simCat)) as Hsv.
      fold cs in Hsv. now rewrite Hsv.
    - apply lookup_ge_None in Hj. rewrite lookup_seq_ge by lia. reflexivity. }
  rewrite Hvals in Hcv.
  eexists _, _. unfold Evaluate, evaluate. rewrite Hk, Hi. cbn [negb].
  etransitivity.
  { eapply bind_eq.
    { eapply bind_eq; [exact Hinit|reflexivity]. }
    rewrite Hme. eapply bind_eq; [exact Hcalc|].
    eapply bind_eq.
    { rewrite combinedValue_unfold, Hne, <- Hlen. exact Hcv. }
    reflexivity. }
  reflexivity.
Qed.

Lemma split_sizes data simCat dsl d :
  split data simCat = Some dsl -> d ∈ dsl -> numEntries d ∈ sizes data.
Proof.
  destruct data as [nm n s]. unfold split, sizes.
  destruct (List.find _ s) as [[c ds]|] eqn:E; [|discriminate].
  intros [= <-] Hd. apply List.find_some in E as [Hin _].
  right. apply list_elem_of_In, in_flat_map. exists (c, ds).
  split; [exact Hin|]. apply list_elem_of_In. cbn [snd].
  now apply list_elem_of_fmap_2.
Qed.

Lemma sliceable_fits N n : 1 <= N -> sliceable N n -> Int.inRange n.
Proof. unfold sliceable, Int.inRange, Int.min, Int.max. intros HN [H0 H1]. nia. Qed.

(** C8 (amended): for a model that is not simultaneous, or that is
    simultaneous over components that are not, a partition evaluator that is
    additive over adjacent slices, values that add up exactly, and a dataset
    and subsets whose sizes times [nCPU] fit in an [Int_t]: whenever the
    prototype engine, evaluated directly over the whole dataset, returns a
    value, the MPMaster over the same model, dataset and projected
    dependents returns the same value from its [nCPU] partitions. *)
Theorem C8_MPMaster_matches_prototype (name title : string) (pdf : RooAbsPdf)
  (data : RooAbsData) (projDeps : RooArgSet) (nCPU : Z)
  (trp : list Event) (proto : RooAbsGoodnessOfFit) (v : Double_t) :
  exactSum -> additive ->
  1 < nCPU <= Int.max -> flat pdf -> statesFit pdf ->
  Forall (sliceable nCPU) (sizes data) ->
  Evaluate (RooAbsGoodnessOfFit_new name title pdf data projDeps 1)
  = (trp, Returned (proto, v)) ->
  exists tr mp,
    Evaluate (RooAbsGoodnessOfFit_new name title pdf data projDeps nCPU)
    = (tr, Returned (mp, v)).
Proof.
  intros Hsum Hadd HN Hflat Hfit Hsizes Hproto.
  set (this := RooAbsGoodnessOfFit_new name title pdf data projDeps nCPU).
  assert (Hthis : _gofOpMode this = MPMaster /\ _init this = false /\
                  _pdf this = pdf /\ _data this = data /\
                  _projDeps this = projDeps /\ _nCPU this = nCPU).
  { subst this. unfold RooAbsGoodnessOfFit_new, _gofOpMode. cbn.
    destruct (Z.ltb_spec 1 nCPU); [done|lia]. }
  destruct Hthis as (Hm & Hi & Hp & Hd & Hpd & Hn).
  destruct pdf as [nm|nm simCat l].
  - (* a plain model: the prototype is a Slave *)
    assert (Hs : sliceable nCPU (numEntries data)).
    { rewrite Forall_forall in Hsizes. apply Hsizes. destruct data. left. }
    unfold Evaluate in Hproto. rewrite evaluate_Slave in Hproto by done.
    injection Hproto as _ _ <-. cbn [_nEvents _setNum _numSets members
      RooAbsGoodnessOfFit_new m_nEvents m_setNum m_numSets].
    rewrite nFirst_whole, nLast_whole by (apply (sliceable_fits nCPU); [lia|done]).
    destruct (Evaluate_MPMaster_plain this nm Hm Hi Hp) as (tr & mp & Hev & _).
    exists tr, mp. rewrite Hev. do 3 f_equal.
    rewrite Hp, Hd, Hpd, Hn. apply slices_total; first [done|lia].
  - (* a simultaneous model over plain components: the prototype is a SimMaster *)
    cbn [flat] in Hflat. destruct Hfit as [Hmax _].
    set (p := RooAbsGoodnessOfFit_new name title (RooSimultaneous nm simCat l)
                data projDeps 1) in *.
    assert (Hpf : _gofOpMode p = SimMaster /\ _init p = false /\
                  _pdf p = RooSimultaneous nm simCat l /\ _data p = data /\
                  _projDeps p = projDeps) by (subst p; repeat split).
    destruct Hpf as (Hpm & Hpi & Hpp & Hpda & Hppd).
    destruct (split data simCat) as [dsl|] eqn:Hs.
    + destruct (Evaluate_SimMaster_flat p nm simCat l dsl Hpm Hpi Hpp Hflat
                  ltac:(now rewrite Hpda) Hmax) as (p1 & Hev).
      rewrite Hev in Hproto. injection Hproto as _ _ <-.
      destruct (Evaluate_MPMaster_sim this nm simCat l dsl Hm Hi Hp Hflat
                  ltac:(now rewrite Hd) Hmax ltac:(lia)) as (tr & mp & Hmp).
      exists tr, mp. rewrite Hmp. do 3 f_equal. rewrite Hn, Hpd, Hppd.
      assert (Hdsl : Forall (fun d => sliceable nCPU (numEntries d)) dsl).
      { apply Forall_forall. intros d Hin. rewrite Forall_forall in Hsizes.
        apply Hsizes. now apply (split_sizes data simCat dsl). }
      rewrite (states_total Hsum Hadd) by (first [done|lia]).
      rewrite stateValues_whole; [reflexivity|].
      eapply Forall_impl; [exact Hdsl|]. intros d Hsl.
      apply (sliceable_fits nCPU); [lia|done].
    + unfold Evaluate, evaluate in Hproto. rewrite Hpi in Hproto. cbn [negb] in Hproto.
      rewrite (initialize_split_fails _ nm simCat l) in Hproto by (rewrite ?Hpda; done).
      discriminate.
Qed.

End Parallel.

(** * No undefined behaviour *)

(** ** Rules *)

Section SafeRules.
Context {guard : Strictness}.

Lemma safe_ret {A : Type} (a : A) (Q : A -> Prop) : Q a -> safe (mret a) Q.
Proof. easy. Qed.

Lemma safe_bind {A B : Type} (m : M A) (f : A -> M B) (Q : B -> Prop) :
  safe m (fun a => safe (f a) Q) -> safe (m ≫= f) Q.
Proof. rewrite bind_unfold. unfold safe. now destruct m as [tr [a| |[]|]]. Qed.

Lemma safe_mono {A : Type} (m : M A) (Q Q' : A -> Prop) :
  safe m Q -> (forall a, Q a -> Q' a) -> safe m Q'.
Proof. unfold safe. destruct m as [tr [a| |[]|]]; simpl; auto. Qed.

Lemma safe_wp {A : Type} oof (m : M A) (P Q : A -> Prop) :
  wp oof m P -> safe m Q -> safe m (fun a => P a /\ Q a).
Proof. unfold wp, safe. destruct m as [tr [a| |[]|]]; simpl; auto. Qed.

Lemma safe_returned {A : Type} (m : M A) (Q : A -> Prop) tr a :
  safe m Q -> m = (tr, Returned a) -> Q a.
Proof. now intros H ->. Qed.

Lemma safe_eq {A : Type} (m : M A) (Q : A -> Prop) tr a :
  m = (tr, Returned a) -> Q a -> safe m Q.
Proof. now intros ->. Qed.

Lemma safe_cout line (Q : unit -> Prop) : Q tt -> safe (cout line) Q.
Proof. easy. Qed.

Lemma safe_emit ev (Q : unit -> Prop) : Q tt -> safe (emit ev) Q.
Proof. easy. Qed.

Lemma safe_softAbort {A : Type} (Q : A -> Prop) : safe softAbort Q.
Proof. easy. Qed.

Lemma safe_forRange {S : Type} (I : nat -> S -> Prop) count start
  (body : nat -> S -> M S) (s : S) :
  I start s ->
  (forall i s, (start <= i < start + count)%nat -> I i s ->
     safe (body i s) (I (Datatypes.S i))) ->
  safe (forRange count start body s) (I (start + count)%nat).
Proof.
  revert start s. induction count as [|count IH]; intros start s Hs Hbody; simpl.
  - apply safe_ret. now rewrite Nat.add_0_r.
  - apply safe_bind. eapply safe_mono; [apply Hbody; [lia|done]|].
    intros s' Hs'. replace (start + Datatypes.S count)%nat
      with (Datatypes.S start + count)%nat by lia.
    apply IH; [done|]. intros i s0 Hi. apply Hbody. lia.
Qed.

Lemma filled_lookup {T : Type} (P : T -> Prop) a i :
  filled P a -> (i < length a)%nat -> exists x, a !! i = Some (Some x) /\ P x.
Proof.
  intros H Hi. unfold filled in H. rewrite Forall_lookup in H.
  destruct (lookup_lt_is_Some_2 a i Hi) as [[x|] Hx].
  - exists x. split; [done|]. exact (H i _ Hx).
  - destruct (H i _ Hx).
Qed.

Lemma filled_insert {T : Type} (P : T -> Prop) a i x :
  filled P a -> P x -> filled P (<[i := Some x]> a).
Proof. intros H Hx. now apply Forall_insert. Qed.

Lemma filled_impl {T : Type} (P Q : T -> Prop) a :
  filled P a -> (forall x, P x -> Q x) -> filled Q a.
Proof.
  unfold filled. intros H HPQ. eapply Forall_impl; [exact H|].
  intros [x|]; simpl; auto.
Qed.

Lemma filled_fmap {T U : Type} (P : U -> Prop) (g : T -> U) (xs : list T) :
  Forall (fun x => P (g x)) xs -> filled P (Some <$> (g <$> xs)).
Proof. intros H. unfold filled. now rewrite !Forall_fmap. Qed.

Lemma filled_and_slots {T : Type} (P Q : T -> Prop) a :
  filled P a -> slots Q a -> filled (fun x => Q x /\ P x) a.
Proof.
  unfold filled, slots. intros HP HQ.
  induction HP as [|[x|] a Hx _ IH]; inversion_clear HQ; constructor; auto.
Qed.

Lemma safe_atSlot {T : Type} (P : T -> Prop) guarded (method : T -> M T) i
  (a : list (option T)) :
  filled P a -> (i < length a)%nat -> (forall x, P x -> safe (method x) P) ->
  safe (atSlot guarded method i a) (fun a' => filled P a' /\ length a' = length a).
Proof.
  intros Ha Hi Hm. unfold atSlot.
  destruct (filled_lookup P a i Ha Hi) as (x & -> & Hx).
  apply safe_bind. eapply safe_mono; [now apply Hm|].
  intros x' Hx'. apply safe_ret. split; [now apply filled_insert|].
  apply length_insert.
Qed.

Lemma safe_For_atSlot {T : Type} (P : T -> Prop) guarded (method : T -> M T) n
  (a : list (option T)) :
  filled P a -> length a = Z.to_nat n -> (forall x, P x -> safe (method x) P) ->
  safe (For n (atSlot guarded method) a) (fun a' => filled P a' /\ length a' = length a).
Proof.
  intros Ha Hn Hm. unfold For.
  eapply safe_mono.
  { apply (safe_forRange (fun _ a' => filled P a' /\ length a' = length a)).
    - done.
    - intros i s Hi [Hs Hlen]. eapply safe_mono.
      + apply (safe_atSlot P); [done|lia|done].
      + intros a' [H1 H2]. split; [done|congruence]. }
  done.
Qed.

End SafeRules.

(** ** The methods keep the shape of an instance *)

Section SafeTheory.
Context {subclass : Subclass} {guard : Strictness}.

Lemma safe_combinedValue {T : Type} (P : T -> Prop)
  (getVal : T -> M (T * Double_t)) (a : list (option T)) (n : Z) :
  filled P a -> length a = Z.to_nat n ->
  (forall x, P x -> safe (getVal x) (fun r => P r.1)) ->
  safe (combinedValue getVal a n)
    (fun r => filled P r.1 /\ length r.1 = length a).
Proof.
  intros Ha Hn Hg. unfold combinedValue, For.
  eapply safe_mono.
  { apply (safe_forRange
             (fun _ (r : list (option T) * Double_t) =>
                filled P r.1 /\ length r.1 = length a)).
    - done.
    - intros i [arr sum] Hi [Harr Hlen]. simpl in Harr, Hlen.
      unfold readSlot.
      destruct (filled_lookup P arr i Harr ltac:(lia)) as (x & -> & Hx).
      rewrite bind_ret. apply safe_bind. eapply safe_mono; [now apply Hg|].
      intros [x' v] Hx'. apply safe_ret. simpl. split; [now apply filled_insert|].
      now rewrite length_insert. }
  done.
Qed.

Lemma foldr_and_Forall (l : list Prop) : foldr and True l <-> Forall id l.
Proof.
  induction l as [|x l IH]; simpl.
  - split; [constructor|done].
  - rewrite Forall_cons, IH. reflexivity.
Qed.

Lemma consistent_iff this :
  consistent this <->
  statesFit (_pdf this) /\ (strict -> _numSets this <> 0) /\
  (_gofOpMode this = SimMaster -> isSimultaneous (_pdf this) = true) /\
  length (_gofArray this) = Z.to_nat (_nGof this) /\
  (_gofOpMode this <> SimMaster -> _nGof this = 0) /\
  (_init this = false -> _nGof this = 0) /\
  (if decide (_gofOpMode this = MPMaster /\ _init this = true)
   then length (_mpfeArray this) = Z.to_nat (_nCPU this)
   else _mpfeArray this = []) /\
  filled owned (_gofArray this) /\
  filled (fun fe => owned (mpfeArg fe)) (_mpfeArray this).
Proof.
  destruct this as [m ga ma]. cbn [consistent].
  unfold _pdf, _numSets, _gofOpMode, _nGof, _init, _nCPU, _gofArray, _mpfeArray.
  cbn [members]. rewrite !foldr_and_Forall, !Forall_map. unfold filled, owned.
  repeat apply and_iff_compat_l. reflexivity.
Qed.


Lemma consistent_updMembers f e :
  (forall m, m_pdf (f m) = m_pdf m) ->
  (forall m, m_numSets (f m) = m_numSets m) ->
  (forall m, m_gofOpMode (f m) = m_gofOpMode m) ->
  (forall m, m_nGof (f m) = m_nGof m) ->
  (forall m, m_init (f m) = m_init m) ->
  (forall m, m_nCPU (f m) = m_nCPU m) ->
  consistent (updMembers f e) <-> consistent e.
Proof.
  intros H1 H2 H3 H4 H5 H6. destruct e as [m ga ma]. cbn [consistent updMembers].
  now rewrite H1, H2, H3, H4, H5, H6.
Qed.

Lemma consistent_set_name v e : consistent (set_name v e) <-> consistent e.
Proof. now apply consistent_updMembers. Qed.
Lemma consistent_set_title v e : consistent (set_title v e) <-> consistent e.
Proof. now apply consistent_updMembers. Qed.
Lemma consistent_set_simCount v e : consistent (set_simCount v e) <-> consistent e.
Proof. now apply consistent_updMembers. Qed.
Lemma consistent_notify n e : consistent (notify n e) <-> consistent e.
Proof. now apply consistent_updMembers. Qed.

Lemma consistent_set_partition a b e :
  (strict -> b <> 0) -> consistent e -> consistent (set_partition a b e).
Proof.
  intros Hb. destruct e as [m ga ma]. cbn [consistent set_partition updMembers].
  cbn. tauto.
Qed.

Lemma consistent_new name title pdf data projDeps nCPU :
  statesFit pdf -> consistent (RooAbsGoodnessOfFit_new name title pdf data projDeps nCPU).
Proof.
  intros Hpdf. unfold RooAbsGoodnessOfFit_new. cbn.
  split; [done|]. split; [done|]. split.
  { destruct (1 <? nCPU); [done|]. now destruct (isSimultaneous pdf). }
  split; [done|]. split; [done|]. split; [done|]. split; [|done].
  rewrite decide_False; [done|]. now intros [_ ?].
Qed.

Lemma mode_new_1 name title pdf data projDeps :
  _gofOpMode (RooAbsGoodnessOfFit_new name title pdf data projDeps 1) <> MPMaster.
Proof.
  unfold RooAbsGoodnessOfFit_new, _gofOpMode. cbn. now destruct (isSimultaneous pdf).
Qed.

Lemma statesFit_getPdf nm simCat l type pdf :
  statesFit (RooSimultaneous nm simCat l) -> getPdf l type = Some pdf -> statesFit pdf.
Proof.
  intros [_ H] [s Hin]%getPdf_In. rewrite foldr_and_Forall, Forall_map, Forall_forall in H.
  apply list_elem_of_In in Hin. exact (H _ Hin).
Qed.

Lemma owned_slaveOf ps pd g type pdf dset :
  statesFit pdf -> owned (slaveOf ps pd g type pdf dset).
Proof.
  intros Hpdf. unfold slaveOf. split.
  - apply consistent_notify, consistent_set_simCount. now apply consistent_new.
  - rewrite mode_notify.
    replace (_gofOpMode (set_simCount g _))
      with (_gofOpMode (RooAbsGoodnessOfFit_new type type pdf dset pd 1))
      by reflexivity.
    apply mode_new_1.
Qed.

Lemma slaves_owned nm simCat ps pd g l dsl types :
  statesFit (RooSimultaneous nm simCat l) ->
  Forall owned (omap (slaveFor ps pd g l dsl) types).
Proof.
  intros Hfit. induction types as [|type types IH]; [constructor|].
  cbn [omap list_omap]. unfold slaveFor at 1.
  destruct (getPdf l type) as [pdf|] eqn:Hp; [|exact IH].
  destruct (FindObject dsl type) as [dset|]; [|exact IH].
  constructor; [|exact IH]. apply owned_slaveOf.
  exact (statesFit_getPdf _ _ _ _ _ Hfit Hp).
Qed.

Lemma initSimMode_safe callee nm simCat l data projDeps this :
  redirectsFresh callee -> statesFit (RooSimultaneous nm simCat l) ->
  safe (initSimMode callee (RooSimultaneous nm simCat l) data projDeps this)
    (fun this' => exists nGof slaves,
       this' = set_gofArray (Some <$> slaves) (set_nGof nGof this) /\
       length slaves = Z.to_nat nGof /\ 0 <= nGof /\ Forall owned slaves).
Proof.
  intros Hc Hfit. destruct (split data simCat) as [dsl|] eqn:Hs.
  - eapply safe_eq; [apply (initSimMode_result _ _ _ _ _ _ _ dsl Hc Hs), Hfit|].
    eexists _, _. split; [reflexivity|]. split.
    { now rewrite slaves_length, Nat2Z.id. }
    split; [lia|]. now apply (slaves_owned nm simCat).
  - now rewrite (initSimMode_split_fails _ _ _ _ _ _ _ Hs).
Qed.


Lemma filled_of_slots {T : Type} (P : T -> Prop) (a : list (option T)) :
  (forall j, (j < length a)%nat -> exists x, a !! j = Some (Some x)) ->
  slots P a -> filled P a.
Proof.
  intros Hall Hs. unfold filled, slots in *. rewrite Forall_lookup in *.
  intros j o Hj. destruct (Hall j) as [x Hx]; [now apply lookup_lt_Some in Hj|].
  rewrite Hx in Hj. injection Hj as <-. exact (Hs j _ Hx).
Qed.

Lemma ownedBelow_relabel k t n0 g :
  ownedBelow k g -> ownedBelow k (set_title t (set_name n0 g)).
Proof.
  intros (Hb & Hc & Hm). split; [|split].
  - unfold below. now rewrite rank_set_title, rank_set_name.
  - now apply consistent_set_title, consistent_set_name.
  - now destruct g as [[] ga ma].
Qed.

Lemma initMPMode_safe n callee k pdf data projDeps this :
  Safe n callee -> (k <= n)%nat -> (2 * pdfDepth pdf < k)%nat -> statesFit pdf ->
  safe (initMPMode callee pdf data projDeps this)
    (fun this' => exists ma,
       this' = set_mpfeArray ma this /\ length ma = Z.to_nat (_nCPU this) /\
       filled (fun fe => owned (mpfeArg fe)) ma).
Proof.
  intros S Hk Hpdf Hfit. rewrite initMPMode_unfold.
  apply safe_bind. unfold create. apply safe_bind. apply safe_emit. apply safe_ret.
  set (N := Z.to_nat (_nCPU this)).
  apply safe_bind. eapply safe_mono.
  { apply (safe_forRange
             (fun i (s : RooAbsGoodnessOfFit * RooAbsGoodnessOfFit) =>
                ownedBelow k s.1 /\
                exists ma, s.2 = set_mpfeArray ma this /\ length ma = N /\
                  (forall j, (j < i)%nat -> exists fe, ma !! j = Some (Some fe)) /\
                  slots (fun fe => owned (mpfeArg fe)) ma)).
    - simpl. split.
      + split; [unfold below; now rewrite rank_new|]. split.
        * now apply consistent_new.
        * apply mode_new_1.
      + exists (newArray (_nCPU this)). split; [done|]. split.
        { unfold newArray. now rewrite length_replicate. }
        split; [intros; lia|apply slots_newArray].
    - intros i [gof e] Hi [Hgof H]. simpl in Hgof, H.
      destruct H as (ma & -> & Hlen & Hfill & Hslots). unfold mpBody.
      destruct (labels_set_mpfeArray ma this) as (Hn & Ht & Hc).
      rewrite Hn, Ht, Hc, mpfeArray_set_mpfeArray.
      apply safe_bind. eapply safe_mono.
      { apply (safe_setMPSet _ _ S k); [done| |done]. intros _. lia. }
      intros gof' Hgof'.
      apply safe_bind. eapply (safe_mono _ (fun _ => True)).
      { destruct (_ =? _); [now apply safe_ret|now apply safe_cout]. }
      intros _ _.
      apply safe_bind. unfold RooRealMPFE_new. apply safe_bind. apply safe_emit.
      apply safe_ret.
      unfold storeSlot. rewrite decide_True by lia. rewrite bind_ret.
      unfold atSlot. rewrite list_lookup_insert_eq by lia.
      unfold mpfe_initialize. rewrite !bind_ret. apply safe_ret. cbn [fst snd].
      cbn [mpfeName mpfeTitle mpfeArg mpfeInline mpfeNotified].
      split; [now apply ownedBelow_relabel|].
      eexists. split; [now rewrite set_mpfeArray_twice|].
      split; [now rewrite !length_insert|]. split.
      + intros j Hj. destruct (decide (j = i)) as [->|Hne].
        * eexists. apply list_lookup_insert_eq. rewrite length_insert. lia.
        * rewrite !list_lookup_insert_ne by done. apply Hfill. lia.
      + pose proof (proj2 (ownedBelow_relabel k (Form (GetTitle this) "_GOF" (Z.of_nat i))
                             (Form (GetName this) "_GOF" (Z.of_nat i)) _ Hgof')) as Ho.
        apply slots_insert; [apply slots_insert|]; done. }
  intros [gof e] [_ H]. simpl in H. destruct H as (ma & -> & Hlen & Hfill & Hslots).
  apply safe_ret.
  exists ma. split; [done|]. split; [done|].
  apply filled_of_slots; [|done]. intros j Hj. apply Hfill.
  unfold RooRealMPFE in *. now rewrite Hlen in Hj.
Qed.


Lemma filled_Some {T : Type} (P : T -> Prop) (xs : list T) :
  Forall P xs -> filled P (Some <$> xs).
Proof. intros H. unfold filled. now rewrite Forall_fmap. Qed.

Ltac members_of this :=
  destruct this as [?m ?ga ?ma];
  unfold _pdf, _numSets, _gofOpMode, _nGof, _init, _nCPU, _gofArray, _mpfeArray,
    _setNum in *;
  cbn [members set_init set_nGof set_partition set_simCount set_name set_title
       notify updMembers set_gofArray set_mpfeArray
       m_pdf m_numSets m_gofOpMode m_nGof m_init m_nCPU m_setNum] in *.

Lemma initialize_safe n callee k this :
  Safe n callee -> ((0 < n)%nat -> redirectsFresh callee) -> (k <= n)%nat ->
  (rank this <= k)%nat -> consistent this ->
  safe (initialize callee this) (fun r => consistent r.1 /\ _init r.1 = true).
Proof.
  intros S Hfresh Hk Hrank Hc. unfold initialize.
  destruct (_init this) eqn:Hi; [now apply safe_ret|].
  pose proof (proj1 (consistent_iff this) Hc)
    as (Hfit & Hsets & Hsim & Hga & Hn0 & Hu0 & Hma & Hfa & Hfm).
  rewrite decide_False in Hma by (intros [_ ?]; congruence).
  clear Hc. apply safe_bind. destruct (_gofOpMode this) eqn:Hm.
  - destruct (_pdf this) as [|nm simCat l] eqn:Hp; [now specialize (Hsim eq_refl)|].
    destruct (rank_SimMaster_positive this nm simCat l Hp) as [r Hr].
    eapply safe_mono; [apply initSimMode_safe; [apply Hfresh; lia|done]|].
    intros this' (nGof & slaves & -> & Hlen & Hpos & Hown). apply safe_ret.
    clear Hrank Hr. cbn [fst]. rewrite consistent_iff. members_of this.
    split; [|done].
    rewrite Hm, Hp, decide_False by (now intros [? _]).
    rewrite length_fmap. subst ma.
    repeat (split; [first [assumption|done]|]). split; [now apply filled_Some|done].
  - pose proof (modeDepth_MPMaster this Hm).
    eapply safe_mono; [apply (initMPMode_safe n _ k); [done|done|lia|done]|].
    intros this' (ma' & -> & Hlen & Hown). apply safe_ret.
    clear Hrank H. cbn [fst]. rewrite consistent_iff. members_of this.
    split; [|done].
    rewrite Hm, decide_True by done.
    repeat (split; [first [assumption|done]|]). done.
  - apply safe_ret. apply safe_ret.
    clear Hrank. cbn [fst]. rewrite consistent_iff. members_of this.
    split; [|done].
    rewrite Hm, decide_False by (now intros [? _]).
    repeat (split; [first [assumption|done]|]). done.
Qed.


Lemma ownedBelow_children k this :
  (rank this <= k)%nat -> consistent this ->
  filled (ownedBelow k) (_gofArray this).
Proof.
  intros Hr Hc. apply consistent_iff in Hc as (_ & _ & _ & _ & _ & _ & _ & Hfa & _).
  apply (filled_and_slots owned (below k)); [done|]. now apply rank_gofArray.
Qed.

Lemma ownedBelow_workers k this :
  (rank this <= k)%nat -> consistent this ->
  filled (argOwnedBelow k) (_mpfeArray this).
Proof.
  intros Hr Hc. apply consistent_iff in Hc as (_ & _ & _ & _ & _ & _ & _ & _ & Hfm).
  apply (filled_and_slots (fun fe => owned (mpfeArg fe)) (argBelow k)); [done|].
  now apply rank_mpfeArray.
Qed.

Lemma consistent_set_gofArray k ga this :
  consistent this -> _gofOpMode this = SimMaster ->
  filled (ownedBelow k) ga -> length ga = length (_gofArray this) ->
  consistent (set_gofArray ga this).
Proof.
  intros Hc Hm Hga Hlen. rewrite consistent_iff in *.
  destruct Hc as (Hfit & Hsets & Hsim & Hlg & Hn0 & Hu0 & Hma & Hfa & Hfm).
  members_of this. repeat (split; [first [assumption|done|congruence]|]).
  split; [|done]. eapply filled_impl; [exact Hga|]. now intros x [_ ?].
Qed.

Lemma consistent_set_mpfeArray k ma this :
  consistent this -> _gofOpMode this = MPMaster -> _init this = true ->
  filled (argOwnedBelow k) ma -> length ma = length (_mpfeArray this) ->
  consistent (set_mpfeArray ma this).
Proof.
  intros Hc Hm Hi Hfe Hlen. rewrite consistent_iff in *.
  destruct Hc as (Hfit & Hsets & Hsim & Hlg & Hn0 & Hu0 & Hma & Hfa & Hfm).
  members_of this. rewrite decide_True in * by done.
  repeat (split; [first [assumption|done|congruence]|]).
  eapply filled_impl; [exact Hfe|]. now intros x [_ ?].
Qed.

Lemma safe_mpfe_getVal n callee k fe :
  Safe n callee -> (k <= n)%nat -> argOwnedBelow k fe ->
  safe (mpfe_getVal callee fe) (fun r => argOwnedBelow k r.1).
Proof.
  intros S Hk Hfe. unfold mpfe_getVal. apply safe_bind.
  eapply safe_mono; [now apply (safe_getVal _ _ S k)|]. intros [g v] Hg.
  now apply safe_ret.
Qed.

Lemma safe_mpfe_constOptimize n callee k opcode fe :
  Safe n callee -> (k <= n)%nat -> argOwnedBelow k fe ->
  safe (mpfe_constOptimize callee opcode fe) (argOwnedBelow k).
Proof.
  intros S Hk Hfe. unfold mpfe_constOptimize. apply safe_bind.
  eapply safe_mono; [now apply (safe_constOptimize _ _ S k)|]. intros g Hg.
  now apply safe_ret.
Qed.

Lemma consistent_lengths this :
  consistent this ->
  length (_gofArray this) = Z.to_nat (_nGof this) /\
  (_gofOpMode this = MPMaster -> _init this = true ->
   length (_mpfeArray this) = Z.to_nat (_nCPU this)).
Proof.
  intros (_ & _ & _ & Hlg & _ & _ & Hma & _)%consistent_iff. split; [done|].
  intros Hm Hi. now rewrite decide_True in Hma.
Qed.

Lemma initialized_safe n callee k this :
  Good n callee -> Safe n callee -> ((0 < n)%nat -> redirectsFresh callee) ->
  (k <= n)%nat -> (rank this <= k)%nat -> consistent this ->
  safe (initialize callee this)
    (fun r => (rank r.1 <= k)%nat /\ consistent r.1 /\ _init r.1 = true /\
              _gofOpMode r.1 = _gofOpMode this).
Proof.
  intros G S Hfresh Hk Hr Hc.
  eapply safe_mono.
  { apply (safe_wp True); [apply initialize_mode|].
    apply (safe_wp False); [now apply (initialize_served n _ k)|].
    now apply (initialize_safe n _ k). }
  intros r. simpl. tauto.
Qed.

Lemma evaluate_safe n callee k this :
  Good n callee -> Safe n callee -> ((0 < n)%nat -> redirectsFresh callee) ->
  (k <= n)%nat -> (rank this <= k)%nat -> consistent this ->
  safe (evaluate callee this) (fun r => consistent r.1).
Proof.
  intros G S Hfresh Hk Hr Hc. unfold evaluate. apply safe_bind.
  eapply (safe_mono _ (fun e => (rank e <= k)%nat /\ consistent e /\ _init e = true)).
  { destruct (_init this) eqn:Hi; cbn [negb]; [now apply safe_ret|].
    apply safe_bind. eapply safe_mono; [now apply (initialized_safe n _ k)|].
    intros [e b] (H1 & H2 & H3 & _). now apply safe_ret. }
  clear this Hr Hc. intros this (Hr & Hc & Hi).
  destruct (consistent_lengths this Hc) as [Hlg Hlm].
  destruct (_gofOpMode this) eqn:Hm.
  - apply safe_bind. eapply safe_mono.
    { apply (safe_combinedValue (ownedBelow k)); [now apply ownedBelow_children|done|].
      intros x Hx. now apply (safe_getVal _ _ S k). }
    intros [ga v] [Hga Hlen]. apply safe_ret. now apply (consistent_set_gofArray k).
  - specialize (Hlm eq_refl Hi). apply safe_bind. eapply safe_mono.
    { apply (safe_For_atSlot (argOwnedBelow k)); [now apply ownedBelow_workers|done|].
      intros x Hx. now apply safe_ret. }
    intros ma [Hma Hlen]. apply safe_bind. eapply safe_mono.
    { apply (safe_combinedValue (argOwnedBelow k)); [done|congruence|].
      intros x Hx. now apply (safe_mpfe_getVal n _ k). }
    intros [ma' v] [Hma' Hlen']. apply safe_ret.
    apply (consistent_set_mpfeArray k); try done. simpl in Hlen'. congruence.
  - apply consistent_iff in Hc as Hc'. destruct Hc' as (_ & Hsets & _).
    destruct (Z.eqb_spec (_numSets this) 0) as [Hz|_]; [|now apply safe_ret].
    intros Hs. exact (Hsets Hs Hz).
Qed.

Lemma redirectServersHook_safe n callee k l b1 b2 b3 this :
  Safe n callee -> (k <= n)%nat -> (rank this <= k)%nat -> consistent this ->
  safe (redirectServersHook callee l b1 b2 b3 this) (fun r => consistent r.1).
Proof.
  intros S Hk Hr Hc. unfold redirectServersHook.
  set (this' := notify _ this).
  assert (Hr' : (rank this' <= k)%nat) by (subst this'; now rewrite rank_notify).
  assert (Hc' : consistent this') by (subst this'; now apply consistent_notify).
  clearbody this'. clear this Hr Hc.
  destruct (consistent_lengths this' Hc') as [Hlg _].
  destruct (_gofOpMode this') eqn:Hm; [|now apply safe_ret..].
  apply safe_bind. eapply safe_mono.
  { apply (safe_For_atSlot (ownedBelow k)); [now apply ownedBelow_children|done|].
    intros x Hx. now apply (safe_recursiveRedirectServers _ _ S k). }
  intros ga [Hga Hlen]. apply safe_ret. now apply (consistent_set_gofArray k).
Qed.

Lemma constOptimize_safe n callee k opcode this :
  Good n callee -> Safe n callee -> ((0 < n)%nat -> redirectsFresh callee) ->
  (k <= n)%nat -> (rank this <= k)%nat -> consistent this ->
  safe (constOptimize callee opcode this) consistent.
Proof.
  intros G S Hfresh Hk Hr Hc. unfold constOptimize. apply safe_bind.
  eapply safe_mono.
  { apply (initialized_safe n _ k); try done.
    - now rewrite rank_notify.
    - now apply consistent_notify. }
  clear Hr Hc. intros [e b] (Hr & Hc & Hi & _). simpl in Hr, Hc, Hi.
  clear this. rename e into this.
  destruct (consistent_lengths this Hc) as [Hlg Hlm].
  destruct (_gofOpMode this) eqn:Hm; [| |now apply safe_ret].
  - apply safe_bind. eapply safe_mono.
    { apply (safe_For_atSlot (ownedBelow k)); [now apply ownedBelow_children|done|].
      intros x Hx. now apply (safe_constOptimize _ _ S k). }
    intros ga [Hga Hlen]. apply safe_ret. now apply (consistent_set_gofArray k).
  - specialize (Hlm eq_refl Hi). apply safe_bind. eapply safe_mono.
    { apply (safe_For_atSlot (argOwnedBelow k)); [now apply ownedBelow_workers|done|].
      intros x Hx. now apply (safe_mpfe_constOptimize n _ k). }
    intros ma [Hma Hlen]. apply safe_ret. now apply (consistent_set_mpfeArray k).
Qed.

Lemma setMPSet_safe n callee k setNum numSets this :
  Good n callee -> Safe n callee -> ((0 < n)%nat -> redirectsFresh callee) ->
  (k <= n)%nat -> (rank this <= k)%nat -> consistent this ->
  (strict -> numSets <> 0) ->
  safe (setMPSet callee setNum numSets this) consistent.
Proof.
  intros G S Hfresh Hk Hr Hc Hsets. unfold setMPSet.
  set (this' := set_partition _ _ this).
  assert (Hr' : (rank this' <= k)%nat)
    by (subst this'; now rewrite rank_set_partition).
  assert (Hc' : consistent this') by (subst this'; now apply consistent_set_partition).
  clearbody this'. clear this Hr Hc.
  destruct (_gofOpMode this') eqn:Hm; [|now apply safe_ret..].
  apply safe_bind. eapply safe_mono; [now apply (initialized_safe n _ k)|].
  intros [this b] (Hr & Hc & Hi & Hm'). simpl in Hr, Hc, Hi, Hm'.
  rewrite Hm in Hm'.
  destruct (consistent_lengths this Hc) as [Hlg _].
  apply safe_bind. eapply safe_mono.
  { apply (safe_For_atSlot (ownedBelow k)); [now apply ownedBelow_children|done|].
    intros x Hx. now apply (safe_setMPSet _ _ S k). }
  intros ga [Hga Hlen]. apply safe_ret. now apply (consistent_set_gofArray k).
Qed.


(** The closed method table is safe up to its depth. *)
Lemma dispatch_fresh n : (0 < n)%nat -> redirectsFresh (dispatch n).
Proof. destruct n as [|n]; [lia|]. intros _. apply dispatch_redirectsFresh. Qed.

Lemma dispatch_Safe n : Safe n (dispatch n).
Proof.
  induction n as [|n IH].
  - split; intros k; intros; unfold ownedBelow, below in *; lia.
  - pose proof (dispatch_Good n) as G. pose proof (dispatch_fresh n) as F.
    split; intros k; intros;
      (destruct k as [|k]; [unfold ownedBelow, below in *; lia|]);
      cbn [dispatch call_getVal call_setMPSet call_constOptimize
           call_recursiveRedirectServers];
      match goal with H : ownedBelow _ _ |- _ => destruct H as (Hb & Hc & Hm) end;
      unfold below in Hb.
    + eapply safe_mono.
      { apply (safe_wp True); [apply evaluate_mode|].
        apply (safe_wp False); [apply (evaluate_served n _ k); try done; lia|].
        apply (evaluate_safe n _ k); try done; lia. }
      intros r (H1 & H2 & H3). unfold ownedBelow, owned, below.
      split; [lia|]. split; [done|congruence].
    + eapply safe_mono.
      { apply (safe_wp True); [apply setMPSet_mode|].
        apply (safe_wp False); [apply (setMPSet_served n _ k); try done; lia|].
        apply (setMPSet_safe n _ k); try done; lia. }
      intros r (H1 & H2 & H3). unfold ownedBelow, owned, below.
      split; [lia|]. split; [done|congruence].
    + eapply safe_mono.
      { apply (safe_wp True); [apply constOptimize_mode|].
        apply (safe_wp False); [apply (constOptimize_served n _ k); try done; lia|].
        apply (constOptimize_safe n _ k); try done; lia. }
      intros r (H1 & H2 & H3). unfold ownedBelow, owned, below.
      split; [lia|]. split; [done|congruence].
    + unfold recursiveRedirectServers. apply safe_bind. eapply safe_mono.
      { apply (safe_wp True); [apply redirectServersHook_mode|].
        apply (safe_wp False);
          [apply (redirectServersHook_served n _ k); try done; lia|].
        apply (redirectServersHook_safe n _ k); try done; lia. }
      intros [r b] (H1 & H2 & H3). apply safe_ret. unfold ownedBelow, owned, below.
      simpl in *. split; [lia|]. split; [done|congruence].
Qed.

Lemma Evaluate_safe this :
  consistent this -> safe (Evaluate this) (fun r => consistent r.1).
Proof.
  intros Hc. apply (evaluate_safe (rank this) _ (rank this)); try done.
  - apply dispatch_Good.
  - apply dispatch_Safe.
  - apply dispatch_fresh.
Qed.

Lemma Initialize_safe this :
  consistent this -> safe (Initialize this) (fun r => consistent r.1).
Proof.
  intros Hc. eapply safe_mono.
  - apply (initialize_safe (rank this) _ (rank this)); try done.
    + apply dispatch_Safe.
    + apply dispatch_fresh.
  - now intros r [? _].
Qed.

Lemma RedirectServersHook_safe l b1 b2 b3 this :
  consistent this -> safe (RedirectServersHook l b1 b2 b3 this) (fun r => consistent r.1).
Proof.
  intros Hc. apply (redirectServersHook_safe (rank this) _ (rank this)); try done.
  apply dispatch_Safe.
Qed.

Lemma ConstOptimizeCall_safe opcode this :
  consistent this -> safe (ConstOptimizeCall opcode this) consistent.
Proof.
  intros Hc. apply (constOptimize_safe (rank this) _ (rank this)); try done.
  - apply dispatch_Good.
  - apply dispatch_Safe.
  - apply dispatch_fresh.
Qed.

Lemma SetMPSet_safe a b this :
  consistent this -> (strict -> b <> 0) -> safe (SetMPSet a b this) consistent.
Proof.
  intros Hc Hb. apply (setMPSet_safe (rank this) _ (rank this)); try done.
  - apply dispatch_Good.
  - apply dispatch_Safe.
  - apply dispatch_fresh.
Qed.

Lemma perform_safe c this :
  callOK c -> consistent this -> safe (perform c this) consistent.
Proof.
  intros Hok Hc. destruct c; unfold perform.
  - apply safe_bind. eapply safe_mono; [now apply Evaluate_safe|].
    intros [e v] He. now apply safe_ret.
  - apply safe_bind. eapply safe_mono; [now apply Initialize_safe|].
    intros [e v] He. now apply safe_ret.
  - apply safe_bind. eapply safe_mono; [now apply RedirectServersHook_safe|].
    intros [e v] He. now apply safe_ret.
  - now apply ConstOptimizeCall_safe.
  - now apply SetMPSet_safe.
  - apply safe_ret. now apply consistent_set_simCount.
Qed.

Lemma performAll_safe cs this :
  Forall callOK cs -> consistent this -> safe (performAll cs this) consistent.
Proof.
  intros Hok. revert this. induction Hok as [|c cs Hc _ IH]; intros this Hthis; simpl.
  - now apply safe_ret.
  - apply safe_bind. eapply safe_mono; [now apply perform_safe|]. exact IH.
Qed.

End SafeTheory.

(** ** Sequences of operations, and copies *)

Section Sequences.
Context {subclass : Subclass}.








Lemma callOK_lax (calls : list Call) : Forall (@callOK subclass False) calls.
Proof. apply Forall_forall. intros [] _; simpl; tauto. Qed.

Lemma sliceable_inRange numSets n a :
  0 <= a < numSets -> numSets <= Int.max -> sliceable numSets n ->
  Int.inRange (n * a) /\ Int.inRange (a + 1) /\ Int.inRange (n * (a + 1)) /\
  0 < numSets.
Proof.
  unfold sliceable, Int.inRange, Int.min, Int.max. intros Ha Hb [Hn Hmax].
  repeat split; nia.
Qed.



(** X12: the counters of an instance that went through any sequence of
    operations describe its arrays: [_nGof] children, none missing, and none
    before the initialisation or outside SimMaster mode; [_nCPU] front-ends
    once an MPMaster is initialised, none otherwise. *)
Theorem X12_arrays_match_counters (name title : string) (pdf : RooAbsPdf)
  (data : RooAbsData) (projDeps : RooArgSet) (nCPU : Z) (calls : list Call)
  (tr : list Event) (this' : RooAbsGoodnessOfFit) :
  statesFit pdf ->
  performAll calls (RooAbsGoodnessOfFit_new name title pdf data projDeps nCPU)
  = (tr, Returned this') ->
  length (_gofArray this') = Z.to_nat (_nGof this') /\
  (forall i, (i < length (_gofArray this'))%nat ->
     exists c, _gofArray this' !! i = Some (Some c) /\ _gofOpMode c <> MPMaster) /\
  (_gofOpMode this' <> SimMaster \/ _init this' = false ->
     _nGof this' = 0 /\ _gofArray this' = []) /\
  (_gofOpMode this' = MPMaster -> _init this' = true ->
     length (_mpfeArray this') = Z.to_nat (_nCPU this') /\
     forall i, (i < length (_mpfeArray this'))%nat ->
       exists fe, _mpfeArray this' !! i = Some (Some fe) /\
                  _gofOpMode (mpfeArg fe) <> MPMaster) /\
  (_gofOpMode this' <> MPMaster \/ _init this' = false -> _mpfeArray this' = []) /\
  (_gofOpMode this' = SimMaster -> isSimultaneous (_pdf this') = true).
Proof.
  intros Hfit E.
  pose proof (@performAll_safe subclass False calls _ (callOK_lax calls)
                (consistent_new name title pdf data projDeps nCPU Hfit)) as Hc.
  apply (safe_returned _ _ _ _ Hc) in E. clear Hc.
  apply consistent_iff in E as (_ & _ & Hsim & Hlg & Hn0 & Hu0 & Hma & Hfa & Hfm).
  assert (Hzero : _nGof this' = 0 -> _gofArray this' = []).
  { intros Hz. rewrite Hz in Hlg. now apply nil_length_inv. }
  split; [done|]. split; [|split; [|split; [|split]]].
  - intros i Hi. destruct (filled_lookup _ _ i Hfa Hi) as (c & Hc & _ & Hm). eauto.
  - intros [Hm|Hi]; [specialize (Hn0 Hm)|specialize (Hu0 Hi)]; auto.
  - intros Hm Hi. rewrite decide_True in Hma by done. split; [done|].
    intros i Hlt. destruct (filled_lookup _ _ i Hfm Hlt) as (fe & Hfe & _ & Hmfe). eauto.
  - intros Hor. rewrite decide_False in Hma; [done|]. intros [Hm Hi].
    destruct Hor; congruence.
  - exact Hsim.
Qed.



End Sequences.

(** ** Destruction *)

Section Freeing.
Context {subclass : Subclass} {guard : Strictness}.

Lemma deleteLoop {T : Type} (f : T -> list Freed -> M (list Freed))
  (R : T -> list Freed -> Prop) (suf : list (option T)) :
  Forall (fun o => match o with
                   | Some x => exists fr,
                       (forall log, f x log = ([], Returned (log ++ fr))) /\ R x fr
                   | None => True
                   end) suf ->
  forall pre, exists frs,
    Forall2 (fun o fr => match o with Some x => R x fr | None => fr = [] end) suf frs /\
    forall log,
      forRange (length suf) (length pre)
        (fun i log => deleteSlot i (fmap (M := option) f <$> (pre ++ suf)) log) log
      = ([], Returned (log ++ concat frs)).
Proof.
  induction 1 as [|o suf Ho _ IH]; intros pre.
  - exists []. split; [constructor|]. intros log. cbn [length forRange concat].
    now rewrite app_nil_r.
  - destruct (IH (pre ++ [o])) as (frs & Hfrs & Hrun).
    rewrite length_app in Hrun. cbn [length] in Hrun.
    rewrite Nat.add_1_r, <- app_assoc in Hrun. cbn [app] in Hrun.
    assert (Hat : (fmap (M := option) f <$> (pre ++ o :: suf)) !! length pre = Some (f <$> o)).
    { rewrite list_lookup_fmap, lookup_app_r by lia.
      now rewrite Nat.sub_diag. }
    assert (Hd : forall log,
               deleteSlot (length pre) (fmap (M := option) f <$> (pre ++ o :: suf)) log
               = match o with Some x => f x log | None => mret log end).
    { intros log. unfold deleteSlot. rewrite Hat. now destruct o. }
    destruct o as [x|].
    + destruct Ho as (fr & Hf & HR). exists (fr :: frs). split; [now constructor|].
      intros log. cbn [length forRange]. rewrite Hd, Hf, bind_pure, Hrun.
      cbn [concat]. now rewrite app_assoc.
    + exists ([] :: frs). split; [now constructor|].
      intros log. cbn [length forRange]. rewrite Hd, bind_ret, Hrun. reflexivity.
Qed.

Lemma deleteAll {T : Type} (f : T -> list Freed -> M (list Freed))
  (R : T -> list Freed -> Prop) (a : list (option T)) (n : Z) :
  length a = Z.to_nat n ->
  Forall (fun o => match o with
                   | Some x => exists fr,
                       (forall log, f x log = ([], Returned (log ++ fr))) /\ R x fr
                   | None => True
                   end) a ->
  exists frs,
    Forall2 (fun o fr => match o with Some x => R x fr | None => fr = [] end) a frs /\
    forall log,
      For n (fun i log => deleteSlot i (fmap (M := option) f <$> a) log) log
      = ([], Returned (log ++ concat frs)).
Proof.
  intros Hn Ha. destruct (deleteLoop f R a Ha []) as (frs & Hfrs & Hrun).
  exists frs. split; [done|]. intros log. unfold For. rewrite <- Hn. apply Hrun.
Qed.

Lemma frontEnds_freed (ma : list (option RooRealMPFE)) (frs : list (list Freed)) :
  Forall2 (fun o fr => match o with
                       | Some fe => fr = [FreedFrontEnd (mpfeName fe)]
                       | None => fr = []
                       end) ma frs ->
  omap frontEndFreed (concat frs) = omap (fmap mpfeName) ma /\
  omap engineFreed (concat frs) = [].
Proof.
  induction 1 as [|o fr ma frs Ho _ [IH1 IH2]]; [done|].
  cbn [concat]. rewrite !omap_app, IH1, IH2.
  destruct o as [fe|]; subst fr; done.
Qed.

Lemma engines_freed (ga : list (option RooAbsGoodnessOfFit)) (frs : list (list Freed)) :
  Forall2 (fun o fr => match o with
                       | Some c => exists fr0,
                           fr = fr0 ++ [FreedEngine (m_name (members c))] /\
                           omap engineFreed fr0 = descendants c /\
                           omap frontEndFreed fr0 = []
                       | None => fr = []
                       end) ga frs ->
  omap engineFreed (concat frs)
  = concat (List.map (fun o => match o with
                               | Some c => descendants c ++ [m_name (members c)]
                               | None => []
                               end) ga) /\
  omap frontEndFreed (concat frs) = [].
Proof.
  induction 1 as [|o fr ga frs Ho _ [IH1 IH2]]; [done|].
  cbn [concat List.map]. rewrite !omap_app, IH1, IH2.
  destruct o as [c|].
  - destruct Ho as (fr0 & -> & H1 & H2). rewrite !omap_app, H1, H2. done.
  - subst fr. done.
Qed.

Lemma delete_frees (n : nat) : forall this,
  (rank this <= n)%nat -> consistent this ->
  exists freed,
    (forall log, RooAbsGoodnessOfFit_delete this log = ([], Returned (log ++ freed))) /\
    omap engineFreed freed = descendants this /\
    omap frontEndFreed freed = frontEnds this /\
    last freed = Some (FreedProjDeps (GetName this)) /\
    (_init this = false -> freed = [FreedProjDeps (GetName this)]).
Proof.
  induction n as [n IH] using lt_wf_ind. intros this Hrank Hc.
  pose proof (rank_gofArray _ _ Hrank) as Hbelow.
  apply consistent_iff in Hc as (_ & _ & _ & Hlg & Hn0 & Hu0 & Hma & Hfa & Hfm).
  destruct this as [m ga ma].
  unfold frontEnds, GetName.
  unfold _gofOpMode, _nGof, _init, _nCPU, _gofArray, _mpfeArray, _name
    in Hlg, Hn0, Hu0, Hma, Hfa, Hfm, Hbelow |- *.
  cbn [members] in Hlg, Hn0, Hu0, Hma, Hfa, Hfm, Hbelow |- *.
  cbn [RooAbsGoodnessOfFit_delete descendants].
  assert (Hnil : m_nGof m = 0 -> ga = []).
  { intros Hz. rewrite Hz in Hlg. now apply nil_length_inv. }
  destruct (decide (m_gofOpMode m = MPMaster /\ m_init m = true)) as [[Hmode Hinit]|Hno].
  - destruct (decide (m_gofOpMode m = SimMaster /\ m_init m = true)) as [[? _]|_];
      [congruence|].
    rewrite (Hnil (Hn0 ltac:(congruence))).
    destruct (deleteAll
                (fun (fe : RooRealMPFE) log => mret (log ++ [FreedFrontEnd (mpfeName fe)]))
                (fun fe fr => fr = [FreedFrontEnd (mpfeName fe)]) ma (m_nCPU m) Hma)
      as (frs & Hfrs & Hrun).
    { apply Forall_forall. intros [fe|] _; [|done]. eauto. }
    destruct (frontEnds_freed _ _ Hfrs) as [Hfe Hen].
    exists (concat frs ++ [FreedMpfeArray (m_name m); FreedProjDeps (m_name m)]).
    split; [|split; [|split; [|split]]].
    + intros log. unfold RooRealMPFE in *. rewrite Hrun, bind_pure, !bind_ret.
      now rewrite <- !app_assoc.
    + rewrite omap_app, Hen. reflexivity.
    + rewrite omap_app, Hfe. cbn. now rewrite app_nil_r.
    + now rewrite last_app.
    + congruence.
  - rewrite Hma. cbn [omap].
    destruct (decide (m_gofOpMode m = SimMaster /\ m_init m = true))
      as [[Hmode Hinit]|Hno'].
    + destruct (deleteAll
                  (fun (c : RooAbsGoodnessOfFit) log =>
                     log ← RooAbsGoodnessOfFit_delete c log;
                     mret (log ++ [FreedEngine (m_name (members c))]))
                  (fun c fr => exists fr0,
                     fr = fr0 ++ [FreedEngine (m_name (members c))] /\
                     omap engineFreed fr0 = descendants c /\
                     omap frontEndFreed fr0 = []) ga (m_nGof m) Hlg)
        as (frs & Hfrs & Hrun).
      { apply Forall_forall. intros [c|] Hin; [|done].
        unfold filled, slots in Hfa, Hbelow. rewrite Forall_forall in Hfa, Hbelow.
        specialize (Hfa _ Hin). specialize (Hbelow _ Hin). simpl in Hfa, Hbelow.
        destruct Hfa as [Hcc Hcm]. unfold below in Hbelow.
        destruct (IH (rank c) Hbelow c (le_n _) Hcc) as (fr0 & Hrun0 & He0 & Hf0 & _).
        exists (fr0 ++ [FreedEngine (m_name (members c))]). split.
        - intros log. rewrite Hrun0, bind_pure. now rewrite <- app_assoc.
        - exists fr0. split; [done|]. split; [done|]. rewrite Hf0.
          apply consistent_iff in Hcc as (_ & _ & _ & _ & _ & _ & Hcma & _).
          rewrite decide_False in Hcma by (intros [? _]; congruence).
          unfold frontEnds. now rewrite Hcma. }
      destruct (engines_freed _ _ Hfrs) as [Hen Hfe].
      exists (concat frs ++ [FreedGofArray (m_name m); FreedProjDeps (m_name m)]).
      split; [|split; [|split; [|split]]].
      * intros log. rewrite bind_ret, Hrun, bind_pure, !bind_ret.
        now rewrite <- !app_assoc.
      * rewrite omap_app, Hen. cbn. now rewrite app_nil_r.
      * rewrite omap_app, Hfe. reflexivity.
      * now rewrite last_app.
      * congruence.
    + assert (Hz : m_nGof m = 0).
      { destruct (decide (m_gofOpMode m = SimMaster)) as [Hm|Hm]; [|auto].
        apply Hu0. destruct (m_init m); [|done]. now destruct Hno'. }
      rewrite (Hnil Hz).
      exists [FreedProjDeps (m_name m)]. repeat split; done.
Qed.

End Freeing.

Section Destruction.
Context {subclass : Subclass}.

(** X15: an instance can be destroyed at any point of its life. Whatever
    sequence of operations it went through, its destructor stays within its
    arrays and returns; it frees each engine held at any depth exactly once,
    what a child holds before the child, each front-end once, and last its
    own [_projDeps]; before the initialisation that is all it frees. *)
Theorem X15_destructor_frees_what_is_held (name title : string) (pdf : RooAbsPdf)
  (data : RooAbsData) (projDeps : RooArgSet) (nCPU : Z) (calls : list Call)
  (tr : list Event) (this' : RooAbsGoodnessOfFit) :
  statesFit pdf ->
  performAll calls (RooAbsGoodnessOfFit_new name title pdf data projDeps nCPU)
  = (tr, Returned this') ->
  exists freed,
    (forall log, RooAbsGoodnessOfFit_delete this' log = ([], Returned (log ++ freed))) /\
    omap engineFreed freed = descendants this' /\
    omap frontEndFreed freed = frontEnds this' /\
    last freed = Some (FreedProjDeps (GetName this')) /\
    (_init this' = false -> freed = [FreedProjDeps (GetName this')]).
Proof.
  intros Hfit E.
  pose proof (@performAll_safe subclass False calls _ (callOK_lax calls)
                (consistent_new name title pdf data projDeps nCPU Hfit)) as Hc.
  apply (safe_returned _ _ _ _ Hc) in E. clear Hc.
  exact (delete_frees (rank this') this' (le_n _) E).
Qed.

End Destruction.

(** * Set-up happens once *)

Lemma quiet_ret {A : Type} (a : A) (Q : A -> Prop) : Q a -> quiet (mret a) Q.
Proof. now split. Qed.

Lemma quiet_bind {A B : Type} (m : M A) (f : A -> M B) (Q : B -> Prop) :
  quiet m (fun a => quiet (f a) Q) -> quiet (m ≫= f) Q.
Proof.
  rewrite bind_unfold. unfold quiet.
  destruct m as [tr [a| |u|]]; simpl; intros [-> H]; [|done..].
  destruct H as [-> H]. done.
Qed.

Lemma quiet_mono {A : Type} (m : M A) (Q Q' : A -> Prop) :
  quiet m Q -> (forall a, Q a -> Q' a) -> quiet m Q'.
Proof. unfold quiet. destruct m as [tr [a| |u|]]; simpl; intros [-> H]; auto. Qed.

Lemma quiet_undefined {A : Type} u (Q : A -> Prop) : quiet (undefined u) Q.
Proof. now split. Qed.

Lemma quiet_forRange {S : Type} (I : S -> Prop) count start
  (body : nat -> S -> M S) (s : S) :
  I s -> (forall i s, I s -> quiet (body i s) I) ->
  quiet (forRange count start body s) I.
Proof.
  intros Hs Hbody. revert start s Hs.
  induction count as [|count IH]; intros start s Hs; simpl.
  - now apply quiet_ret.
  - apply quiet_bind. eapply quiet_mono; [now apply Hbody|]. intros s' Hs'.
    now apply IH.
Qed.

Lemma quiet_atSlot {T : Type} (P : T -> Prop) guarded (method : T -> M T) i
  (a : list (option T)) :
  slots P a -> (forall x, P x -> quiet (method x) P) ->
  quiet (atSlot guarded method i a) (slots P).
Proof.
  intros Ha Hm. unfold atSlot. destruct (a !! i) as [[x|]|] eqn:E.
  - apply quiet_bind. eapply quiet_mono; [apply Hm; eapply slots_lookup; eauto|].
    intros x' Hx'. apply quiet_ret. now apply slots_insert.
  - destruct guarded; [now apply quiet_ret | apply quiet_undefined].
  - apply quiet_undefined.
Qed.

Lemma quiet_For_atSlot {T : Type} (P : T -> Prop) guarded (method : T -> M T) n
  (a : list (option T)) :
  slots P a -> (forall x, P x -> quiet (method x) P) ->
  quiet (For n (atSlot guarded method) a) (slots P).
Proof.
  intros Ha Hm. apply quiet_forRange; [exact Ha|].
  intros i s Hs. now apply quiet_atSlot.
Qed.

Section QuietTheory.
Context {subclass : Subclass}.





Lemma quiet_combinedValue {T : Type} (P : T -> Prop)
  (getVal : T -> M (T * Double_t)) (a : list (option T)) (n : Z) :
  slots P a -> (forall x, P x -> quiet (getVal x) (fun r => P r.1)) ->
  quiet (combinedValue getVal a n) (fun r => slots P r.1).
Proof.
  intros Ha Hg. unfold combinedValue.
  apply (quiet_forRange (fun r : list (option T) * Double_t => slots P r.1));
    [exact Ha|].
  intros i [arr sum] Harr. simpl in Harr. unfold readSlot.
  destruct (arr !! i) as [[x|]|] eqn:E; [|apply quiet_undefined..].
  rewrite bind_ret. apply quiet_bind.
  eapply quiet_mono; [apply Hg; eapply slots_lookup; eauto|]. intros [x' v] Hx'.
  apply quiet_ret. now apply slots_insert.
Qed.

Lemma setUp_iff this :
  setUp this <->
  _init this = true /\ slots setUp (_gofArray this) /\
  slots (fun fe => setUp (mpfeArg fe)) (_mpfeArray this).
Proof.
  destruct this as [m ga ma]. cbn [setUp]. unfold _init, _gofArray, _mpfeArray.
  cbn [members]. rewrite !foldr_and_Forall, !Forall_map. unfold slots.
  repeat apply and_iff_compat_l. reflexivity.
Qed.

Lemma setUp_updMembers f e :
  (forall m, m_init (f m) = m_init m) -> setUp (updMembers f e) <-> setUp e.
Proof. intros H. destruct e as [m ga ma]. cbn [setUp updMembers]. now rewrite H. Qed.

Lemma setUp_set_gofArray ga this :
  setUp this -> slots setUp ga -> setUp (set_gofArray ga this).
Proof.
  rewrite !setUp_iff. intros (Hi & _ & Hma) Hga. now destruct this.
Qed.

Lemma setUp_set_mpfeArray ma this :
  setUp this -> slots (fun fe => setUp (mpfeArg fe)) ma ->
  setUp (set_mpfeArray ma this).
Proof.
  rewrite !setUp_iff. intros (Hi & Hga & _) Hma. now destruct this.
Qed.

Lemma setUp_init this : setUp this -> _init this = true.
Proof. now intros (? & _)%setUp_iff. Qed.

Lemma setUp_children this : setUp this -> slots setUp (_gofArray this).
Proof. now intros (_ & ? & _)%setUp_iff. Qed.

Lemma setUp_workers this :
  setUp this -> slots (fun fe => setUp (mpfeArg fe)) (_mpfeArray this).
Proof. now intros (_ & _ & ?)%setUp_iff. Qed.

Lemma initialize_quiet callee this :
  setUp this -> quiet (initialize callee this) (fun r => setUp r.1).
Proof.
  intros Hs. unfold initialize. rewrite (setUp_init _ Hs). now apply quiet_ret.
Qed.

Lemma quiet_mpfe_getVal callee fe :
  Quiet callee -> setUp (mpfeArg fe) ->
  quiet (mpfe_getVal callee fe) (fun r => setUp (mpfeArg r.1)).
Proof.
  intros Q Hfe. unfold mpfe_getVal. apply quiet_bind.
  eapply quiet_mono; [now apply (quiet_getVal _ Q)|]. intros [g v] Hg.
  now apply quiet_ret.
Qed.

Lemma quiet_mpfe_constOptimize callee opcode fe :
  Quiet callee -> setUp (mpfeArg fe) ->
  quiet (mpfe_constOptimize callee opcode fe) (fun fe' => setUp (mpfeArg fe')).
Proof.
  intros Q Hfe. unfold mpfe_constOptimize. apply quiet_bind.
  eapply quiet_mono; [now apply (quiet_constOptimize _ Q)|]. intros g Hg.
  now apply quiet_ret.
Qed.

Lemma evaluate_quiet callee this :
  Quiet callee -> setUp this -> quiet (evaluate callee this) (fun r => setUp r.1).
Proof.
  intros Q Hs. unfold evaluate. rewrite (setUp_init _ Hs). cbn [negb].
  rewrite bind_ret. destruct (_gofOpMode this).
  - apply quiet_bind. eapply quiet_mono.
    { apply (quiet_combinedValue setUp); [now apply setUp_children|].
      intros x Hx. now apply (quiet_getVal _ Q). }
    intros [ga v] Hga. apply quiet_ret. now apply setUp_set_gofArray.
  - apply quiet_bind. eapply quiet_mono.
    { apply (quiet_For_atSlot (fun fe => setUp (mpfeArg fe)));
        [now apply setUp_workers|].
      intros x Hx. now apply quiet_ret. }
    intros ma Hma. apply quiet_bind. eapply quiet_mono.
    { apply (quiet_combinedValue (fun fe => setUp (mpfeArg fe))); [exact Hma|].
      intros x Hx. now apply quiet_mpfe_getVal. }
    intros [ma' v] Hma'. apply quiet_ret. now apply setUp_set_mpfeArray.
  - destruct (_numSets this =? 0); [apply quiet_undefined|now apply quiet_ret].
Qed.

Lemma redirectServersHook_quiet callee l b1 b2 b3 this :
  Quiet callee -> setUp this ->
  quiet (redirectServersHook callee l b1 b2 b3 this) (fun r => setUp r.1).
Proof.
  intros Q Hs. unfold redirectServersHook.
  set (this' := notify _ this).
  assert (Hs' : setUp this') by (subst this'; now apply setUp_updMembers).
  clearbody this'. destruct (_gofOpMode this'); [|now apply quiet_ret..].
  apply quiet_bind. eapply quiet_mono.
  { apply (quiet_For_atSlot setUp); [now apply setUp_children|].
    intros x Hx. now apply (quiet_recursiveRedirectServers _ Q). }
  intros ga Hga. apply quiet_ret. now apply setUp_set_gofArray.
Qed.

Lemma constOptimize_quiet callee opcode this :
  Quiet callee -> setUp this -> quiet (constOptimize callee opcode this) setUp.
Proof.
  intros Q Hs. unfold constOptimize. apply quiet_bind.
  eapply quiet_mono.
  { apply initialize_quiet. now apply setUp_updMembers. }
  intros [e b] He. simpl in He. destruct (_gofOpMode e); [| |now apply quiet_ret].
  - apply quiet_bind. eapply quiet_mono.
    { apply (quiet_For_atSlot setUp); [now apply setUp_children|].
      intros x Hx. now apply (quiet_constOptimize _ Q). }
    intros ga Hga. apply quiet_ret. now apply setUp_set_gofArray.
  - apply quiet_bind. eapply quiet_mono.
    { apply (quiet_For_atSlot (fun fe => setUp (mpfeArg fe)));
        [now apply setUp_workers|].
      intros x Hx. now apply quiet_mpfe_constOptimize. }
    intros ma Hma. apply quiet_ret. now apply setUp_set_mpfeArray.
Qed.

Lemma setMPSet_quiet callee a b this :
  Quiet callee -> setUp this -> quiet (setMPSet callee a b this) setUp.
Proof.
  intros Q Hs. unfold setMPSet.
  set (this' := set_partition _ _ this).
  assert (Hs' : setUp this') by (subst this'; now apply setUp_updMembers).
  clearbody this'. destruct (_gofOpMode this'); [|now apply quiet_ret..].
  apply quiet_bind. eapply quiet_mono; [now apply initialize_quiet|].
  intros [e b0] He. simpl in He.
  apply quiet_bind. eapply quiet_mono.
  { apply (quiet_For_atSlot setUp); [now apply setUp_children|].
    intros x Hx. now apply (quiet_setMPSet _ Q). }
  intros ga Hga. apply quiet_ret. now apply setUp_set_gofArray.
Qed.

Lemma dispatch_Quiet n : Quiet (dispatch n).
Proof.
  induction n as [|n IH]; [now split|].
  split; intros; cbn [dispatch call_getVal call_setMPSet call_constOptimize
                      call_recursiveRedirectServers].
  - now apply evaluate_quiet.
  - now apply setMPSet_quiet.
  - now apply constOptimize_quiet.
  - unfold recursiveRedirectServers. apply quiet_bind.
    eapply quiet_mono; [now apply redirectServersHook_quiet|].
    intros [e b] He. now apply quiet_ret.
Qed.

Lemma perform_quiet c this : setUp this -> quiet (perform c this) setUp.
Proof.
  intros Hs. destruct c; unfold perform.
  - apply quiet_bind. eapply quiet_mono;
      [apply evaluate_quiet; [apply dispatch_Quiet|done]|].
    intros [e v] He. now apply quiet_ret.
  - apply quiet_bind. eapply quiet_mono; [now apply initialize_quiet|].
    intros [e v] He. now apply quiet_ret.
  - apply quiet_bind. eapply quiet_mono;
      [apply redirectServersHook_quiet; [apply dispatch_Quiet|done]|].
    intros [e v] He. now apply quiet_ret.
  - apply constOptimize_quiet; [apply dispatch_Quiet|done].
  - apply setMPSet_quiet; [apply dispatch_Quiet|done].
  - apply quiet_ret. now apply setUp_updMembers.
Qed.

Lemma performAll_quiet cs this : setUp this -> quiet (performAll cs this) setUp.
Proof.
  revert this. induction cs as [|c cs IH]; intros this Hs; simpl.
  - now apply quiet_ret.
  - apply quiet_bind. eapply quiet_mono; [now apply perform_quiet|]. exact IH.
Qed.


(** After [combinedValue], every object in the first [n] slots is one that
    [getVal] handed back; the other slots are as they were. *)
Lemma cv_each {T : Type} (P Q : T -> Prop) (getVal : T -> M (T * Double_t)) :
  (forall x tr x' v, P x -> getVal x = (tr, Returned (x', v)) -> Q x') ->
  forall count start arr sum tr arr' sum',
    (forall i x, (start <= i)%nat -> arr !! i = Some (Some x) -> P x) ->
    forRange count start (cvBody getVal) (arr, sum) = (tr, Returned (arr', sum')) ->
    length arr' = length arr /\
    (forall i, (i < start)%nat -> arr' !! i = arr !! i) /\
    (forall i x, (start <= i < start + count)%nat -> arr' !! i = Some (Some x) -> Q x).
Proof.
  intros Hg. induction count as [|count IH]; intros start arr sum tr arr' sum' Hp H.
  - injection H as <- <- <-. split; [done|]. split; [done|]. intros; lia.
  - cbn [forRange] in H.
    apply bind_inv in H as (tr1 & s1 & tr2 & Hbody & Hrest & ->).
    apply cvBody_inv in Hbody as (o & o' & v & Hi & Hgo & ->).
    pose proof (Hg _ _ _ _ (Hp _ _ (le_n _) Hi) Hgo) as Ho'.
    apply IH in Hrest as (Hlen & Hframe & Heach).
    2:{ intros i x Hlt Hx. rewrite list_lookup_insert_ne in Hx by lia.
        apply (Hp i); [lia|done]. }
    rewrite length_insert in Hlen. split; [done|]. split.
    + intros i Hlt. rewrite Hframe by lia. apply list_lookup_insert_ne. lia.
    + intros i x Hr Hx. destruct (decide (i = start)) as [->|Hne].
      * rewrite Hframe in Hx by lia.
        rewrite list_lookup_insert_eq in Hx by now apply lookup_lt_Some in Hi.
        now injection Hx as <-.
      * apply (Heach i); [lia|done].
Qed.

Lemma combinedValue_each {T : Type} (P Q : T -> Prop)
  (getVal : T -> M (T * Double_t)) a n tr a' v :
  (forall x tr x' v, P x -> getVal x = (tr, Returned (x', v)) -> Q x') ->
  slots P a -> length a = Z.to_nat n ->
  combinedValue getVal a n = (tr, Returned (a', v)) ->
  slots Q a'.
Proof.
  intros Hg Hp Hlen H. rewrite combinedValue_unfold in H.
  apply (cv_each P Q getVal Hg) in H as (Hl & _ & Heach).
  2:{ intros i x _ Hx. exact (slots_lookup _ _ _ _ Hp Hx). }
  unfold slots. apply Forall_lookup. intros i [x|] Hx; [|done].
  apply (Heach i); [|done]. apply lookup_lt_Some in Hx. lia.
Qed.

Lemma slots_of_filled {T : Type} (P : T -> Prop) (a : list (option T)) :
  filled P a -> slots P a.
Proof.
  unfold filled, slots. intros H. eapply Forall_impl; [exact H|]. now intros [x|].
Qed.

Lemma evaluate_sets_up_step n callee this tr this1 v :
  Good n callee -> @Safe subclass False n callee ->
  ((0 < n)%nat -> redirectsFresh callee) ->
  @consistent subclass False this -> (rank this <= n)%nat ->
  (forall x tr x' w, @ownedBelow subclass False (rank this) x ->
     call_getVal callee x = (tr, Returned (x', w)) -> setUp x') ->
  evaluate callee this = (tr, Returned (this1, v)) -> setUp this1.
Proof.
  intros G S F Hc Hr Hchild H. unfold evaluate in H.
  apply bind_inv in H as (tr1 & e & tr2 & Hinit & H & ->).
  assert (He : (rank e <= rank this)%nat /\ @consistent subclass False e /\
               _init e = true).
  { destruct (_init this) eqn:Hi; cbn [negb] in Hinit.
    - injection Hinit as <- <-. auto.
    - apply bind_inv in Hinit as (tr3 & [e' b] & tr4 & Hinit & [= <- <-] & ->).
      pose proof (safe_returned _ _ _ _
                    (initialized_safe n callee (rank this) this G S F Hr (le_n _) Hc)
                    Hinit) as (H1 & H2 & H3 & _).
      auto. }
  destruct He as (Hre & Hce & Hie).
  pose proof (proj1 (consistent_iff e) Hce)
    as (_ & _ & _ & Hlg & Hn0 & _ & Hma & _ & _).
  pose proof (ownedBelow_children (rank this) e Hre Hce) as Hga.
  pose proof (ownedBelow_workers (rank this) e Hre Hce) as Hfe.
  destruct (_gofOpMode e) eqn:Hm.
  - apply bind_inv in H as (tr3 & [ga w] & tr4 & Hcv & [= <- <-] & ->).
    rewrite decide_False in Hma by (now intros [? _]).
    apply setUp_iff. rewrite init_set_gofArray, gofArray_set_gofArray.
    split; [done|]. split.
    + apply (combinedValue_each _ _ _ _ _ _ _ _ Hchild (slots_of_filled _ _ Hga) Hlg Hcv).
    + replace (_mpfeArray (set_gofArray ga e)) with (_mpfeArray e)
        by now destruct e.
      rewrite Hma. constructor.
  - apply bind_inv in H as (tr3 & ma1 & tr4 & Hcalc & H & ->).
    apply bind_inv in H as (tr5 & [ma2 w] & tr6 & Hcv & [= <- <-] & ->).
    rewrite decide_True in Hma by done.
    pose proof (wp_returned _ _ _ _ _
                  (wp_For_atSlot True (@argOwnedBelow subclass False (rank this))
                     false mpfe_calculate (_nCPU e) (_mpfeArray e)
                     (slots_of_filled _ _ Hfe)
                     ltac:(intros x Hx; now apply wp_ret)) Hcalc) as Hma1.
    pose proof (wp_returned _ _ _ _ _
                  (forRange_atSlot_length _ _ _ _ _) Hcalc) as Hl1.
    simpl in Hl1.
    apply setUp_iff. rewrite init_set_mpfeArray, mpfeArray_set_mpfeArray.
    split; [done|]. split.
    + replace (_gofArray (set_mpfeArray ma2 e)) with (_gofArray e) by now destruct e.
      specialize (Hn0 ltac:(done)). rewrite Hn0 in Hlg.
      apply nil_length_inv in Hlg. rewrite Hlg. constructor.
    + apply (combinedValue_each (@argOwnedBelow subclass False (rank this))
               (fun fe => setUp (mpfeArg fe)) _ _ _ _ _ _) with (4 := Hcv);
        [|done|congruence].
      intros fe tr7 fe' w' Hx Hfe'. unfold mpfe_getVal in Hfe'.
      apply bind_inv in Hfe' as (tr8 & [g w2] & tr9 & Hg & [= <- <-] & ->).
      cbn [mpfe_setArg mpfeArg]. exact (Hchild _ _ _ _ Hx Hg).
  - destruct (_numSets e =? 0); [discriminate|]. injection H as <- <- <-.
    rewrite decide_False in Hma by (now intros [? _]).
    specialize (Hn0 ltac:(done)). rewrite Hn0 in Hlg. apply nil_length_inv in Hlg.
    apply setUp_iff. rewrite Hlg, Hma. split; [done|]. split; constructor.
Qed.

Lemma evaluate_sets_up n :
  forall this tr this1 v,
    @consistent subclass False this -> (rank this <= n)%nat ->
    evaluate (dispatch n) this = (tr, Returned (this1, v)) -> setUp this1.
Proof.
  induction n as [|n IH]; intros this tr this1 v Hc Hr H.
  - eapply (evaluate_sets_up_step 0); eauto using dispatch_Good, dispatch_Safe,
      dispatch_fresh. intros x tr0 x' w _ [=].
  - eapply (evaluate_sets_up_step (S n)); eauto using dispatch_Good, dispatch_Safe,
      dispatch_fresh.
    intros x tr0 x' w (Hb & Hcx & _) Hx. cbn [dispatch call_getVal] in Hx.
    unfold below in Hb. apply (IH _ _ _ _ Hcx ltac:(lia) Hx).
Qed.

(** X14: set-up happens once: after an evaluation has returned, no further
    operation prints anything or builds an engine or a front-end. *)
Theorem X14_nothing_built_after_first_evaluation (name title : string)
  (pdf : RooAbsPdf) (data : RooAbsData) (projDeps : RooArgSet) (nCPU : Z)
  (before after : list Call) (tr0 tr1 : list Event)
  (this0 this1 : RooAbsGoodnessOfFit) (v : Double_t) :
  statesFit pdf ->
  performAll before (RooAbsGoodnessOfFit_new name title pdf data projDeps nCPU)
  = (tr0, Returned this0) ->
  Evaluate this0 = (tr1, Returned (this1, v)) ->
  (performAll after this1).1 = [].
Proof.
  intros Hfit H0 H1.
  pose proof (@performAll_safe subclass False before _ (callOK_lax before)
                (consistent_new name title pdf data projDeps nCPU Hfit)) as Hc.
  apply (safe_returned _ _ _ _ Hc) in H0. clear Hc.
  pose proof (evaluate_sets_up _ _ _ _ _ H0 (le_n _) H1) as Hs.
  exact (proj1 (performAll_quiet after this1 Hs)).
Qed.



End QuietTheory.


(** * The claims on concrete instances *)

#[local] Existing Instance sliceProbe.

(** ** C1 *)

(** C1, as stated, fails: with 1500000000 entries and two slices the product
    [_nEvents * (_setNum+1)] of the last slice, 3000000000, does not fit in
    an [Int_t] (in C++ the overflow is undefined behaviour; the 32-bit
    product is -1294967296), and the Slave evaluates the slice
    [750000000, -647483648), whose upper bound is not [nEvents]. *)
Lemma C1_counterexample :
  0 <= 1500000000 /\ 1 <= 2 /\ 0 <= 1 < 2 /\
  nLast 1500000000 (2 - 1) 2 = -647483648 /\
  nLast 1500000000 (2 - 1) 2 <> 1500000000 /\
  _gofOpMode bigSlave = Slave /\ _nEvents bigSlave = 1500000000 /\
  _setNum bigSlave = 1 /\ _numSets bigSlave = 2 /\
  Evaluate bigSlave
  = ([], Returned (set_init true bigSlave, [("big", 750000000, -647483648)])).
Proof. repeat split; try lia; try discriminate; reflexivity. Qed.

Lemma C1_witness :
  (0 <= 10 /\ 1 <= 3 <= Int.max /\ 10 * 3 <= Int.max) /\
  nFirst 10 0 3 = 0 /\ nLast 10 2 3 = 10 /\
  nFirst 10 1 3 = nLast 10 0 3 /\ nFirst 10 2 3 = nLast 10 1 3 /\
  (exists setNum, 0 <= setNum < 3 /\ inSlice 10 3 setNum 3 /\
     forall setNum', 0 <= setNum' < 3 -> inSlice 10 3 setNum' 3 -> setNum' = setNum) /\
  Evaluate (set_partition 1 3 slave)
  = ([], Returned (set_init true (set_partition 1 3 slave), [("A", 3, 6)])).
Proof.
  assert (H : 0 <= 10 /\ 1 <= 3 <= Int.max /\ 10 * 3 <= Int.max)
    by (unfold Int.max; lia).
  split; [exact H|].
  destruct H as (H1 & H2 & H3).
  destruct (C1_slices_cover 10 3 H1 H2 H3) as (Hf & Hl & Hadj & _ & Hcov & Hev).
  split; [exact Hf|]. split; [exact Hl|].
  split; [apply (Hadj 1); lia|]. split; [apply (Hadj 2); lia|].
  split; [apply (Hcov 3); lia|].
  apply (Hev (set_partition 1 3 slave)); [reflexivity..|]. cbn. lia.
Defined.

(** ** C2 *)

(** A split that lists an empty subset for state B: the state is accepted,
    [_nGof] is 2 although one state only has a component and entries, a
    child is built on the empty subset, and no diagnostic is printed. *)
Lemma C2_counterexample :
  _gofOpMode simMasterEmptyB = SimMaster /\
  split (_data simMasterEmptyB) cat3 = Some [dataA; dataBempty] /\
  is_Some (getPdf pdfList2 "B") /\ numEntries dataBempty = 0 /\
  length (List.filter (populated pdfList2 [dataA; dataBempty]) (catTypes cat3)) = 1%nat /\
  exists tr this' a b,
    Initialize simMasterEmptyB = (tr, Returned (this', false)) /\
    _nGof this' = 2 /\
    _nGof this'
    <> Z.of_nat (length (List.filter (populated pdfList2 [dataA; dataBempty])
                           (catTypes cat3))) /\
    _gofArray this' = [Some a; Some b] /\
    GetName b = "B" /\ _nEvents b = 0 /\ _simCount b = 2 /\
    (Cout (noDataMessage "B") ∉ tr).
Proof.
  split; [reflexivity|]. split; [reflexivity|]. split; [eexists; reflexivity|].
  split; [reflexivity|]. split; [reflexivity|].
  eexists _, _, _, _. split; [vm_compute; reflexivity|].
  split; [reflexivity|]. split; [discriminate|]. split; [reflexivity|].
  split; [reflexivity|]. split; [reflexivity|]. split; [reflexivity|].
  intros H. repeat (apply elem_of_cons in H as [H|H]; [vm_compute in H; discriminate H|]).
  now apply elem_of_nil in H.
Qed.

Lemma C2_witness :
  (_gofOpMode simMaster = SimMaster /\ _init simMaster = false /\
   _pdf simMaster = RooSimultaneous "sim" cat3 pdfList3 /\
   split (_data simMaster) cat3 = Some [dataA; dataB] /\
   Z.of_nat (length (catTypes cat3)) <= Int.max) /\
  exists tr this',
    Initialize simMaster = (tr, Returned (this', false)) /\
    _nGof this' = 2 /\ length (_gofArray this') = 2%nat /\
    (exists a b, _gofArray this' = [Some a; Some b] /\
       GetName a = "A" /\ GetName b = "B" /\
       _simCount a = 2 /\ _simCount b = 2) /\
    Cout (noDataMessage "C") ∈ tr /\ (Cout (noDataMessage "B") ∉ tr) /\
    exists this1,
      Evaluate simMaster = (tr, Returned (this1, [("A", 0, 10); ("B", 0, 7)])).
Proof.
  assert (H : _gofOpMode simMaster = SimMaster /\ _init simMaster = false /\
              _pdf simMaster = RooSimultaneous "sim" cat3 pdfList3 /\
              split (_data simMaster) cat3 = Some [dataA; dataB] /\
              Z.of_nat (length (catTypes cat3)) <= Int.max).
  { repeat split; try reflexivity; discriminate. }
  split; [exact H|].
  destruct H as (H1 & H2 & H3 & H4 & H5).
  destruct (C2_simMaster_children simMaster "sim" cat3 pdfList3 [dataA; dataB]
              H1 H2 H3 H4 H5)
    as (tr & this' & Hinit & Hn & Hlen & Hchildren & Hdiag & Hacc & Hsum).
  exists tr, this'. split; [exact Hinit|]. split; [exact Hn|]. split; [exact Hlen|].
  split.
  - destruct (Hchildren 0%nat "A" eq_refl) as (pa & da & a & _ & _ & Ha & Hca & Hsa).
    destruct (Hchildren 1%nat "B" eq_refl) as (pb & db & b & _ & _ & Hb & Hcb & Hsb).
    exists a, b. split.
    + destruct (_gofArray this') as [|x [|y [|z rest]]]; try discriminate.
      cbn in Ha, Hb. congruence.
    + rewrite Hsa, Hsb, Hn, Hca, Hcb. repeat split; reflexivity.
  - split.
    { apply (Hdiag "C"); [|eexists; reflexivity|reflexivity].
      right. right. left. }
    split.
    { apply (Hacc "B"); [|eexists; reflexivity|eexists; reflexivity].
      right. left. }
    apply Hsum.
    + repeat constructor.
    + repeat constructor; discriminate.
Defined.

(** ** C4 *)

Lemma C4_witness :
  (_gofOpMode simMasterNoCat = SimMaster /\ _init simMasterNoCat = false /\
   _pdf simMasterNoCat = RooSimultaneous "sim" cat3 pdfList3 /\
   split (_data simMasterNoCat) cat3 = None) /\
  Evaluate simMasterNoCat
  = ([Cout "RooAbsGoodnessOfFit::initSimMode(nll) unable to split dataset, abort"],
     SoftAbort) /\
  Initialize simMasterNoCat
  = ([Cout "RooAbsGoodnessOfFit::initSimMode(nll) unable to split dataset, abort"],
     SoftAbort).
Proof.
  assert (H : _gofOpMode simMasterNoCat = SimMaster /\ _init simMasterNoCat = false /\
              _pdf simMasterNoCat = RooSimultaneous "sim" cat3 pdfList3 /\
              split (_data simMasterNoCat) cat3 = None)
    by (repeat split; reflexivity).
  split; [exact H|].
  destruct H as (H1 & H2 & H3 & H4).
  destruct (C4_split_failure_aborts simMasterNoCat "sim" cat3 pdfList3 H1 H2 H3 H4)
    as (tr & Hi & He & Htr & _).
  rewrite He, Hi, Htr. split; reflexivity.
Defined.

(** ** C5 *)

Lemma C5_witness :
  exists tr this1 v,
    Evaluate simMaster = (tr, Returned (this1, v)) /\
    v = [("A", 0, 10); ("B", 0, 7)] /\
    length (List.filter (fun ev => match ev with Create _ => true | _ => false end) tr)
    = 2%nat /\
    Evaluate this1 = ([], Returned (this1, v)) /\
    _init this1 = true /\
    Initialize this1 = ([], Returned (this1, false)).
Proof.
  eexists _, _, _. split; [vm_compute; reflexivity|].
  split; [reflexivity|]. split; [reflexivity|].
  eapply (C5_evaluate_twice simMaster). vm_compute. reflexivity.
Defined.

(** ** C6 *)

Lemma C6_witness :
  exists tr this',
    performAll someCalls (RooAbsGoodnessOfFit_new "nll" "nll" sim3 dataAB [] 1)
    = (tr, Returned this') /\
    _gofOpMode (RooAbsGoodnessOfFit_new "nll" "nll" sim3 dataAB [] 1) = SimMaster /\
    _gofOpMode this' = SimMaster.
Proof.
  eexists _, _. split; [vm_compute; reflexivity|].
  refine (let H := C6_mode_fixed_at_construction "nll" "nll" sim3 dataAB [] 1
                     someCalls _ _ _ in
          conj (proj1 H) (proj1 (proj2 H))).
  vm_compute. reflexivity.
Defined.

(** ** C7 *)

(** C7, as stated, fails: [setMPSet(5,0)] on a Slave returns without any
    diagnostic, the instance has recorded [_numSets = 0], and it is the next
    evaluation that runs into the division by zero. *)
Lemma C7_counterexample :
  SetMPSet 5 0 slave = ([], Returned (set_partition 5 0 slave)) /\
  _setNum (set_partition 5 0 slave) = 5 /\
  _numSets (set_partition 5 0 slave) = 0 /\
  Evaluate (set_partition 5 0 slave) = ([], Undefined DivideByZero).
Proof. repeat split; reflexivity. Qed.

Lemma C7_witness :
  _gofOpMode mpMaster <> SimMaster /\
  SetMPSet (-1) 2 mpMaster = ([], Returned (set_partition (-1) 2 mpMaster)) /\
  _setNum (set_partition (-1) 2 mpMaster) = -1.
Proof.
  assert (H : _gofOpMode mpMaster <> SimMaster) by discriminate.
  split; [exact H|].
  destruct (C7_setMPSet_records_unchecked (-1) 2 mpMaster H) as (H1 & H2 & _).
  split; [exact H1|exact H2].
Defined.

(** ** C8 *)

Lemma countProbe_exact : @exactSum countProbe /\ @additive countProbe.
Proof.
  unfold exactSum, additive. simpl. repeat split; intros; lia.
Qed.

(** Two processes over 1500000000 counted entries: the second slice ends at
    [-647483648] and holds no entry, and the two values add up to the
    750000000 entries of the first slice instead of the 1500000000 of the
    direct evaluation. *)
Lemma C8_counterexample :
  @exactSum countProbe /\ @additive countProbe /\
  exists tr mp p,
    Evaluate bigDirect = ([], Returned (p, 1500000000)) /\
    Evaluate bigMPMaster = (tr, Returned (mp, 750000000)) /\
    nLast 1500000000 1 2 = -647483648 /\ 750000000 <> 1500000000.
Proof.
  split; [apply countProbe_exact|]. split; [apply countProbe_exact|].
  eexists _, _, _. split; [vm_compute; reflexivity|].
  split; [vm_compute; reflexivity|]. split; [reflexivity|discriminate].
Qed.

Lemma C8_witness :
  (@exactSum countProbe /\ @additive countProbe /\ 1 < 2 <= Int.max /\
   flat sim3 /\ statesFit sim3 /\ Forall (sliceable 2) (sizes dataAB)) /\
  exists trp p tr mp,
    Evaluate (@RooAbsGoodnessOfFit_new countProbe "nll" "nll" sim3 dataAB [] 1)
    = (trp, Returned (p, 17)) /\
    Evaluate (@RooAbsGoodnessOfFit_new countProbe "nll" "nll" sim3 dataAB [] 2)
    = (tr, Returned (mp, 17)).
Proof.
  assert (H : @exactSum countProbe /\ @additive countProbe /\ 1 < 2 <= Int.max /\
              flat sim3 /\ statesFit sim3 /\ Forall (sliceable 2) (sizes dataAB)).
  { split; [apply countProbe_exact|]. split; [apply countProbe_exact|].
    split; [split; [lia|discriminate]|]. split; [repeat constructor|].
    split; [split; [discriminate|repeat split]|].
    repeat constructor; discriminate. }
  split; [exact H|].
  destruct H as (H1 & H2 & H3 & H4 & H5 & H6).
  eexists _, _. 
  match goal with |- exists tr mp, Evaluate ?P = (_, Returned (?p, _)) /\ _ =>
    assert (Hp : Evaluate P = (simTrace pdfList3 [dataA; dataB] (catTypes cat3) 0,
                               Returned (p, 17)))
  end.
  2: { destruct (@C8_MPMaster_matches_prototype countProbe "nll" "nll" sim3 dataAB [] 2
                   _ _ 17
                   H1 H2 H3 H4 H5 H6 Hp) as (tr & mp & Hmp).
       exists tr, mp. split; [exact Hp|exact Hmp]. }
  vm_compute. reflexivity.
Defined.

(** ** C10 *)

Lemma C10_witness :
  exists tr this' b,
    Initialize simMaster = (tr, Returned (this', b)) /\
    _init simMaster = false /\ length (_gofArray simMaster) = 0%nat /\
    length (_gofArray this') = 2%nat /\
    b = false /\ _init this' = true.
Proof.
  eexists _, _, _. split; [vm_compute; reflexivity|].
  split; [reflexivity|]. split; [reflexivity|]. split; [reflexivity|].
  refine (let H := C10_initialize_returns_kFALSE simMaster _ _ _ _ in
          conj (proj1 H) (proj1 (proj2 H))).
  vm_compute. reflexivity.
Defined.

(** ** C3 *)

(** C3: an MPMaster over two workers, once evaluated, holds two started
    front-ends. Told of a server redirection, it logs the call and returns:
    no front-end and no engine behind a front-end has heard of it. Told of a
    constant optimisation, it passes the opcode on to both. *)
Lemma C3_redirect_not_forwarded_by_MPMaster :
  exists tr this v,
    Evaluate mpMaster = (tr, Returned (this, v)) /\
    _gofOpMode this = MPMaster /\ _init this = true /\
    length (_mpfeArray this) = 2%nat /\
    exists this',
      RedirectServersHook ["mean"] false false false this
      = ([], Returned (this', false)) /\
      _mpfeArray this' = _mpfeArray this /\
      Forall (fun slot => exists fe, slot = Some fe /\
                mpfeInit fe = true /\ mpfeNotified fe = [] /\
                _notified (mpfeArg fe) = [])
             (_mpfeArray this') /\
      exists this'',
        ConstOptimizeCall true this = ([], Returned this'') /\
        Forall (fun slot => exists fe, slot = Some fe /\
                  mpfeNotified fe = [ConstOptimize true] /\
                  _notified (mpfeArg fe) = [ConstOptimize true])
               (_mpfeArray this'').
Proof.
  eexists _, _, _. split; [vm_compute; reflexivity|].
  split; [reflexivity|]. split; [reflexivity|]. split; [reflexivity|].
  eexists. split; [vm_compute; reflexivity|]. split; [reflexivity|].
  split; [repeat constructor; eexists; repeat split; reflexivity|].
  eexists. split; [vm_compute; reflexivity|].
  repeat constructor; eexists; repeat split; reflexivity.
Qed.

(** ** C9 *)

(** C9: the copy of an MPMaster that was never evaluated does not come
    about: the loop over the [_nCPU] front-ends reads slot 0 of an array
    that was never allocated. The copy of a SimMaster that was never
    evaluated is an uninitialised SimMaster, and the copy of an evaluated
    MPMaster holds clones of its front-ends. *)
Lemma C9_copy_of_uninitialized_MPMaster :
  _gofOpMode mpMaster = MPMaster /\ _init mpMaster = false /\
  _nCPU mpMaster = 2 /\ _mpfeArray mpMaster = [] /\
  Copy mpMaster None = ([], Undefined OutOfBounds) /\
  (exists this, Copy simMaster None = ([], Returned this) /\
     _init this = false /\ _gofArray this = []) /\
  (exists tr this v this',
     Evaluate mpMaster = (tr, Returned (this, v)) /\
     Copy this None = ([], Returned this') /\
     _mpfeArray this' = _mpfeArray this /\ _projDeps this' = _projDeps this).
Proof.
  split; [reflexivity|]. split; [reflexivity|]. split; [reflexivity|].
  split; [reflexivity|]. split; [reflexivity|]. split.
  - eexists. split; [vm_compute; reflexivity|]. split; reflexivity.
  - eexists _, _, _, _. split; [vm_compute; reflexivity|].
    split; [vm_compute; reflexivity|]. split; reflexivity.
Qed.

(** * The further properties on concrete instances *)

(** ** X1 *)

Lemma X1_witness :
  (0 <= 10 /\ 1 <= 3 <= Int.max /\ 10 * 3 <= Int.max /\ 0 <= 1 < 3) /\
  3 <= nLast 10 1 3 - nFirst 10 1 3 <= 4.
Proof.
  assert (H : 0 <= 10 /\ 1 <= 3 <= Int.max /\ 10 * 3 <= Int.max /\ 0 <= 1 < 3)
    by (unfold Int.max; lia).
  split; [exact H|].
  destruct H as (H1 & H2 & H3 & H4).
  exact (X1_slices_balanced 10 3 1 H1 H2 H3 H4).
Defined.

(** ** X2 *)

Lemma X2_witness :
  (1 <= 1 /\ Int.inRange (numEntries dataA)) /\
  Evaluate slave = ([], Returned (set_init true slave, [("A", 0, 10)])).
Proof.
  assert (H : 1 <= 1 /\ Int.inRange (numEntries dataA))
    by (unfold Int.inRange, Int.min, Int.max; simpl; lia).
  split; [exact H|].
  destruct H as (H1 & H2).
  exact (X2_fresh_instance_evaluates_all "nll" "nll" "gauss" dataA [] 1 H1 H2).
Defined.

(** ** X3 *)

Lemma X3_witness :
  (_gofOpMode mpMaster = MPMaster /\ _init mpMaster = false /\
   _pdf mpMaster = RooPdf "gauss") /\
  exists tr this',
    Initialize mpMaster = (tr, Returned (this', false)) /\
    tr = [Create "nll"; Cout (startingMessage 0); NewMPFE "nll_MPFE0" false;
          NewMPFE "nll_MPFE1" true] /\
    length (_mpfeArray this') = 2%nat /\
    exists fe, _mpfeArray this' !! 1%nat = Some (Some fe) /\
      _setNum (mpfeArg fe) = 1 /\ _numSets (mpfeArg fe) = 2 /\
      GetName (mpfeArg fe) = "nll_GOF1".
Proof.
  assert (H : _gofOpMode mpMaster = MPMaster /\ _init mpMaster = false /\
              _pdf mpMaster = RooPdf "gauss") by (repeat split; reflexivity).
  split; [exact H|].
  destruct H as (H1 & H2 & H3).
  destruct (X3_MPMaster_workers mpMaster "gauss" H1 H2 H3)
    as (tr & this' & Hinit & _ & Htr & Hlen & Hall).
  exists tr, this'. split; [exact Hinit|]. split; [exact Htr|]. split; [exact Hlen|].
  destruct (Hall 1%nat) as (fe & Hfe & _ & _ & _ & Hname & _ & _ & Hs & Hn & _);
    [vm_compute; lia|].
  exists fe. split; [exact Hfe|]. split; [exact Hs|]. split; [exact Hn|exact Hname].
Defined.

(** ** X4 *)

Lemma X4_witness :
  (_gofOpMode mpMaster = MPMaster /\ _init mpMaster = false /\
   _pdf mpMaster = RooPdf "gauss") /\
  exists tr this1,
    Evaluate mpMaster = (tr, Returned (this1, [("A", 0, 5); ("A", 5, 10)])).
Proof.
  assert (H : _gofOpMode mpMaster = MPMaster /\ _init mpMaster = false /\
              _pdf mpMaster = RooPdf "gauss") by (repeat split; reflexivity).
  split; [exact H|].
  destruct H as (H1 & H2 & H3).
  destruct (X4_MPMaster_value mpMaster "gauss" H1 H2 H3) as (tr & this1 & He & _).
  exists tr, this1. exact He.
Defined.

(** ** X5 *)

Lemma X5_witness :
  _gofOpMode simMaster = SimMaster /\
  exists tr this' a b,
    SetMPSet 1 2 simMaster = (tr, Returned this') /\
    _init this' = true /\ _setNum this' = 1 /\ _numSets this' = 2 /\
    _gofArray this' = [Some a; Some b] /\
    (_setNum a = 1 /\ _numSets a = 2) /\ (_setNum b = 1 /\ _numSets b = 2).
Proof.
  split; [reflexivity|].
  eexists _, _, _, _. split; [vm_compute; reflexivity|].
  match goal with |- _init ?T = true /\ _ =>
    destruct (X5_setMPSet_reaches_children 1 2 simMaster _ T eq_refl
                ltac:(vm_compute; reflexivity)) as (Hs & Hn & Hi & Hall)
  end.
  split; [exact Hi|]. split; [exact Hs|]. split; [exact Hn|].
  split; [vm_compute; reflexivity|]. split.
  - apply (Hall 0%nat); [vm_compute; lia|vm_compute; reflexivity].
  - apply (Hall 1%nat); [vm_compute; lia|vm_compute; reflexivity].
Defined.

(** ** X6 *)

Lemma X6_witness :
  exists tr this' fe0 fe1,
    @ConstOptimizeCall sliceProbe true mpMaster = (tr, Returned this') /\
    _init mpMaster = false /\ _init this' = true /\
    _mpfeArray this' = [Some fe0; Some fe1] /\
    last (mpfeNotified fe0) = Some (@ConstOptimize sliceProbe true) /\
    last (_notified (mpfeArg fe1)) = Some (@ConstOptimize sliceProbe true).
Proof.
  eexists _, _, _, _. split; [vm_compute; reflexivity|]. split; [reflexivity|].
  match goal with |- _init ?T = true /\ _ =>
    destruct (@X6_constOptimize_initializes_and_forwards sliceProbe true mpMaster _ T
                ltac:(vm_compute; reflexivity)) as (Hi & _ & _ & _ & Hall)
  end.
  split; [exact Hi|]. split; [vm_compute; reflexivity|]. split.
  - apply (Hall eq_refl 0%nat); [vm_compute; lia|vm_compute; reflexivity].
  - apply (Hall eq_refl 1%nat); [vm_compute; lia|vm_compute; reflexivity].
Defined.

(** ** X7 *)

Lemma X7_witness :
  exists this',
    RedirectServersHook ["mean"] true false false simMaster
    = ([], Returned (this', false)) /\
    _init simMaster = false /\ _init this' = false /\ _gofArray this' = [] /\
    exists tr1 this1 v tr2 this2 a b,
      Evaluate simMaster = (tr1, Returned (this1, v)) /\
      RedirectServersHook ["mean"] true false false this1
      = (tr2, Returned (this2, false)) /\
      _gofArray this2 = [Some a; Some b] /\
      last (_notified a) = Some (ServerRedirect ["mean"] true false true) /\
      last (_notified b) = Some (ServerRedirect ["mean"] true false true).
Proof.
  eexists. split; [vm_compute; reflexivity|]. split; [reflexivity|].
  match goal with |- _init ?T = false /\ _ =>
    destruct (X7_redirect_forwards_without_initializing ["mean"] true false false
                simMaster _ T false ltac:(vm_compute; reflexivity))
      as (_ & Hi & _ & Hl & _)
  end.
  split; [exact Hi|]. split; [vm_compute; reflexivity|].
  eexists _, _, _, _, _, _, _. split; [vm_compute; reflexivity|].
  split; [vm_compute; reflexivity|].
  split; [vm_compute; reflexivity|]. split; vm_compute; reflexivity.
Defined.

(** ** X8 *)

Lemma X8_witness :
  exists tr this',
    performAll someCalls simMaster = (tr, Returned this') /\
    _pdf this' = sim3 /\ _data this' = dataAB /\ _nEvents this' = 17 /\
    _nCPU this' = 1.
Proof.
  eexists _, _. split; [vm_compute; reflexivity|].
  match goal with |- _pdf ?T = _ /\ _ =>
    destruct (X8_bindings_fixed someCalls simMaster _ T
                ltac:(vm_compute; reflexivity)) as (H1 & H2 & _ & H4 & H5 & _)
  end.
  exact (conj H1 (conj H2 (conj H4 H5))).
Defined.

(** ** X9 *)

Lemma X9_witness :
  (_gofOpMode simMasterNoC = SimMaster /\ _init simMasterNoC = false /\
   _pdf simMasterNoC = RooSimultaneous "sim" cat3 pdfList2 /\
   split (_data simMasterNoC) cat3 = Some [dataA; dataB; dataC] /\
   Z.of_nat (length (catTypes cat3)) <= Int.max /\
   getPdf pdfList2 "C" = None /\
   FindObject [dataA; dataB; dataC] "C" = Some dataC) /\
  exists tr this',
    Initialize simMasterNoC = (tr, Returned (this', false)) /\
    (Create "C" ∉ tr) /\ length tr = 4%nat /\
    length (_gofArray this') = 2%nat.
Proof.
  assert (H : _gofOpMode simMasterNoC = SimMaster /\ _init simMasterNoC = false /\
              _pdf simMasterNoC = RooSimultaneous "sim" cat3 pdfList2 /\
              split (_data simMasterNoC) cat3 = Some [dataA; dataB; dataC] /\
              Z.of_nat (length (catTypes cat3)) <= Int.max /\
              getPdf pdfList2 "C" = None /\
              FindObject [dataA; dataB; dataC] "C" = Some dataC)
    by (repeat split; try reflexivity; discriminate).
  split; [exact H|].
  destruct H as (H1 & H2 & H3 & H4 & H5 & H6 & _).
  eexists _, _. split; [vm_compute; reflexivity|].
  match goal with |- (_ ∉ ?TR) /\ _ /\ length (_gofArray ?T) = _ =>
    destruct (X9_state_without_component_is_skipped simMasterNoC "sim" cat3
                pdfList2 [dataA; dataB; dataC] TR T false H1 H2 H3 H4 H5
                ltac:(vm_compute; reflexivity)) as (Hskip & Hlen)
  end.
  split; [exact (proj1 (Hskip "C" H6))|]. split; [exact Hlen|].
  vm_compute. reflexivity.
Defined.

(** ** X10 *)

Lemma X10_witness :
  (_gofOpMode simMaster = SimMaster /\ _init simMaster = false /\
   _pdf simMaster = RooSimultaneous "sim" cat3 pdfList3 /\
   Forall (fun p : string * RooAbsPdf => isSimultaneous p.2 = false) pdfList3 /\
   split (_data simMaster) cat3 = Some [dataA; dataB] /\
   Z.of_nat (length (catTypes cat3)) <= Int.max /\
   0 <= 1 < 2 /\ 2 <= Int.max /\
   Forall (fun d => sliceable 2 (numEntries d)) [dataA; dataB]) /\
  exists tr this' this1,
    SetMPSet 1 2 simMaster = (tr, Returned this') /\
    Evaluate this' = ([], Returned (this1, [("A", 5, 10); ("B", 3, 7)])).
Proof.
  assert (H : _gofOpMode simMaster = SimMaster /\ _init simMaster = false /\
              _pdf simMaster = RooSimultaneous "sim" cat3 pdfList3 /\
              Forall (fun p : string * RooAbsPdf => isSimultaneous p.2 = false)
                pdfList3 /\
              split (_data simMaster) cat3 = Some [dataA; dataB] /\
              Z.of_nat (length (catTypes cat3)) <= Int.max /\
              0 <= 1 < 2 /\ 2 <= Int.max /\
              Forall (fun d => sliceable 2 (numEntries d)) [dataA; dataB]).
  { split; [reflexivity|]. split; [reflexivity|]. split; [reflexivity|].
    split; [repeat constructor|]. split; [reflexivity|]. split; [discriminate|].
    split; [lia|]. split; [discriminate|].
    repeat constructor; discriminate. }
  split; [exact H|].
  destruct H as (H1 & H2 & H3 & H4 & H5 & H6 & H7 & H8 & H9).
  destruct (X10_SimMaster_partition_value simMaster "sim" cat3 pdfList3
              [dataA; dataB] 1 2 H1 H2 H3 H4 H5 H6 H7 H8 H9)
    as (this' & this1 & Hset & _ & Hev).
  exists (simTrace pdfList3 [dataA; dataB] (catTypes cat3) 0), this', this1.
  split; [exact Hset|exact Hev].
Defined.

(** ** X11 *)


(** ** X12 *)

Lemma X12_witness :
  statesFit sim3 /\
  exists tr this',
    performAll someCalls simMaster = (tr, Returned this') /\
    _nGof this' = 2 /\ length (_gofArray this') = 2%nat /\ _mpfeArray this' = [].
Proof.
  assert (H : statesFit sim3) by (split; [discriminate|repeat split]).
  split; [exact H|].
  eexists _, _. split; [vm_compute; reflexivity|].
  split; [vm_compute; reflexivity|].
  match goal with |- length (_gofArray ?T) = _ /\ _ =>
    destruct (X12_arrays_match_counters "nll" "nll" sim3 dataAB [] 1 someCalls _ T H
                ltac:(vm_compute; reflexivity)) as (Hlen & _ & _ & _ & Hmp & _)
  end.
  split; [exact Hlen|]. apply Hmp. left. vm_compute. discriminate.
Defined.

(** ** X13 *)


(** ** X14 *)

Lemma X14_witness :
  statesFit sim3 /\
  exists tr1 this1 v,
    Evaluate simMaster = (tr1, Returned (this1, v)) /\
    length tr1 = 5%nat /\
    (performAll someCalls this1).1 = [].
Proof.
  assert (H : statesFit sim3) by (split; [discriminate|repeat split]).
  split; [exact H|].
  eexists _, _, _. split; [vm_compute; reflexivity|].
  split; [vm_compute; reflexivity|].
  match goal with |- (performAll _ ?T).1 = _ =>
    exact (X14_nothing_built_after_first_evaluation "nll" "nll" sim3 dataAB [] 1
             [] someCalls [] _ simMaster T _ H eq_refl
             ltac:(vm_compute; reflexivity))
  end.
Defined.

Lemma X15_witness :
  statesFit sim3 /\
  exists tr this',
    performAll someCalls simMaster = (tr, Returned this') /\
    length (descendants this') = 2%nat /\
    exists freed,
      RooAbsGoodnessOfFit_delete this' [] = ([], Returned freed) /\
      omap engineFreed freed = descendants this'.
Proof.
  assert (H : statesFit sim3) by (split; [discriminate|repeat split]).
  split; [exact H|].
  eexists _, _. split; [vm_compute; reflexivity|].
  split; [vm_compute; reflexivity|].
  match goal with |- exists freed, RooAbsGoodnessOfFit_delete ?T _ = _ /\ _ =>
    destruct (X15_destructor_frees_what_is_held "nll" "nll" sim3 dataAB [] 1
                someCalls _ T H ltac:(vm_compute; reflexivity))
      as (freed & Hrun & Hen & _)
  end.
  exists freed. split; [exact (Hrun [])|exact Hen].
Defined.
